(** * mucal: occurrences from CalDAV event definitions

    A shallow embedding of the Go packages [internal/caldav] (client.go,
    recurring.go, event.go) and [internal/api] (handler.go), together with
    the parts of Go's [strings], [strconv], [sort] and [time] packages that
    those files call.  Go strings are byte sequences and are modelled by
    [string] (a list of [ascii] bytes); [int] and [time.Duration] are 64-bit
    and wrap around; a function returning [(value, error)] returns a
    [result]. *)

From Stdlib Require Import ZArith Lia Ascii DecimalString.
From stdpp Require Import base option list gmap strings sorting.

Local Open Scope Z_scope.

(** ** Results: Go's [(value, error)] pairs *)

Inductive result (A : Type) : Type :=
| Ok (value : A)
| Err (message : string).

Arguments Ok {A} value.
Arguments Err {A} message.

Definition rbind {A B : Type} (r : result A) (k : A -> result B) : result B :=
  match r with
  | Ok a => k a
  | Err e => Err e
  end.

Notation "x <- r ;; k" := (rbind r (fun x => k))
  (at level 100, r at next level, right associativity, only parsing).

Definition isOk {A : Type} (r : result A) : bool :=
  match r with Ok _ => true | Err _ => false end.

(** ** 64-bit integers *)

Module GoInt.

Definition minInt64 : Z := - 2 ^ 63.
Definition maxInt64 : Z := 2 ^ 63 - 1.

Definition inInt64 (z : Z) : bool := (minInt64 <=? z) && (z <=? maxInt64).

(** Two's complement reduction of an unbounded integer to [int64]. *)
Definition wrap64 (z : Z) : Z := (z + 2 ^ 63) mod 2 ^ 64 - 2 ^ 63.

Definition add64 (a b : Z) : Z := wrap64 (a + b).
Definition mul64 (a b : Z) : Z := wrap64 (a * b).
Definition neg64 (a : Z) : Z := wrap64 (- a).

End GoInt.

(** ** Package [strings], for the one-byte separators the sources use *)

Module GoStrings.

Definition byteEq (a b : ascii) : bool := Ascii.eqb a b.

Arguments byteEq : simpl never.

(** [len(s)] *)
Definition len (s : string) : Z := Z.of_nat (String.length s).

(** [s[lo:]] *)
Fixpoint sliceFrom (lo : nat) (s : string) : string :=
  match lo, s with
  | O, _ => s
  | S n, String _ r => sliceFrom n r
  | S _, EmptyString => EmptyString
  end.

(** [s[:hi]] *)
Fixpoint sliceTo (hi : nat) (s : string) : string :=
  match hi, s with
  | O, _ => EmptyString
  | S n, String c r => String c (sliceTo n r)
  | S _, EmptyString => EmptyString
  end.

(** [strings.HasPrefix(s, prefix)] *)
Fixpoint HasPrefix (s prefix : string) {struct prefix} : bool :=
  match prefix, s with
  | EmptyString, _ => true
  | String p ps, String c cs => byteEq c p && HasPrefix cs ps
  | String _ _, EmptyString => false
  end.

(** [strings.Index(s, sep)] for a one-byte [sep]: the position of its first
    occurrence, or -1. *)
Fixpoint indexFrom (i : Z) (s : string) (sep : ascii) : Z :=
  match s with
  | EmptyString => -1
  | String c r => if byteEq c sep then i else indexFrom (i + 1) r sep
  end.

Definition Index (s : string) (sep : ascii) : Z := indexFrom 0 s sep.

(** [strings.Contains(s, sep)] *)
Definition Contains (s : string) (sep : ascii) : bool := 0 <=? Index s sep.

Arguments Index : simpl never.
Arguments Contains : simpl never.

(** [strings.Split(s, sep)] for a one-byte [sep]; the result is never empty. *)
Fixpoint Split (s : string) (sep : ascii) : list string :=
  match s with
  | EmptyString => [EmptyString]
  | String c r =>
      if byteEq c sep then EmptyString :: Split r sep
      else match Split r sep with
           | h :: t => String c h :: t
           | [] => [String c EmptyString]
           end
  end.

(** The last byte of a string, if any. *)
Fixpoint lastByte (s : string) : option ascii :=
  match s with
  | EmptyString => None
  | String c EmptyString => Some c
  | String _ r => lastByte r
  end.

(** [strings.TrimSuffix(s, suffix)] for a one-byte [suffix]. *)
Definition TrimSuffix (s : string) (suffix : ascii) : string :=
  match lastByte s with
  | Some c => if byteEq c suffix then sliceTo (String.length s - 1) s else s
  | None => s
  end.

End GoStrings.

(** ** Package [strconv] *)

Module Strconv.

Definition isDigit (c : ascii) : bool :=
  let n := Z.of_N (N_of_ascii c) in (48 <=? n) && (n <=? 57).

Definition digitVal (c : ascii) : Z := Z.of_N (N_of_ascii c) - 48.

(** The value of a run of decimal digits, [None] when a byte is no digit. *)
Fixpoint digitsFrom (acc : Z) (s : string) : option Z :=
  match s with
  | EmptyString => Some acc
  | String c r => if isDigit c then digitsFrom (acc * 10 + digitVal c) r else None
  end.

(** [strconv.Atoi] on a 64-bit platform: an optional sign, then at least one
    decimal digit and nothing else; a value outside [int64] is an error. *)
Definition Atoi (s : string) : option Z :=
  match s with
  | EmptyString => None
  | String s0 r =>
      let body :=
        if GoStrings.byteEq s0 "-" || GoStrings.byteEq s0 "+" then r else s in
      match body with
      | EmptyString => None
      | _ =>
          match digitsFrom 0 body with
          | Some v =>
              let n := if GoStrings.byteEq s0 "-" then - v else v in
              if GoInt.inInt64 n then Some n else None
          | None => None
          end
      end
  end.

End Strconv.

(** ** Package [time]

    An instant is an unbounded count of nanoseconds since the Unix epoch
    together with the [Location] it is presented in, as a Go [time.Time]
    without monotonic reading.  A [Duration] is an [int64] count of
    nanoseconds.  A [Location] is the table of zone transitions Go loads for
    it: the UTC offset in force before the first transition and the ascending
    list of [(when, offset)] transitions, both in seconds. *)

Module GoTime.

Definition Duration : Type := Z.

Definition Nanosecond : Duration := 1.
Definition Second : Duration := 1000000000.
Definition Minute : Duration := 60 * Second.
Definition Hour : Duration := 60 * Minute.

Record Location : Type := mkLocation {
  locName : string;
  zoneFirst : Z;
  zoneTx : list (Z * Z)
}.

Definition UTC : Location := mkLocation "UTC" 0 [].

(** [time.FixedZone(name, offset)] *)
Definition FixedZone (name : string) (offset : Z) : Location :=
  mkLocation name offset [].

Definition alpha : Z := - 2 ^ 63.
Definition omega : Z := 2 ^ 63 - 1.

(** [Location.lookup]: the offset in force at the Unix second [sec] and the
    bounds [start <= sec < end] of the period it is in force for. *)
Fixpoint lookupTx (tx : list (Z * Z)) (sec offset start : Z) : Z * Z * Z :=
  match tx with
  | [] => (offset, start, omega)
  | (when, off) :: rest =>
      if sec <? when then (offset, start, when)
      else lookupTx rest sec off when
  end.

Definition lookup (l : Location) (sec : Z) : Z * Z * Z :=
  lookupTx (zoneTx l) sec (zoneFirst l) alpha.

Definition offsetAt (l : Location) (sec : Z) : Z := (lookup l sec).1.1.

Record Time : Type := mkTime {
  unixNano : Z;
  loc : Location
}.

Definition unixSec (t : Time) : Z := unixNano t / 1000000000.
Definition nsecOf (t : Time) : Z := unixNano t mod 1000000000.

(** [t.In(loc)], [t.UTC()] *)
Definition In (t : Time) (l : Location) : Time := mkTime (unixNano t) l.
Definition toUTC (t : Time) : Time := In t UTC.

(** [t.Equal(u)], [t.Before(u)], [t.After(u)] compare instants only. *)
Definition Equal (t u : Time) : bool := unixNano t =? unixNano u.
Definition Before (t u : Time) : bool := unixNano t <? unixNano u.
Definition After (t u : Time) : bool := unixNano u <? unixNano t.

(** [t.Add(d)] *)
Definition Add (t : Time) (d : Duration) : Time := mkTime (unixNano t + d) (loc t).

(** [t.Sub(u)]: the difference, or the smallest or largest [Duration] when
    the difference does not fit one. *)
Definition Sub (t u : Time) : Duration :=
  let d := GoInt.wrap64 (unixNano t - unixNano u) in
  if Equal (Add u d) t then d
  else if Before t u then GoInt.minInt64
  else GoInt.maxInt64.

(** *** The proleptic Gregorian calendar *)

Definition isLeap (year : Z) : bool :=
  (year mod 4 =? 0) && (negb (year mod 100 =? 0) || (year mod 400 =? 0)).

Definition daysIn (month year : Z) : Z :=
  if month =? 2 then (if isLeap year then 29 else 28)
  else if (month =? 4) || (month =? 6) || (month =? 9) || (month =? 11) then 30
  else 31.

(** Days from 1970-01-01 to the given date, for [1 <= month <= 12]; the day
    counts on linearly from the first of the month, as in [time.Date]. *)
Definition daysFromCivil (year month day : Z) : Z :=
  let y := if month <=? 2 then year - 1 else year in
  let era := y / 400 in
  let yoe := y - era * 400 in
  let mp := (month + 9) mod 12 in
  let doy := (153 * mp + 2) / 5 + day - 1 in
  let doe := yoe * 365 + yoe / 4 - yoe / 100 + doy in
  era * 146097 + doe - 719468.

(** The date of a day count since 1970-01-01. *)
Definition civilFromDays (days : Z) : Z * Z * Z :=
  let z := days + 719468 in
  let era := z / 146097 in
  let doe := z - era * 146097 in
  let yoe := (doe - doe / 1460 + doe / 36524 - doe / 146096) / 365 in
  let doy := doe - (365 * yoe + yoe / 4 - yoe / 100) in
  let mp := (5 * doy + 2) / 153 in
  let d := doy - (153 * mp + 2) / 5 + 1 in
  let m := if mp <? 10 then mp + 3 else mp - 9 in
  let y := yoe + era * 400 in
  (if m <=? 2 then y + 1 else y, m, d).

(** [time.Date(year, month, day, hour, min, sec, nsec, loc)]: months
    overflow into years and every smaller field into the next larger one;
    the wall clock reading is then moved to UTC by the offset [loc] has
    there. *)
Definition Date (year month day hour min sec nsec : Z) (l : Location) : Time :=
  let m0 := month - 1 in
  let year := year + m0 / 12 in
  let month := m0 mod 12 + 1 in
  let wall := daysFromCivil year month day * 86400 + hour * 3600 + min * 60 + sec in
  let wall := wall + nsec / 1000000000 in
  let nsec := nsec mod 1000000000 in
  let '(offset, start, end_) := lookup l wall in
  let unix :=
    if offset =? 0 then wall
    else
      let utc := wall - offset in
      let offset := if (utc <? start) || (end_ <=? utc) then offsetAt l utc else offset in
      wall - offset in
  mkTime (unix * 1000000000 + nsec) l.

(** Seconds since 1970-01-01 00:00:00 on the wall clock of [t]'s location. *)
Definition wallSec (t : Time) : Z := unixSec t + offsetAt (loc t) (unixSec t).

(** [t.Date()] and [t.Clock()] *)
Definition dateOf (t : Time) : Z * Z * Z := civilFromDays (wallSec t / 86400).

Definition clockOf (t : Time) : Z * Z * Z :=
  let s := wallSec t mod 86400 in (s / 3600, s mod 3600 / 60, s mod 60).

Definition Year (t : Time) : Z := (dateOf t).1.1.
Definition Month (t : Time) : Z := (dateOf t).1.2.
Definition Day (t : Time) : Z := (dateOf t).2.

(** [t.AddDate(years, months, days)] *)
Definition AddDate (t : Time) (years months days : Z) : Time :=
  let '(year, month, day) := dateOf t in
  let '(hour, min, sec) := clockOf t in
  Date (year + years) (month + months) (day + days) hour min sec (nsecOf t) (loc t).

(** *** Layouts

    A layout is held as the chunks Go's [nextStdChunk] cuts it into:
    ["20060102"], ["20060102T150405"], ["20060102T150405Z"] and
    ["2006-01-02"] are the four the sources use.  The final [Z] of the third
    is followed by no [07], so it is literal text and names no zone. *)

Inductive chunk : Type :=
| stdLongYear
| stdZeroMonth
| stdZeroDay
| stdHour
| stdZeroMinute
| stdZeroSecond
| literal (text : string).

Definition layoutDate : list chunk := [stdLongYear; stdZeroMonth; stdZeroDay].

Definition layoutDateTime : list chunk :=
  [stdLongYear; stdZeroMonth; stdZeroDay; literal "T"; stdHour; stdZeroMinute; stdZeroSecond].

Definition layoutDateTimeZ : list chunk :=
  [stdLongYear; stdZeroMonth; stdZeroDay; literal "T"; stdHour; stdZeroMinute; stdZeroSecond;
   literal "Z"].

Definition layoutISODate : list chunk :=
  [stdLongYear; literal "-"; stdZeroMonth; literal "-"; stdZeroDay].

Record fields : Type := mkFields {
  fYear : Z; fMonth : Z; fDay : Z; fHour : Z; fMin : Z; fSec : Z; fNsec : Z
}.

Definition noFields : fields := mkFields 0 (-1) (-1) 0 0 0 0.

(** [getnum]: one or two digits, two when [fixed]. *)
Definition getnum (s : string) (fixed : bool) : option (Z * string) :=
  match s with
  | String c0 r0 =>
      if Strconv.isDigit c0 then
        match r0 with
        | String c1 r1 =>
            if Strconv.isDigit c1 then Some (Strconv.digitVal c0 * 10 + Strconv.digitVal c1, r1)
            else if fixed then None else Some (Strconv.digitVal c0, r0)
        | EmptyString => if fixed then None else Some (Strconv.digitVal c0, r0)
        end
      else None
  | EmptyString => None
  end.

(** [skip], for literal text without blanks. *)
Fixpoint skip (value prefix : string) {struct prefix} : option string :=
  match prefix with
  | EmptyString => Some value
  | String p ps =>
      match value with
      | String c cs => if GoStrings.byteEq c p then skip cs ps else None
      | EmptyString => None
      end
  end.

(** The longest run of digits a string starts with. *)
Fixpoint takeDigits (s : string) : string :=
  match s with
  | String c r => if Strconv.isDigit c then String c (takeDigits r) else EmptyString
  | EmptyString => EmptyString
  end.

(** [parseNanoseconds] on a run of digits: the first nine count. *)
Definition fracNanos (digits : string) : Z :=
  let d9 := GoStrings.sliceTo 9 digits in
  default 0 (Strconv.digitsFrom 0 d9) * 10 ^ (9 - GoStrings.len d9).

Definition commaOrPeriod (c : ascii) : bool :=
  GoStrings.byteEq c "." || GoStrings.byteEq c ",".

Definition parseChunk (c : chunk) (f : fields) (value : string) : result (fields * string) :=
  match c with
  | literal prefix =>
      match skip value prefix with
      | Some v => Ok (f, v)
      | None => Err "parsing time: literal text does not match"
      end
  | stdLongYear =>
      match Strconv.digitsFrom 0 (GoStrings.sliceTo 4 value) with
      | Some y =>
          if 4 <=? GoStrings.len value
          then Ok (mkFields y (fMonth f) (fDay f) (fHour f) (fMin f) (fSec f) (fNsec f),
                   GoStrings.sliceFrom 4 value)
          else Err "parsing time: year"
      | None => Err "parsing time: year"
      end
  | stdZeroMonth =>
      match getnum value true with
      | Some (m, v) =>
          if (m <=? 0) || (12 <? m) then Err "parsing time: month out of range"
          else Ok (mkFields (fYear f) m (fDay f) (fHour f) (fMin f) (fSec f) (fNsec f), v)
      | None => Err "parsing time: month"
      end
  | stdZeroDay =>
      match getnum value true with
      | Some (d, v) => Ok (mkFields (fYear f) (fMonth f) d (fHour f) (fMin f) (fSec f) (fNsec f), v)
      | None => Err "parsing time: day"
      end
  | stdHour =>
      match getnum value false with
      | Some (h, v) =>
          if (h <? 0) || (24 <=? h) then Err "parsing time: hour out of range"
          else Ok (mkFields (fYear f) (fMonth f) (fDay f) h (fMin f) (fSec f) (fNsec f), v)
      | None => Err "parsing time: hour"
      end
  | stdZeroMinute =>
      match getnum value true with
      | Some (m, v) =>
          if (m <? 0) || (60 <=? m) then Err "parsing time: minute out of range"
          else Ok (mkFields (fYear f) (fMonth f) (fDay f) (fHour f) m (fSec f) (fNsec f), v)
      | None => Err "parsing time: minute"
      end
  | stdZeroSecond =>
      match getnum value true with
      | Some (s, v) =>
          if (s <? 0) || (60 <=? s) then Err "parsing time: second out of range"
          else
            (* a fractional second in the input that the layout does not have *)
            match v with
            | String c0 (String c1 r) =>
                if commaOrPeriod c0 && Strconv.isDigit c1 then
                  let digits := takeDigits (String c1 r) in
                  Ok (mkFields (fYear f) (fMonth f) (fDay f) (fHour f) (fMin f) s (fracNanos digits),
                      GoStrings.sliceFrom (1 + String.length digits) v)
                else Ok (mkFields (fYear f) (fMonth f) (fDay f) (fHour f) (fMin f) s (fNsec f), v)
            | _ => Ok (mkFields (fYear f) (fMonth f) (fDay f) (fHour f) (fMin f) s (fNsec f), v)
            end
      | None => Err "parsing time: second"
      end
  end.

Fixpoint parseChunks (layout : list chunk) (f : fields) (value : string) : result fields :=
  match layout with
  | [] =>
      match value with
      | EmptyString => Ok f
      | _ => Err "parsing time: extra text"
      end
  | c :: rest =>
      fv <- parseChunk c f value ;;
      parseChunks rest fv.1 fv.2
  end.

(** [parse(layout, value, defaultLocation, local)] for a layout without zone
    information: the fields are read, the day of the month is validated and
    the reading is taken as wall clock time of [defaultLocation]. *)
Definition parse (layout : list chunk) (value : string) (defaultLocation : Location) : result Time :=
  f <- parseChunks layout noFields value ;;
  let month := if fMonth f <? 0 then 1 else fMonth f in
  let day := if fDay f <? 0 then 1 else fDay f in
  if (day <? 1) || (daysIn month (fYear f) <? day) then Err "parsing time: day out of range"
  else Ok (Date (fYear f) month day (fHour f) (fMin f) (fSec f) (fNsec f) defaultLocation).

(** [time.ParseInLocation(layout, value, loc)] *)
Definition ParseInLocation (layout : list chunk) (value : string) (l : Location) : result Time :=
  parse layout value l.

(** [time.Parse(layout, value)] *)
Definition Parse (layout : list chunk) (value : string) : result Time :=
  parse layout value UTC.

(** [appendInt]: a sign for a negative number, then its decimal digits padded
    with zeros to [width]. *)
Definition decimal (n : Z) : string := NilZero.string_of_uint (N.to_uint (Z.to_N n)).

Fixpoint zeros (n : nat) : string :=
  match n with
  | O => EmptyString
  | S k => String "0" (zeros k)
  end.

Definition appendInt (x : Z) (width : nat) : string :=
  let digits := decimal (Z.abs x) in
  (if x <? 0 then "-" else "") +:+ zeros (width - String.length digits) +:+ digits.

Definition formatChunk (t : Time) (c : chunk) : string :=
  match c with
  | stdLongYear => appendInt (Year t) 4
  | stdZeroMonth => appendInt (Month t) 2
  | stdZeroDay => appendInt (Day t) 2
  | stdHour => appendInt (clockOf t).1.1 2
  | stdZeroMinute => appendInt (clockOf t).1.2 2
  | stdZeroSecond => appendInt (clockOf t).2 2
  | literal text => text
  end.

(** [t.Format(layout)] *)
Definition Format (t : Time) (layout : list chunk) : string :=
  foldr (fun c acc => formatChunk t c +:+ acc) EmptyString layout.

End GoTime.

(** ** Package [go-ical]: decoded components *)

Module Ical.

(** [ical.Prop]: a property with its parameters and its raw value. *)
Record Property : Type := mkProperty {
  propName : string;
  propParams : gmap string (list string);
  propValue : string
}.

(** [ical.Component]; the sources read the children of a calendar only, so
    a component carries none of its own. *)
Record Component : Type := mkComponent {
  compName : string;
  compProps : gmap string (list Property)
}.

(** [ical.Calendar] *)
Record Calendar : Type := mkCalendar {
  calChildren : list Component
}.

(** [Params.Get(name)]: the first value, or the empty string. *)
Definition ParamsGet (params : gmap string (list string)) (name : string) : string :=
  match params !! name with
  | Some (v :: _) => v
  | _ => EmptyString
  end.

(** [Props.Get(name)]: the first property of that name, or nil. *)
Definition PropsGet (props : gmap string (list Property)) (name : string) : option Property :=
  match props !! name with
  | Some (p :: _) => Some p
  | _ => None
  end.

(** [caldav.CalendarObject]: [Data] is the decoded calendar, possibly nil. *)
Record CalendarObject : Type := mkCalendarObject {
  objData : option Calendar
}.

End Ical.

(** ** Package [internal/caldav] *)

Module Caldav.

Import GoTime Ical.

(** *** event.go *)

Record Event : Type := mkEvent {
  UID : string;
  Summary : string;
  Description : string;
  Location : string;
  Start : Time;
  End : Time;
  AllDay : bool;
  CalendarName : string;
  CalendarColor : string;
  IsRecurring : bool
}.

(** Go's [<] on strings: bytewise lexicographic order. *)
Fixpoint stringLess (a b : string) : bool :=
  match a, b with
  | _, EmptyString => false
  | EmptyString, String _ _ => true
  | String x a', String y b' =>
      if (N_of_ascii x <? N_of_ascii y)%N then true
      else if (N_of_ascii y <? N_of_ascii x)%N then false
      else stringLess a' b'
  end.

(** [Events.Less(i, j)], as a comparison of the events [e[i]] and [e[j]]. *)
Definition Less (ei ej : Event) : bool :=
  if negb (eqb (AllDay ei) (AllDay ej)) then AllDay ei
  else if negb (Equal (Start ei) (Start ej)) then Before (Start ei) (Start ej)
  else stringLess (Summary ei) (Summary ej).

(** [sort.Sort(Events(events))].  Package [sort] promises a permutation in
    which no element is [Less] than an earlier one, and no stability.  The
    executable model is its insertion sort (the one it runs on short slices):
    each element in turn moves left past the elements it is [Less] than.
    [sorted] is kept in reverse. *)
Fixpoint insertLeft (x : Event) (sorted : list Event) : list Event :=
  match sorted with
  | [] => [x]
  | y :: rest => if Less x y then y :: insertLeft x rest else x :: sorted
  end.

Definition sortEvents (events : list Event) : list Event :=
  reverse (fold_left (fun sorted x => insertLeft x sorted) events []).

(** *** client.go: text values *)

Definition backslash : ascii := "\".
Definition newline : ascii := "010".

(** [unescapeICalText]: the loop over the byte index [i], with the bytes
    written so far in [result]; [fuel] bounds the iterations, and
    [len(s)] of them always suffice. *)
Fixpoint unescapeLoop (fuel : nat) (s : string) (i : nat) (result : string) : string :=
  match fuel with
  | O => result
  | S fuel' =>
      match String.get i s with
      | None => result
      | Some c =>
          match String.get (i + 1) s with
          | Some next =>
              if GoStrings.byteEq c backslash then
                if GoStrings.byteEq next "," || GoStrings.byteEq next ";"
                   || GoStrings.byteEq next backslash
                then unescapeLoop fuel' s (i + 1 + 1) (result +:+ String next EmptyString)
                else if GoStrings.byteEq next "n" || GoStrings.byteEq next "N"
                then unescapeLoop fuel' s (i + 1 + 1) (result +:+ String newline EmptyString)
                else unescapeLoop fuel' s (i + 1) (result +:+ String backslash EmptyString)
              else unescapeLoop fuel' s (i + 1) (result +:+ String c EmptyString)
          | None => unescapeLoop fuel' s (i + 1) (result +:+ String c EmptyString)
          end
      end
  end.

Definition unescapeICalText (s : string) : string :=
  unescapeLoop (String.length s) s 0 EmptyString.

(** *** recurring.go: durations and exclusion dates *)

(** The date part of [parseDuration]: weeks when the part has a [W],
    otherwise days when it has a [D]. *)
Definition datePartDuration (datePart : string) (duration : Duration) : result Duration :=
  if GoStrings.Contains datePart "W" then
    (* Weeks *)
    match Strconv.Atoi (GoStrings.TrimSuffix datePart "W") with
    | None => Err ("invalid weeks in duration: " +:+ datePart)
    | Some weeks =>
        Ok (GoInt.add64 duration (GoInt.mul64 (GoInt.mul64 (GoInt.mul64 weeks 7) 24) Hour))
    end
  else if GoStrings.Contains datePart "D" then
    (* Days *)
    match Strconv.Atoi (GoStrings.TrimSuffix datePart "D") with
    | None => Err ("invalid days in duration: " +:+ datePart)
    | Some days => Ok (GoInt.add64 duration (GoInt.mul64 (GoInt.mul64 days 24) Hour))
    end
  else Ok duration.

(** One of the three blocks of the time part (hours, minutes, seconds):
    when [remaining] has the unit letter, the text before its first
    occurrence is the number, and the text after it remains. *)
Definition timeField (unit : ascii) (scale : Duration) (name : string)
    (duration : Duration) (remaining : string) : result (Duration * string) :=
  if GoStrings.Contains remaining unit then
    let idx := Z.to_nat (GoStrings.Index remaining unit) in
    match Strconv.Atoi (GoStrings.sliceTo idx remaining) with
    | None =>
        Err ("invalid " +:+ name +:+ " in duration: " +:+ GoStrings.sliceTo idx remaining)
    | Some n =>
        Ok (GoInt.add64 duration (GoInt.mul64 n scale), GoStrings.sliceFrom (idx + 1) remaining)
    end
  else Ok (duration, remaining).

(** The time part of [parseDuration]. *)
Definition timePartDuration (timePart : string) (duration : Duration) : result Duration :=
  if negb (String.eqb timePart EmptyString) then
    let remaining := timePart in
    dr <- timeField "H" Hour "hours" duration remaining ;;
    dr <- timeField "M" Minute "minutes" dr.1 dr.2 ;;
    dr <- timeField "S" Second "seconds" dr.1 dr.2 ;;
    Ok dr.1
  else Ok duration.

(** [parseDuration] *)
Definition parseDuration (value : string) : result Duration :=
  if negb (GoStrings.HasPrefix value "P") && negb (GoStrings.HasPrefix value "-P")
  then Err ("invalid duration format: " +:+ value)
  else
    let negative := GoStrings.HasPrefix value "-" in
    let value := if negative then GoStrings.sliceFrom 2 value else GoStrings.sliceFrom 1 value in
    let duration : Duration := 0 in
    (* Split by T for date and time parts *)
    let parts := GoStrings.Split value "T" in
    let datePart := nth 0 parts EmptyString in
    let timePart := if (1 <? length parts)%nat then nth 1 parts EmptyString else EmptyString in
    duration <- datePartDuration datePart duration ;;
    duration <- timePartDuration timePart duration ;;
    Ok (if negative then GoInt.neg64 duration else duration).

(** [parseICalDate]: the first of the three layouts that parses, every one
    of them read in [tz]. *)
Fixpoint firstParse (formats : list (list chunk)) (value : string) (tz : GoTime.Location)
  : option Time :=
  match formats with
  | [] => None
  | format :: rest =>
      match ParseInLocation format value tz with
      | Ok t => Some t
      | Err _ => firstParse rest value tz
      end
  end.

Definition parseICalDate (value : string) (tz : GoTime.Location) : result Time :=
  let formats := [layoutDateTimeZ; layoutDateTime; layoutDate] in
  match firstParse formats value tz with
  | Some t => Ok t
  | None => Err ("unable to parse date: " +:+ value)
  end.

(** *** client.go and recurring.go: events

    What the sources take from outside the repository is a parameter:
    - [LoadLocation] is [time.LoadLocation], the zone database;
    - [NewRRule] is [rrule.StrToROption] followed by [rrule.NewRRule]: the
      text of a rule is refused or gives the rule, held as the function that
      lists its occurrences between two instants, bounds included, in
      ascending order ([RRule.Between(after, before, true)]);
    - a [Client] carries [QueryCalendar], the answer of the remote store to
      the calendar query for a time range. *)

Definition RRule : Type := Time -> Time -> list Time.

Record Client : Type := mkClient {
  calendarName : string;
  calendarColor : string;
  timezone : GoTime.Location;
  QueryCalendar : Time -> Time -> result (list CalendarObject)
}.

(** Lines written to standard error. *)
Definition Log : Type := list string.

(** [rrule.Set] with one rule and exclusion dates: [Set.Between(after,
    before, true)] lists the rule's occurrences that are [Equal] to no
    exclusion date. *)
Definition setBetween (rule : RRule) (exdates : list Time) (after before : Time) : list Time :=
  filter (fun dt => forallb (fun ex => negb (Equal dt ex)) exdates = true) (rule after before).

Definition maxOccurrences : nat := 1000.

Section Sources.

Variable LoadLocation : string -> option GoTime.Location.
Variable NewRRule : string -> result RRule.

(** [Client.parseDateTime]: the instant and the all-day flag. *)
Definition parseDateTime (c : Client) (prop : Property) : result (Time * bool) :=
  (* Check if it's a DATE (all-day) or DATE-TIME *)
  let valueType := ParamsGet (propParams prop) "VALUE" in
  let isDate := String.eqb valueType "DATE" in
  if isDate then
    t <- ParseInLocation layoutDate (propValue prop) (timezone c) ;;
    Ok (t, true)
  else
    let tzid := ParamsGet (propParams prop) "TZID" in
    t <-
      (if negb (String.eqb tzid EmptyString) then
         let l := match LoadLocation tzid with
                  | Some l => l
                  | None => timezone c
                  end in
         match ParseInLocation layoutDateTime (propValue prop) l with
         | Ok t => Ok t
         | Err _ => ParseInLocation layoutDateTimeZ (propValue prop) UTC
         end
       else
         let value := propValue prop in
         match GoStrings.lastByte value with
         | Some last =>
             if GoStrings.byteEq last "Z" then Parse layoutDateTimeZ value
             else ParseInLocation layoutDateTime value (timezone c)
         | None => ParseInLocation layoutDateTime value (timezone c)
         end) ;;
    (* Convert to configured timezone *)
    Ok (In t (timezone c), false).

(** The loop over the entries of an EXDATE value: the dates that parse, and
    a line for each entry that does not. *)
Fixpoint parseExdates (exdates : list string) (tz : GoTime.Location) : list Time * Log :=
  match exdates with
  | [] => ([], [])
  | exdateStr :: rest =>
      let '(dates, log) := parseExdates rest tz in
      match parseICalDate exdateStr tz with
      | Err e => (dates, ("Failed to parse EXDATE: " +:+ e) :: log)
      | Ok exdate => (exdate :: dates, log)
      end
  end.

(** The exclusion dates of a component: the entries of its EXDATE value
    that parse, and a line for each entry that does not. *)
Definition exdatesOf (c : Client) (comp : Component) : list Time * Log :=
  match PropsGet (compProps comp) "EXDATE" with
  | Some exdateProp => parseExdates (GoStrings.Split (propValue exdateProp) ",") (timezone c)
  | None => ([], [])
  end.

(** The candidate starts: the occurrences of the set in the query range
    widened by 30 days on both sides, cut to the first [maxOccurrences]. *)
Definition candidates (rule : RRule) (exdates : list Time) (queryStart queryEnd : Time)
    : list Time :=
  let bufferStart := Add queryStart (-30 * 24 * Hour) in
  let bufferEnd := Add queryEnd (30 * 24 * Hour) in
  let occurrences := setBetween rule exdates bufferStart bufferEnd in
  if (maxOccurrences <? length occurrences)%nat then take maxOccurrences occurrences
  else occurrences.

(** The text handed to the rule library: the anchor, a bare date for an
    all-day series and a UTC date-time otherwise, and the rule. *)
Definition rruleText (startTime : Time) (allDay : bool) (rule : string) : string :=
  let dtstart :=
    if allDay then Format startTime layoutDate
    else Format (toUTC startTime) layoutDateTimeZ in
  "DTSTART:" +:+ dtstart +:+ String newline "RRULE:" +:+ rule.

(** [Client.expandRecurringEvent] *)
Definition expandRecurringEvent (c : Client) (comp : Component)
    (uid summary description location : string) (startTime endTime : Time) (allDay : bool)
    (queryStart queryEnd : Time) : result (list Event) * Log :=
  match PropsGet (compProps comp) "RRULE" with
  | None => (Err "no RRULE found for recurring event", [])
  | Some rruleProp =>
      let rruleStr := rruleText startTime allDay (propValue rruleProp) in
      match NewRRule rruleStr with
      | Err e => (Err ("failed to parse RRULE: " +:+ e), [])
      | Ok rule =>
          let '(exdates, log) := exdatesOf c comp in
          let occurrences := candidates rule exdates queryStart queryEnd in
          (* Calculate event duration *)
          let duration := Sub endTime startTime in
          let events :=
            omap (fun occurrence =>
                    (* Convert to configured timezone *)
                    let occStart := In occurrence (timezone c) in
                    let occEnd := Add occStart duration in
                    (* Filter to only include events that overlap with query range *)
                    if Before occEnd queryStart || After occStart queryEnd then None
                    else Some (mkEvent (uid +:+ "_" +:+ Format occStart layoutDateTime)
                                 summary description location occStart occEnd allDay
                                 (calendarName c) (calendarColor c) true))
                 occurrences in
          (Ok events, log)
      end
  end.

(** The text of an optional text property, unescaped. *)
Definition textOf (comp : Component) (name : string) : string :=
  match PropsGet (compProps comp) name with
  | Some prop => unescapeICalText (propValue prop)
  | None => EmptyString
  end.

(** [Client.parseEvent] *)
Definition parseEvent (c : Client) (comp : Component) (queryStart queryEnd : Time)
    : result (list Event) * Log :=
  match PropsGet (compProps comp) "UID" with
  | None => (Err "event missing UID", [])
  | Some uid =>
      let summary := textOf comp "SUMMARY" in
      let description := textOf comp "DESCRIPTION" in
      let location := textOf comp "LOCATION" in
      match PropsGet (compProps comp) "DTSTART" with
      | None => (Err "event missing DTSTART", [])
      | Some dtstart =>
          match parseDateTime c dtstart with
          | Err e => (Err ("failed to parse DTSTART: " +:+ e), [])
          | Ok (startTime, allDay) =>
              let endTime : result Time :=
                match PropsGet (compProps comp) "DTEND", PropsGet (compProps comp) "DURATION" with
                | Some dtend, _ =>
                    match parseDateTime c dtend with
                    | Ok (t, _) => Ok t
                    | Err e => Err ("failed to parse DTEND: " +:+ e)
                    end
                | None, Some duration =>
                    match parseDuration (propValue duration) with
                    | Ok dur => Ok (Add startTime dur)
                    | Err e => Err ("failed to parse DURATION: " +:+ e)
                    end
                | None, None =>
                    (* Default: all-day events are 1 day, timed events are 0 duration *)
                    if allDay then Ok (Add startTime (24 * Hour)) else Ok startTime
                end in
              match endTime with
              | Err e => (Err e, [])
              | Ok endTime =>
                  match PropsGet (compProps comp) "RRULE" with
                  | Some _ =>
                      expandRecurringEvent c comp (propValue uid) summary description location
                        startTime endTime allDay queryStart queryEnd
                  | None =>
                      (Ok [mkEvent (propValue uid) summary description location startTime endTime
                             allDay (calendarName c) (calendarColor c) false], [])
                  end
              end
          end
      end
  end.

(** The loop of [Client.parseCalendarObject] over the children of a calendar. *)
Fixpoint parseChildren (c : Client) (children : list Component) (queryStart queryEnd : Time)
    : list Event * Log :=
  match children with
  | [] => ([], [])
  | comp :: rest =>
      if negb (String.eqb (compName comp) "VEVENT") then parseChildren c rest queryStart queryEnd
      else
        let '(parsed, log1) := parseEvent c comp queryStart queryEnd in
        let '(events, log2) := parseChildren c rest queryStart queryEnd in
        match parsed with
        | Err e =>
            (events,
             log1 ++ ("Error parsing event in " +:+ calendarName c +:+ ": " +:+ e) :: log2)
        | Ok event => (event ++ events, log1 ++ log2)
        end
  end.

(** [Client.parseCalendarObject] *)
Definition parseCalendarObject (c : Client) (obj : CalendarObject) (queryStart queryEnd : Time)
    : result (list Event) * Log :=
  match objData obj with
  | None => (Err "calendar object has no data", [])
  | Some cal =>
      let '(events, log) := parseChildren c (calChildren cal) queryStart queryEnd in
      (Ok events, log)
  end.

(** The loop of [Client.FetchEvents] over the calendar objects. *)
Fixpoint parseObjects (c : Client) (objects : list CalendarObject) (start end_ : Time)
    : list Event * Log :=
  match objects with
  | [] => ([], [])
  | obj :: rest =>
      let '(parsed, log1) := parseCalendarObject c obj start end_ in
      let '(events, log2) := parseObjects c rest start end_ in
      match parsed with
      | Err e =>
          (events,
           log1 ++ ("Error parsing calendar object in " +:+ calendarName c +:+ ": " +:+ e) :: log2)
      | Ok parsedEvents => (parsedEvents ++ events, log1 ++ log2)
      end
  end.

(** [Client.FetchEvents] *)
Definition FetchEvents (c : Client) (start end_ : Time) : result (list Event) * Log :=
  match QueryCalendar c start end_ with
  | Err e => (Err ("failed to query calendar " +:+ calendarName c +:+ ": " +:+ e), [])
  | Ok objects =>
      let '(events, log) := parseObjects c objects start end_ in
      (Ok (sortEvents events), log)
  end.

End Sources.

End Caldav.

(** ** Package [internal/api]: handler.go *)

Module Api.

Import GoTime Ical Caldav.

(** [Handler]: the clients, one per configured calendar, and the display
    timezone. *)
Record Handler : Type := mkHandler {
  clients : list Client;
  hTimezone : GoTime.Location
}.

(** [config.Calendar], with what lies behind it: [GetPassword] gives the
    password or fails, and the store at the URL answers the queries. *)
Record CalendarConfig : Type := mkCalendarConfig {
  Name : string;
  Color : string;
  GetPassword : result string;
  store : Time -> Time -> result (list CalendarObject)
}.

(** [caldav.NewClient(cal, tz)] *)
Definition NewClient (cal : CalendarConfig) (tz : GoTime.Location) : result Client :=
  match GetPassword cal with
  | Err e => Err ("failed to get password for calendar " +:+ Name cal +:+ ": " +:+ e)
  | Ok _ => Ok (mkClient (Name cal) (Color cal) tz (store cal))
  end.

(** The loop of [NewHandler] over the configured calendars. *)
Fixpoint newClients (calendars : list CalendarConfig) (tz : GoTime.Location)
    : result (list Client) :=
  match calendars with
  | [] => Ok []
  | cal :: rest =>
      match NewClient cal tz with
      | Err e => Err ("failed to create client for calendar " +:+ Name cal +:+ ": " +:+ e)
      | Ok client =>
          clients <- newClients rest tz ;;
          Ok (client :: clients)
      end
  end.

(** [NewHandler(cfg)], for the location [tz] that [cfg.GetLocation()] gives. *)
Definition NewHandler (tz : GoTime.Location) (calendars : list CalendarConfig)
    : result Handler :=
  clients <- newClients calendars tz ;;
  Ok (mkHandler clients tz).

(** What a handler writes: [writeError(w, status, message)], or
    [writeJSON(w, 200, ...)] with the events or with the days.  The days are
    the keys of a Go map, listed in no particular order: the set is kept. *)
Inductive Response : Type :=
| JSONError (status : Z) (message : string)
| JSONEvents (events : list Event)
| JSONDays (days : gset Z).

(** A run of a handler: the response, the calls of [FetchEvents] it made
    (calendar, start, end) and the lines it wrote to standard error. *)
Record Outcome : Type := mkOutcome {
  response : Response;
  fetches : list (string * Time * Time);
  stderr : Log
}.

(** [fmt.Sprintf("%v", errs)] *)
Definition showErrors (errs : list string) : string :=
  "[" +:+ foldr (fun e acc => match acc with
                              | EmptyString => e
                              | _ => e +:+ " " +:+ acc
                              end) EmptyString errs +:+ "]".

Section Sources.

Variable LoadLocation : string -> option GoTime.Location.
Variable NewRRule : string -> result RRule.

(** The goroutines of [GetEvents], one per client.  Each fetches and then,
    holding the mutex, appends its events to [allEvents] or its error to
    [errs]; [done] lists the clients in the order in which they take the
    mutex, which is any order.  The lines the fetches write are kept in that
    order too. *)
Fixpoint collect (done : list Client) (start end_ : Time) (allEvents : list Event)
    (errs : list string) (log : Log) : list Event * list string * Log :=
  match done with
  | [] => (allEvents, errs, log)
  | c :: rest =>
      let '(fetched, lines) := FetchEvents LoadLocation NewRRule c start end_ in
      match fetched with
      | Err e =>
          collect rest start end_ allEvents
            (errs ++ ["calendar " +:+ calendarName c +:+ ": " +:+ e]) (log ++ lines)
      | Ok events => collect rest start end_ (allEvents ++ events) errs (log ++ lines)
      end
  end.

(** What the fetches of the clients return, in the order they finish. *)
Definition fetchAll (done : list Client) (start end_ : Time)
    : list (result (list Event) * Log) :=
  (fun c => FetchEvents LoadLocation NewRRule c start end_) <$> done.

(** The goroutines of [GetEventsMonth]: a failed fetch is logged and
    contributes nothing. *)
Fixpoint collectMonth (done : list Client) (start end_ : Time) (allEvents : list Event)
    (log : Log) : list Event * Log :=
  match done with
  | [] => (allEvents, log)
  | c :: rest =>
      let '(fetched, lines) := FetchEvents LoadLocation NewRRule c start end_ in
      match fetched with
      | Err e =>
          collectMonth rest start end_ allEvents
            (log ++ lines ++ ["Error fetching events for month view: " +:+ e])
      | Ok events => collectMonth rest start end_ (allEvents ++ events) (log ++ lines)
      end
  end.

(** The order [done] is one the goroutines of handler [h] can finish in. *)
Definition schedule (h : Handler) (done : list Client) : Prop := Permutation (clients h) done.

(** [Handler.GetEvents], for the query parameters [start] and [end] (empty
    when absent). *)
Definition GetEvents (h : Handler) (startStr endStr : string) (done : list Client) : Outcome :=
  if String.eqb startStr EmptyString || String.eqb endStr EmptyString then
    mkOutcome
      (JSONError 400 "start and end query parameters are required (format: YYYY-MM-DD)") [] []
  else
    match ParseInLocation layoutISODate startStr (hTimezone h) with
    | Err e => mkOutcome (JSONError 400 ("invalid start date format: " +:+ e)) [] []
    | Ok start =>
        match ParseInLocation layoutISODate endStr (hTimezone h) with
        | Err e => mkOutcome (JSONError 400 ("invalid end date format: " +:+ e)) [] []
        | Ok end_ =>
            (* Add one day to end to make it inclusive *)
            let end_ := Add end_ (24 * Hour) in
            let '(allEvents, errs, log) := collect done start end_ [] [] [] in
            let calls := map (fun c => (calendarName c, start, end_)) done in
            (* If all calendars failed, return error *)
            if (0 <? length errs)%nat && (length allEvents =? 0)%nat then
              mkOutcome (JSONError 500 ("failed to fetch events: " +:+ showErrors errs)) calls log
            else
              (* If some calendars failed, log but continue *)
              let log := log ++ map (fun e => "Error fetching events: " +:+ e) errs in
              mkOutcome (JSONEvents (sortEvents allEvents)) calls log
        end
    end.

(** The loop of [GetEventsMonth] over the days a timed event spans: [d]
    advances by 24 hours while it is before [eventEnd] and in the month. *)
Fixpoint spanDays (fuel : nat) (d eventEnd : Time) (month : Z) (daysSet : gset Z) : gset Z :=
  match fuel with
  | O => daysSet
  | S fuel' =>
      if Before d eventEnd && (Month d =? month)
      then spanDays fuel' (Add d (24 * Hour)) eventEnd month ({[Day d]} ∪ daysSet)
      else daysSet
  end.

(** Iterations after which [d] is no longer before [eventEnd]. *)
Definition spanFuel (d eventEnd : Time) : nat :=
  Z.to_nat ((unixNano eventEnd - unixNano d) / (24 * Hour) + 1).

(** The body of the loop of [GetEventsMonth] over the events. *)
Definition markDays (tz : GoTime.Location) (month : Z) (daysSet : gset Z) (event : Event)
    : gset Z :=
  (* Get the day of month for the event start *)
  let day := Day (In (Start event) tz) in
  let daysSet := {[day]} ∪ daysSet in
  (* If event spans multiple days, mark all days *)
  if negb (AllDay event) then
    let eventEnd := In (End event) tz in
    let d := In (Start event) tz in
    spanDays (spanFuel d eventEnd) d eventEnd month daysSet
  else daysSet.

(** [Handler.GetEventsMonth], for the query parameters [year] and [month]. *)
Definition GetEventsMonth (h : Handler) (yearStr monthStr : string) (done : list Client)
    : Outcome :=
  if String.eqb yearStr EmptyString || String.eqb monthStr EmptyString then
    mkOutcome (JSONError 400 "year and month query parameters are required") [] []
  else
    match Strconv.Atoi yearStr with
    | None => mkOutcome (JSONError 400 "invalid year format") [] []
    | Some year =>
        match Strconv.Atoi monthStr with
        | None => mkOutcome (JSONError 400 "invalid month format") [] []
        | Some month =>
            if (month <? 1) || (12 <? month) then
              mkOutcome (JSONError 400 "month must be between 1 and 12") [] []
            else
              (* Calculate start and end of month *)
              let start := Date year month 1 0 0 0 0 (hTimezone h) in
              let end_ := AddDate start 0 1 0 in
              let '(allEvents, log) := collectMonth done start end_ [] [] in
              let calls := map (fun c => (calendarName c, start, end_)) done in
              (* Extract unique days *)
              let daysSet := fold_left (markDays (hTimezone h) month) allEvents ∅ in
              mkOutcome (JSONDays daysSet) calls log
        end
    end.

End Sources.

End Api.

(** ** The specification's own words, for comparison with the code *)

Module Spec.

Import GoTime Caldav.

(** TextEscapeDecoder, as a scan from the left: a backslash before [,], [;]
    or a backslash gives that character and both are consumed; before [n] or
    [N] it gives a newline and both are consumed; before anything else, or
    at the end, it gives a backslash and what follows is scanned next. *)
Fixpoint decodeText (s : string) : string :=
  match s with
  | EmptyString => EmptyString
  | String c rest =>
      if GoStrings.byteEq c backslash then
        match rest with
        | String next rest' =>
            if GoStrings.byteEq next "," || GoStrings.byteEq next ";"
               || GoStrings.byteEq next backslash
            then String next (decodeText rest')
            else if GoStrings.byteEq next "n" || GoStrings.byteEq next "N"
            then String newline (decodeText rest')
            else String backslash (decodeText rest)
        | EmptyString => String backslash EmptyString
        end
      else String c (decodeText rest)
  end.

(** The duration grammar [P[n]W] or [P[n]D[T[n]H[n]M[n]S]] with an optional
    leading minus sign: [n] is a run of one or more decimal digits, and a
    bracketed part may be absent. *)
Fixpoint allDigits (s : string) : bool :=
  match s with
  | EmptyString => true
  | String c r => Strconv.isDigit c && allDigits r
  end.

Definition isNumber (n : string) : bool := negb (String.eqb n EmptyString) && allDigits n.

Definition numberValue (n : string) : Z := default 0 (Strconv.digitsFrom 0 n).

(** An optional field: its number and its unit letter. *)
Definition optField (n : option string) (unit : ascii) : string :=
  match n with
  | Some d => d +:+ String unit EmptyString
  | None => EmptyString
  end.

Definition optValue (n : option string) : Z :=
  match n with
  | Some d => numberValue d
  | None => 0
  end.

(** The field, when present, is a number that fits an [int]. *)
Definition optNumber (n : option string) : bool :=
  match n with
  | Some d => isNumber d && GoInt.inInt64 (numberValue d)
  | None => true
  end.

Definition signText (negative : bool) : string := if negative then "-" else EmptyString.

Definition signed (negative : bool) (z : Z) : Z := if negative then - z else z.

(** [[-]P n W] *)
Definition weeksText (negative : bool) (n : string) : string :=
  signText negative +:+ "P" +:+ n +:+ "W".

(** [[-]P [n D] [T [n H] [n M] [n S]]] *)
Definition dayTimeText (negative : bool) (d : option string)
    (t : option (option string * option string * option string)) : string :=
  signText negative +:+ "P" +:+ optField d "D" +:+
  match t with
  | Some (h, m, s) => "T" +:+ optField h "H" +:+ optField m "M" +:+ optField s "S"
  | None => EmptyString
  end.

(** The time part, when present: whether its fields are numbers, and the
    nanoseconds they stand for. *)
Definition timeNumbers (t : option (option string * option string * option string)) : bool :=
  match t with
  | Some (h, m, s) => optNumber h && optNumber m && optNumber s
  | None => true
  end.

Definition timeValue (t : option (option string * option string * option string)) : Z :=
  match t with
  | Some (h, m, s) => optValue h * Hour + optValue m * Minute + optValue s * Second
  | None => 0
  end.

(** What may follow the date part: nothing, or [T] and any text. *)
Definition timeTail (t : option string) : string :=
  match t with
  | Some r => String "T" r
  | None => EmptyString
  end.

(** A recogniser of the grammar: [eatField] removes a leading number
    followed by the unit letter, when the text starts with one. *)
Definition eatField (unit : ascii) (s : string) : string :=
  let digits := takeDigits s in
  match digits, GoStrings.sliceFrom (String.length digits) s with
  | String _ _, String c r => if GoStrings.byteEq c unit then r else s
  | _, _ => s
  end.

Definition durationGrammar (s : string) : bool :=
  let s := match s with
           | String "-" r => r
           | _ => s
           end in
  match s with
  | String "P" body =>
      let afterW := eatField "W" body in
      if negb (String.eqb afterW body) then String.eqb afterW EmptyString
      else
        match eatField "D" body with
        | EmptyString => true
        | String "T" t => String.eqb (eatField "S" (eatField "M" (eatField "H" t))) EmptyString
        | _ => false
        end
  | _ => false
  end.

(** An occurrence is in the display timezone [tz]: both its instants are
    presented there. *)
Definition inZone (tz : GoTime.Location) (e : Event) : Prop :=
  loc (Start e) = tz /\ loc (End e) = tz.

(** The interval from [s] to [e] (bounds included) meets the query window
    [[queryStart, queryEnd)]: some instant lies in both. *)
Definition intersects (s e queryStart queryEnd : Z) : Prop :=
  exists x, s <= x <= e /\ queryStart <= x < queryEnd.

(** The occurrence that starts at [occ] and lasts [duration] ends no earlier
    than [queryStart] and starts no later than [queryEnd]. *)
Definition touches (queryStart queryEnd : Time) (duration : Z) (occ : Time) : bool :=
  (unixNano queryStart <=? unixNano occ + duration) && (unixNano occ <=? unixNano queryEnd).

(** The events of a result, none for an error. *)
Definition eventsOf (r : result (list Event)) : list Event :=
  match r with
  | Ok events => events
  | Err _ => []
  end.

(** MultiSourceAggregator: a source has failed when its fetch returns an
    error; the merged list holds the occurrences of the others. *)
Definition failed (r : result (list Event) * Log) : bool := negb (isOk r.1).

Definition merged (fetched : list (result (list Event) * Log)) : list Event :=
  concat ((fun r => eventsOf r.1) <$> fetched).

(** The bounds the computation of a date relies on, for a day [doe] of a
    400-year era: the year of the era is below 400 and the month, counted
    from March, below 12. *)
Definition civilBounds (doe : Z) : bool :=
  let yoe := (doe - doe / 1460 + doe / 36524 - doe / 146096) / 365 in
  let doy := doe - (365 * yoe + yoe / 4 - yoe / 100) in
  let mp := (5 * doy + 2) / 153 in
  (0 <=? yoe) && (yoe <=? 399) && (0 <=? mp) && (mp <=? 11).

(** TextEscapeDecoder's inverse: the text that stands for [s], built from
    the recognised escape pairs. *)
Fixpoint encodeText (s : string) : string :=
  match s with
  | EmptyString => EmptyString
  | String c rest =>
      if GoStrings.byteEq c "," || GoStrings.byteEq c ";" || GoStrings.byteEq c backslash
      then String backslash (String c (encodeText rest))
      else if GoStrings.byteEq c newline
      then String backslash (String "n" (encodeText rest))
      else String c (encodeText rest)
  end.

(** OrderingPolicy: the three things the order looks at, in their order of
    priority: all-day (0) before timed (1), the start instant, the summary. *)
Definition rank (e : Event) : Z := if AllDay e then 0 else 1.

Definition sortKey (e : Event) : Z * Z * string := (rank e, unixNano (Start e), Summary e).

(** [a] comes before [b] in the policy's order. *)
Definition before (a b : Event) : Prop :=
  rank a < rank b
  \/ (rank a = rank b
      /\ (unixNano (Start a) < unixNano (Start b)
          \/ (unixNano (Start a) = unixNano (Start b)
              /\ stringLess (Summary a) (Summary b) = true))).

(** Neither event comes before the other. *)
Definition incomparable (a b : Event) : Prop := Less a b = false /\ Less b a = false.

(** [a] may stand before [b] in a sorted list: [b] is not [Less] than [a]. *)
Definition notAfter (a b : Event) : Prop := Less b a = false.

(** The order of the keys: [k1] is at most [k2]. *)
Definition keyLe (k1 k2 : Z * Z * string) : Prop :=
  k1.1.1 < k2.1.1
  \/ (k1.1.1 = k2.1.1
      /\ (k1.1.2 < k2.1.2
          \/ (k1.1.2 = k2.1.2 /\ stringLess k2.2 k1.2 = false))).

(** What [sort.Sort] promises of its result [sorted] for the input [events]. *)
Definition sortResult (events sorted : list Event) : Prop :=
  events ≡ₚ sorted /\ Sorted notAfter sorted.

End Spec.

(** ** Sample data: a zone, sources and events *)

Module Examples.

Import GoTime Ical Caldav Api.

(** Europe/Rome around 2026: CET (+1h), to CEST (+2h) on 2026-03-29 at
    01:00 UTC and back to CET on 2026-10-25 at 01:00 UTC. *)
Definition Rome : GoTime.Location :=
  mkLocation "Europe/Rome" 3600 [(1774746000, 7200); (1792890000, 3600)].

(** 2026-01-05 09:00 in Rome, and one and two hours later. *)
Definition nineOClock : Time := mkTime 1767600000000000000 Rome.
Definition tenOClock : Time := Add nineOClock Hour.
Definition elevenOClock : Time := Add tenOClock Hour.

Definition timed (uid summary : string) (start end_ : Time) : Event :=
  mkEvent uid summary EmptyString EmptyString start end_ false "A" "#AABBCC" false.

Definition allDay (uid summary : string) (start : Time) : Event :=
  mkEvent uid summary EmptyString EmptyString start (Add start (24 * Hour)) true "A" "#AABBCC"
    false.

Definition twelveOClock : Time := Add elevenOClock Hour.

(** No zone is known by name. *)
Definition noZones (name : string) : option GoTime.Location := None.

(** A rule library that knows one rule: every hour from 09:00 to 12:00 on
    2026-01-05, the occurrences given in UTC. *)
Definition hourly : RRule := fun after before =>
  filter (fun t => (unixNano after <=? unixNano t) && (unixNano t <=? unixNano before) = true)
    [toUTC nineOClock; toUTC tenOClock; toUTC elevenOClock; toUTC twelveOClock].

Definition hourlyRules (text : string) : result RRule := Ok hourly.

Definition property (name value : string) : Property := mkProperty name ∅ value.

Definition dateProperty (name value : string) : Property :=
  mkProperty name {[ "VALUE" := ["DATE"] ]} value.

(** A one-hour series that starts at 09:00 on 2026-01-05 (08:00 UTC). *)
Definition hourlySeries : Component :=
  mkComponent "VEVENT"
    (<["UID" := [property "UID" "series"]]>
       (<["SUMMARY" := [property "SUMMARY" "Stand\, up"]]>
          (<["DTSTART" := [property "DTSTART" "20260105T080000Z"]]>
             (<["DURATION" := [property "DURATION" "PT1H"]]>
                (<["RRULE" := [property "RRULE" "FREQ=HOURLY;COUNT=4"]]> ∅))))).

(** An answering source with the series, in Rome. *)
Definition sourceA : Client :=
  mkClient "A" "#AABBCC" Rome
    (fun _ _ => Ok [mkCalendarObject (Some (mkCalendar [hourlySeries]))]).

(** A source that cannot be reached, and one that answers with no event. *)
Definition sourceDown : Client :=
  mkClient "B" "#BBCCDD" Rome (fun _ _ => Err "timeout").

Definition sourceEmpty : Client :=
  mkClient "C" "#CCDDEE" Rome (fun _ _ => Ok []).

Definition twoSources : Handler := mkHandler [sourceDown; sourceEmpty] Rome.

(** An all-day event on 2026-10-25, the day Rome leaves summer time, with
    neither an end nor a duration. *)
Definition switchDay : Component :=
  mkComponent "VEVENT"
    (<["UID" := [property "UID" "day"]]>
       (<["DTSTART" := [dateProperty "DTSTART" "20261025"]]> ∅)).

(** The hourly series with its second occurrence excluded: 09:00 UTC, which
    is 10:00 in Rome. *)
Definition excludedSeries : Component :=
  mkComponent "VEVENT"
    (<["EXDATE" := [property "EXDATE" "20260105T090000Z"]]> (compProps hourlySeries)).

(** A timed event from 23:00 on 2026-01-31 to 01:00 on 2026-02-01. *)
Definition overnight : Component :=
  mkComponent "VEVENT"
    (<["UID" := [property "UID" "night"]]>
       (<["DTSTART" := [property "DTSTART" "20260131T230000"]]>
          (<["DTEND" := [property "DTEND" "20260201T010000"]]> ∅))).

Definition sourceNight : Client :=
  mkClient "N" "#112233" Rome
    (fun _ _ => Ok [mkCalendarObject (Some (mkCalendar [overnight]))]).

Definition nightHandler : Handler := mkHandler [sourceNight] Rome.

Definition oneSource : Handler := mkHandler [sourceA] Rome.

(** The series expanded for the window from 09:00 to 11:00. *)
Definition expandedSeries : result (list Event) * Log :=
  expandRecurringEvent hourlyRules sourceA hourlySeries "series" "Stand, up" EmptyString
    EmptyString nineOClock tenOClock false nineOClock elevenOClock.

Definition standup : Event := timed "u1" "Standup" nineOClock tenOClock.
Definition review : Event := timed "u2" "Review" tenOClock elevenOClock.
Definition lunch : Event := timed "u3" "Lunch" elevenOClock elevenOClock.
Definition holiday : Event := allDay "u4" "Holiday" elevenOClock.

End Examples.

(** ** Package [internal/config]: config.go *)

Module Config.

(** [Calendar]: one configured CalDAV calendar. *)
Record Calendar : Type := mkCalendar {
  Name : string;
  URL : string;
  UserID : string;
  PasswordFile : string;
  Color : string
}.

(** [Config]: [AutoRefresh] is a Go [int]. *)
Record Config : Type := mkConfig {
  TimeZone : string;
  AutoRefresh : Z;
  Calendars : list Calendar
}.

(** An [error] value: [None] is [nil], [Some] carries the message. *)
Definition error : Type := option string.

(** [Calendar.Validate] *)
Definition CalendarValidate (c : Calendar) : error :=
  if String.eqb (Name c) EmptyString then Some "name is required"
  else if String.eqb (URL c) EmptyString then Some "url is required"
  else if String.eqb (UserID c) EmptyString then Some "user_id is required"
  else if String.eqb (PasswordFile c) EmptyString then Some "password_file is required"
  else if String.eqb (Color c) EmptyString then Some "color is required"
  (* Basic color validation (should start with #) *)
  else if negb (GoStrings.HasPrefix (Color c) "#") || negb (GoStrings.len (Color c) =? 7)
  then Some "color must be in hex format (#RRGGBB)"
  else None.

(** The loop of [Config.Validate] over the calendars, from index [i] on:
    the error of the first calendar that has one, with its index (as [%d]
    prints it) and name. *)
Fixpoint validateCalendars (i : Z) (calendars : list Calendar) : error :=
  match calendars with
  | [] => None
  | cal :: rest =>
      match CalendarValidate cal with
      | Some err =>
          Some ("calendar " +:+ GoTime.appendInt i 0 +:+ " (" +:+ Name cal +:+ "): " +:+ err)
      | None => validateCalendars (i + 1) rest
      end
  end.

(** A JSON-like value, as [Sanitize] builds it from [map[string]interface{}]. *)
Inductive Value : Type :=
| VString (s : string)
| VInt (n : Z)
| VList (l : list Value)
| VMap (m : gmap string Value).

(** [Config.Sanitize] *)
Definition Sanitize (c : Config) : gmap string Value :=
  let cals :=
    (fun cal => VMap (<["name" := VString (Name cal)]>
                        (<["color" := VString (Color cal)]> ∅))) <$> Calendars c in
  <["timezone" := VString (TimeZone c)]>
    (<["autoRefresh" := VInt (AutoRefresh c)]>
       (<["calendars" := VList cals]> ∅)).

Section Zones.

(** [time.LoadLocation]: the location of a name, or the text of the error. *)
Variable LoadLocation : string -> result GoTime.Location.

(** [Config.Validate] *)
Definition Validate (c : Config) : error :=
  (* Validate timezone *)
  if String.eqb (TimeZone c) EmptyString then Some "time_zone is required"
  else
    match LoadLocation (TimeZone c) with
    | Err err => Some ("invalid time_zone: " +:+ err)
    | Ok _ =>
        (* Validate auto_refresh *)
        if AutoRefresh c <=? 0 then Some "auto_refresh must be positive"
        (* Validate calendars *)
        else if (length (Calendars c) =? 0)%nat then Some "at least one calendar is required"
        else validateCalendars 0 (Calendars c)
    end.

(** [Config.GetLocation] *)
Definition GetLocation (c : Config) : result GoTime.Location :=
  LoadLocation (TimeZone c).

End Zones.

End Config.

Module ConfigViews.

Import Config.

(** A calendar entry that [Calendar.Validate] has nothing to say against:
    every field is filled in, and the colour is [#] and six more bytes. *)
Definition validCalendar (c : Calendar) : Prop :=
  Name c <> EmptyString /\ URL c <> EmptyString /\ UserID c <> EmptyString
  /\ PasswordFile c <> EmptyString
  /\ exists rest, Color c = String "#" rest /\ String.length rest = 6%nat.

(** What of a configuration is meant for the frontend. *)
Definition public (c : Config) : string * Z * list (string * string) :=
  (TimeZone c, AutoRefresh c, (fun cal => (Name cal, Color cal)) <$> Calendars c).

End ConfigViews.

(** ** Package [strings]: [TrimSpace], and [Calendar.GetPassword] *)

Module Passwords.

Import Config.

(** Every byte of [s] satisfies [p]. *)
Fixpoint allBytes (p : ascii -> bool) (s : string) : bool :=
  match s with
  | EmptyString => true
  | String c r => p c && allBytes p r
  end.

(** The table [asciiSpace] of package [strings]. *)
Definition asciiSpace (c : ascii) : bool :=
  let n := N_of_ascii c in
  ((n =? 9) || (n =? 10) || (n =? 11) || (n =? 12) || (n =? 13) || (n =? 32))%N.

(** [c >= utf8.RuneSelf] *)
Definition runeSelf (c : ascii) : bool := (128 <=? N_of_ascii c)%N.

Section Files.

(** [TrimFunc(s, unicode.IsSpace)] and [TrimRightFunc(s, unicode.IsSpace)],
    which [TrimSpace] hands a text to when it meets a byte that is not
    ASCII, and [os.ReadFile]. *)
Variable TrimFuncIsSpace : string -> string.
Variable TrimRightFuncIsSpace : string -> string.
Variable ReadFile : string -> result string.

(** The first loop of [TrimSpace]: [s[start:]] when it ends at the first
    ASCII byte that is no space ([inr]), and when it meets a byte that is
    not ASCII ([inl]). *)
Fixpoint trimStart (s : string) : string + string :=
  match s with
  | EmptyString => inr EmptyString
  | String c r =>
      if runeSelf c then inl s
      else if asciiSpace c then trimStart r
      else inr s
  end.

(** The second loop of [TrimSpace] on [t = s[start:]], with [stop] counted
    from [start]; [stop] never exceeds the length of [t], so the byte before
    it is there. *)
Fixpoint trimStop (t : string) (stop : nat) : string :=
  match stop with
  | O => GoStrings.sliceTo 0 t
  | S k =>
      match String.get k t with
      | Some c =>
          if runeSelf c then TrimRightFuncIsSpace (GoStrings.sliceTo stop t)
          else if asciiSpace c then trimStop t k
          else GoStrings.sliceTo stop t
      | None => GoStrings.sliceTo stop t
      end
  end.

(** [strings.TrimSpace] *)
Definition TrimSpace (s : string) : string :=
  match trimStart s with
  | inl rest => TrimFuncIsSpace rest
  | inr t => trimStop t (String.length t)
  end.

(** [Calendar.GetPassword] *)
Definition GetPassword (c : Calendar) : result string :=
  match ReadFile (PasswordFile c) with
  | Err err =>
      Err ("failed to read password file " +:+ PasswordFile c +:+ ": " +:+ err)
  | Ok data =>
      (* Trim any whitespace/newlines *)
      let password := TrimSpace data in
      if String.eqb password EmptyString
      then Err ("password file " +:+ PasswordFile c +:+ " is empty")
      else Ok password
  end.

End Files.

(** [s] without the white space it ends with. *)
Fixpoint trimRight (s : string) : string :=
  match s with
  | EmptyString => EmptyString
  | String c r =>
      match trimRight r with
      | EmptyString => if asciiSpace c then EmptyString else String c EmptyString
      | r' => String c r'
      end
  end.

(** The first byte of a text is no white space, if it has one. *)
Definition startsClean (s : string) : bool :=
  match s with
  | EmptyString => true
  | String c _ => negb (asciiSpace c)
  end.

(** The last byte of a text is no white space, if it has one. *)
Definition endsClean (s : string) : bool :=
  match GoStrings.lastByte s with
  | Some c => negb (asciiSpace c)
  | None => true
  end.

End Passwords.

(** ** Notions the properties of the code are stated with *)

Module Views.

Import GoTime Ical Caldav Api Spec.

(** The VEVENT components among the calendar objects a query answers with,
    in their order; an object without data has none. *)
Definition vevents (objects : list CalendarObject) : list Component :=
  objects ≫= (fun obj =>
    match objData obj with
    | Some cal => filter (fun comp => compName comp = "VEVENT") (calChildren cal)
    | None => []
    end).

End Views.

Module MonthView.

Import GoTime Ical Caldav Api Spec.

(** The instant [k] steps of 24 hours after the start of [e], shown in [tz]:
    where the loop of the month view stands after [k] rounds. *)
Definition dayStep (tz : GoTime.Location) (e : Event) (k : nat) : Time :=
  Add (In (Start e) tz) (Z.of_nat k * (24 * Hour)).

(** The loop of the month view gets as far as round [k] for [e]: at every
    round up to [k] it stands before the end of [e] and in the month. *)
Definition reaches (tz : GoTime.Location) (month : Z) (e : Event) (k : nat) : Prop :=
  forall j, (j <= k)%nat ->
    Before (dayStep tz e j) (In (End e) tz) = true /\ Month (dayStep tz e j) = month.

(** The month view marks [day] for [e]: it is the day of month of the start
    of [e], or [e] is timed and it is the day of month of a round the loop
    gets to. *)
Definition marks (tz : GoTime.Location) (month : Z) (e : Event) (day : Z) : Prop :=
  day = Day (In (Start e) tz)
  \/ (AllDay e = false /\ exists k, reaches tz month e k /\ day = Day (dayStep tz e k)).

(** The day of month of every day [doe] of a 400-year era is one of 1 to 31. *)
Definition civilDayBounds (doe : Z) : bool :=
  let yoe := (doe - doe / 1460 + doe / 36524 - doe / 146096) / 365 in
  let doy := doe - (365 * yoe + yoe / 4 - yoe / 100) in
  let mp := (5 * doy + 2) / 153 in
  let d := doy - (153 * mp + 2) / 5 + 1 in
  (1 <=? d) && (d <=? 31).

End MonthView.

Module Checks.

(** [allIn p i f]: [f] holds of the [p] integers from [i] on. *)
Fixpoint allIn (p : positive) (i : Z) (f : Z -> bool) : bool :=
  match p with
  | xH => f i
  | xO q => allIn q i f && allIn q (i + Z.pos q) f
  | xI q => f i && allIn q (i + 1) f && allIn q (i + 1 + Z.pos q) f
  end.


End Checks.

Module Dates.

Import GoTime.

(** The number two decimal digits stand for. *)
Definition twoDigits (a b : ascii) : Z := Strconv.digitVal a * 10 + Strconv.digitVal b.

(** The date that eight digits [YYYYMMDD] stand for, when it is one of the
    calendar: a month from 1 to 12 and a day the month has in that year. *)
Definition civilDate (y1 y2 y3 y4 m1 m2 d1 d2 : ascii) : option (Z * Z * Z) :=
  if forallb Strconv.isDigit [y1; y2; y3; y4; m1; m2; d1; d2] then
    let year := twoDigits y1 y2 * 100 + twoDigits y3 y4 in
    let month := twoDigits m1 m2 in
    let day := twoDigits d1 d2 in
    if (1 <=? month) && (month <=? 12) && (1 <=? day) && (day <=? daysIn month year)
    then Some (year, month, day)
    else None
  else None.

(** A date written [YYYY-MM-DD], and nothing else. *)
Definition isoDate (s : string) : option (Z * Z * Z) :=
  match s with
  | String y1 (String y2 (String y3 (String y4 (String s1 (String m1 (String m2
      (String s2 (String d1 (String d2 EmptyString))))))))) =>
      if GoStrings.byteEq s1 "-" && GoStrings.byteEq s2 "-"
      then civilDate y1 y2 y3 y4 m1 m2 d1 d2
      else None
  | _ => None
  end.

(** A date written [YYYYMMDD], and nothing else. *)
Definition basicDate (s : string) : option (Z * Z * Z) :=
  match s with
  | String y1 (String y2 (String y3 (String y4 (String m1 (String m2
      (String d1 (String d2 EmptyString))))))) => civilDate y1 y2 y3 y4 m1 m2 d1 d2
  | _ => None
  end.

(** The time of day that six digits [HHMMSS] stand for, when it is one. *)
Definition clockTime (h1 h2 n1 n2 s1 s2 : ascii) : option (Z * Z * Z) :=
  if forallb Strconv.isDigit [h1; h2; n1; n2; s1; s2] then
    let hour := twoDigits h1 h2 in
    let min := twoDigits n1 n2 in
    let sec := twoDigits s1 s2 in
    if (hour <? 24) && (min <? 60) && (sec <? 60) then Some (hour, min, sec) else None
  else None.

(** A date and time written [YYYYMMDDTHHMMSS], and nothing else. *)
Definition basicDateTime (s : string) : option (Z * Z * Z * (Z * Z * Z)) :=
  match s with
  | String y1 (String y2 (String y3 (String y4 (String m1 (String m2 (String d1 (String d2
      (String t (String h1 (String h2 (String n1 (String n2 (String s1 (String s2
         EmptyString)))))))))))))) =>
      if GoStrings.byteEq t "T" then
        match civilDate y1 y2 y3 y4 m1 m2 d1 d2, clockTime h1 h2 n1 n2 s1 s2 with
        | Some date, Some clock => Some (date, clock)
        | _, _ => None
        end
      else None
  | _ => None
  end.

End Dates.

Module Logs.

Import GoTime Ical Caldav Api Spec.

(** The error a failed fetch of client [c] leaves in [errs]: none for a
    fetch that succeeded. *)
Definition fetchError (c : Client) (r : result (list Event) * Log) : list string :=
  match r.1 with
  | Err e => ["calendar " +:+ calendarName c +:+ ": " +:+ e]
  | Ok _ => []
  end.

End Logs.

(** ** More sample data: a zone with one offset, and a configuration *)

Module Cases.

Import GoTime Ical Caldav Api.

(** Central European Time all year: one hour east of UTC. *)
Definition CET : GoTime.Location := FixedZone "CET" 3600.

(** A source in that zone, with the all-day event of 2026-10-25. *)
Definition sourceFixed : Client :=
  mkClient "F" "#445566" CET
    (fun _ _ => Ok [mkCalendarObject (Some (mkCalendar [Examples.switchDay]))]).

Definition fixedHandler : Handler := mkHandler [sourceFixed] CET.

(** The configured calendar behind that source: its password can be read. *)
Definition calendarFixed : CalendarConfig :=
  mkCalendarConfig "F" "#445566" (Ok "secret") (QueryCalendar sourceFixed).

(** Source A, which answers, and source B, which cannot be reached. *)
Definition twoAnswers : Handler :=
  mkHandler [Examples.sourceA; Examples.sourceDown] Examples.Rome.

(** The zone database knows Rome. *)
Definition zones (name : string) : result GoTime.Location :=
  if String.eqb name "Europe/Rome" then Ok Examples.Rome
  else Err ("unknown time zone " +:+ name).

Definition office : Config.Calendar :=
  Config.mkCalendar "Office" "https://dav.example.org/office" "ann" "/run/secrets/office"
    "#1A2B3C".

(** A calendar whose colour is a name. *)
Definition home : Config.Calendar :=
  Config.mkCalendar "Home" "https://dav.example.org/home" "ann" "/run/secrets/home" "red".

Definition sample : Config.Config := Config.mkConfig "Europe/Rome" 300 [office; home].

End Cases.

(** * Properties *)

(** ** Strings *)

Section StringFacts.

Lemma string_app_nil_l (s : string) : EmptyString +:+ s = s.
Proof. reflexivity. Qed.

Lemma string_app_cons (c : ascii) (s t : string) : String c s +:+ t = String c (s +:+ t).
Proof. reflexivity. Qed.

Lemma string_app_nil_r (s : string) : s +:+ EmptyString = s.
Proof.
  induction s as [|c s IH]; [reflexivity|].
  now rewrite string_app_cons, IH.
Qed.

Lemma string_app_assoc (a b c : string) : (a +:+ b) +:+ c = a +:+ (b +:+ c).
Proof.
  induction a as [|x a IH]; [reflexivity|].
  now rewrite !string_app_cons, IH.
Qed.

Lemma string_app_length (a b : string) :
  String.length (a +:+ b) = (String.length a + String.length b)%nat.
Proof.
  induction a as [|x a IH]; [reflexivity|].
  rewrite string_app_cons. cbn [String.length]. now rewrite IH.
Qed.

Lemma string_get_app (pre suf : string) (k : nat) :
  String.get (String.length pre + k) (pre +:+ suf) = String.get k suf.
Proof.
  induction pre as [|x pre IH]; [reflexivity|].
  rewrite string_app_cons. exact IH.
Qed.

Lemma string_get_app_0 (pre suf : string) :
  String.get (String.length pre) (pre +:+ suf) = String.get 0 suf.
Proof. rewrite <- (string_get_app pre suf 0). f_equal. lia. Qed.

Lemma string_snoc_app (pre : string) (c : ascii) (rest : string) :
  (pre +:+ String c EmptyString) +:+ rest = pre +:+ String c rest.
Proof. now rewrite string_app_assoc. Qed.

Lemma string_snoc_length (pre : string) (c : ascii) :
  String.length (pre +:+ String c EmptyString) = (String.length pre + 1)%nat.
Proof. now rewrite string_app_length. Qed.

End StringFacts.

(** ** Text decoding (client.go, [unescapeICalText]) *)

Section Unescape.

Import Caldav Spec.

(** The loop from index [len(pre)] on, with enough fuel for the rest of the
    string, appends the decoding of the rest. *)
Lemma unescapeLoop_decode (fuel : nat) :
  forall (suf pre result : string),
    (String.length suf <= fuel)%nat ->
    unescapeLoop fuel (pre +:+ suf) (String.length pre) result = result +:+ decodeText suf.
Proof.
  induction fuel as [|fuel IH]; intros suf pre result Hlen.
  - destruct suf; cbn in Hlen; [|lia]. cbn. now rewrite string_app_nil_r.
  - destruct suf as [|c rest].
    + cbn [unescapeLoop decodeText]. rewrite string_get_app_0. cbn.
      now rewrite string_app_nil_r.
    + cbn [String.length] in Hlen. cbn [unescapeLoop].
      rewrite string_get_app_0, string_get_app. cbn [String.get].
      assert (Hstep : forall r,
        unescapeLoop fuel (pre +:+ String c rest) (String.length pre + 1) r
        = r +:+ decodeText rest).
      { intros r. rewrite <- string_snoc_app, <- (string_snoc_length pre c).
        apply IH. lia. }
      destruct rest as [|next rest'].
      * cbn [String.get]. rewrite Hstep. cbn [decodeText].
        destruct (GoStrings.byteEq c backslash) eqn:Hc.
        -- apply Ascii.eqb_eq in Hc. subst c. now rewrite string_app_assoc.
        -- now rewrite string_app_assoc.
      * cbn [String.get].
        assert (Hstep2 : forall r,
          unescapeLoop fuel (pre +:+ String c (String next rest')) (String.length pre + 1 + 1) r
          = r +:+ decodeText rest').
        { intros r.
          replace (pre +:+ String c (String next rest'))
            with ((pre +:+ String c (String next EmptyString)) +:+ rest')
            by now rewrite string_app_assoc.
          replace (String.length pre + 1 + 1)%nat
            with (String.length (pre +:+ String c (String next EmptyString)))
            by (rewrite string_app_length; cbn; lia).
          apply IH. cbn [String.length] in Hlen. lia. }
        cbn [decodeText].
        destruct (GoStrings.byteEq c backslash) eqn:Hc.
        -- destruct (GoStrings.byteEq next "," || GoStrings.byteEq next ";"
                     || GoStrings.byteEq next backslash) eqn:H1.
           ++ rewrite Hstep2. now rewrite string_app_assoc.
           ++ destruct (GoStrings.byteEq next "n" || GoStrings.byteEq next "N") eqn:H2.
              ** rewrite Hstep2. now rewrite string_app_assoc.
              ** rewrite Hstep. now rewrite string_app_assoc.
        -- rewrite Hstep. now rewrite string_app_assoc.
Qed.

(** The loop of the code computes the scan the specification describes. *)
Lemma unescapeICalText_decodeText (s : string) : unescapeICalText s = decodeText s.
Proof.
  unfold unescapeICalText.
  exact (unescapeLoop_decode (String.length s) s EmptyString EmptyString (le_n _)).
Qed.

(** A string that ends in a backslash decodes to one that does. *)
Lemma decodeText_trailing_backslash (n : nat) :
  forall s, (String.length s <= n)%nat ->
    exists r, decodeText (s +:+ String backslash EmptyString) = r +:+ String backslash EmptyString.
Proof.
  induction n as [n IH] using lt_wf_ind. intros s Hn.
  destruct s as [|c rest].
  - exists EmptyString. reflexivity.
  - rewrite string_app_cons. cbn [String.length] in Hn.
    destruct (IH (String.length rest) ltac:(lia) rest (le_n _)) as [r1 Hr1].
    cbn [decodeText]. destruct (GoStrings.byteEq c backslash).
    + destruct rest as [|next rest'].
      * exists EmptyString. reflexivity.
      * rewrite string_app_cons. cbn [String.length] in Hn.
        destruct (IH (String.length rest') ltac:(lia) rest' (le_n _)) as [r2 Hr2].
        rewrite string_app_cons in Hr1.
        destruct (GoStrings.byteEq next "," || GoStrings.byteEq next ";"
                  || GoStrings.byteEq next backslash).
        -- exists (String next r2). now rewrite Hr2.
        -- destruct (GoStrings.byteEq next "n" || GoStrings.byteEq next "N").
           ++ exists (String newline r2). now rewrite Hr2.
           ++ exists (String backslash r1). now rewrite Hr1.
    + exists (String c r1). now rewrite Hr1.
Qed.

(** C8. Text decoding is a total function computed by one scan from the
    left: it is the scan [decodeText] of the specification on every string.
    In that scan a character other than a backslash is copied; a backslash
    before [,], [;] or a backslash gives that character and both are
    consumed; a backslash before [n] or [N] gives a newline and both are
    consumed; a backslash before any other character gives a backslash and
    that character is scanned next; a backslash at the end gives a
    backslash.  So a string that ends in a backslash decodes, and to a
    string that ends in a backslash. *)
Theorem unescapeICalText_scan :
  (forall s, unescapeICalText s = decodeText s)
  /\ unescapeICalText EmptyString = EmptyString
  /\ (forall c rest, c <> backslash ->
        unescapeICalText (String c rest) = String c (unescapeICalText rest))
  /\ (forall next rest, next = ","%char \/ next = ";"%char \/ next = backslash ->
        unescapeICalText (String backslash (String next rest))
        = String next (unescapeICalText rest))
  /\ (forall next rest, next = "n"%char \/ next = "N"%char ->
        unescapeICalText (String backslash (String next rest))
        = String newline (unescapeICalText rest))
  /\ (forall next rest,
        next <> ","%char -> next <> ";"%char -> next <> backslash ->
        next <> "n"%char -> next <> "N"%char ->
        unescapeICalText (String backslash (String next rest))
        = String backslash (unescapeICalText (String next rest)))
  /\ unescapeICalText (String backslash EmptyString) = String backslash EmptyString
  /\ (forall s, exists r,
        unescapeICalText (s +:+ String backslash EmptyString)
        = r +:+ String backslash EmptyString).
Proof.
  split; [exact unescapeICalText_decodeText|].
  split; [reflexivity|].
  split.
  { intros c rest Hc. rewrite !unescapeICalText_decodeText. cbn [decodeText].
    destruct (GoStrings.byteEq c backslash) eqn:E; [|reflexivity].
    apply Ascii.eqb_eq in E. contradiction. }
  split.
  { intros next rest H. rewrite !unescapeICalText_decodeText.
    destruct H as [ -> | [ -> | -> ] ]; reflexivity. }
  split.
  { intros next rest H. rewrite !unescapeICalText_decodeText.
    destruct H as [ -> | -> ]; reflexivity. }
  split.
  { intros next rest H1 H2 H3 H4 H5. rewrite !unescapeICalText_decodeText.
    cbn [decodeText]. unfold GoStrings.byteEq.
    rewrite (proj2 (Ascii.eqb_neq _ _) H1), (proj2 (Ascii.eqb_neq _ _) H2),
      (proj2 (Ascii.eqb_neq _ _) H3), (proj2 (Ascii.eqb_neq _ _) H4),
      (proj2 (Ascii.eqb_neq _ _) H5).
    reflexivity. }
  split; [reflexivity|].
  intros s. rewrite unescapeICalText_decodeText.
  exact (decodeText_trailing_backslash (String.length s) s (le_n _)).
Qed.

(** The escaped comma of [\,x]: the comma is kept, the scan goes on at [x]. *)
Lemma unescapeICalText_scan_witness :
  unescapeICalText (String backslash (String "," "x"))
  = String "," (unescapeICalText "x").
Proof.
  destruct unescapeICalText_scan as (_ & _ & _ & H & _).
  apply H. left. reflexivity.
Defined.

End Unescape.

(** ** The order of events (event.go, [Events.Less]) *)

Section Ordering.

Import GoTime Caldav Spec.

Lemma N_of_ascii_inj (x y : ascii) : N_of_ascii x = N_of_ascii y -> x = y.
Proof.
  intros H. rewrite <- (ascii_N_embedding x), <- (ascii_N_embedding y). now rewrite H.
Qed.

Lemma stringLess_irrefl (s : string) : stringLess s s = false.
Proof.
  induction s as [|c s IH]; [reflexivity|].
  cbn [stringLess]. now rewrite N.ltb_irrefl.
Qed.

Lemma stringLess_trans (a : string) :
  forall b c, stringLess a b = true -> stringLess b c = true -> stringLess a c = true.
Proof.
  induction a as [|x a IH]; intros [|y b] [|z c]; cbn [stringLess]; try congruence.
  destruct (N.ltb_spec (N_of_ascii x) (N_of_ascii y)) as [Hxy|Hxy];
    destruct (N.ltb_spec (N_of_ascii y) (N_of_ascii x)) as [Hyx|Hyx];
    destruct (N.ltb_spec (N_of_ascii y) (N_of_ascii z)) as [Hyz|Hyz];
    destruct (N.ltb_spec (N_of_ascii z) (N_of_ascii y)) as [Hzy|Hzy];
    destruct (N.ltb_spec (N_of_ascii x) (N_of_ascii z)) as [Hxz|Hxz];
    destruct (N.ltb_spec (N_of_ascii z) (N_of_ascii x)) as [Hzx|Hzx];
    try congruence; try lia.
  apply IH.
Qed.

Lemma stringLess_total (a : string) :
  forall b, stringLess a b = false -> stringLess b a = false -> a = b.
Proof.
  induction a as [|x a IH]; intros [|y b]; cbn [stringLess]; try congruence.
  destruct (N.ltb_spec (N_of_ascii x) (N_of_ascii y)) as [Hxy|Hxy];
    destruct (N.ltb_spec (N_of_ascii y) (N_of_ascii x)) as [Hyx|Hyx];
    try congruence; try lia.
  intros H1 H2. f_equal; [apply N_of_ascii_inj; lia | now apply IH].
Qed.

Lemma stringLess_asym (a b : string) : stringLess a b = true -> stringLess b a = false.
Proof.
  intros H. destruct (stringLess b a) eqn:E; [|reflexivity].
  pose proof (stringLess_trans _ _ _ H E) as F. now rewrite stringLess_irrefl in F.
Qed.

(** [Less] is the order the specification describes. *)
Lemma Less_before (a b : Event) : Less a b = true <-> before a b.
Proof.
  unfold Less, before, rank, Equal, Before.
  destruct (AllDay a), (AllDay b); cbn [eqb negb];
    destruct (Z.eqb_spec (unixNano (Start a)) (unixNano (Start b))) as [He|He];
    cbn [negb]; rewrite ?Z.ltb_lt; split; intros H; try lia; try congruence;
    try (right; split; [reflexivity|]; lia);
    try (right; split; [reflexivity|]; right; split; [exact He | exact H]);
    try (destruct H as [H|[_ [H|[_ H]]]]; [lia | lia | exact H]).
Qed.

Lemma Less_irrefl (a : Event) : Less a a = false.
Proof.
  destruct (Less a a) eqn:E; [|reflexivity].
  apply Less_before in E. unfold before in E.
  rewrite stringLess_irrefl in E. destruct E as [E|[_ [E|[_ E]]]]; try lia; congruence.
Qed.

Lemma Less_trans (a b c : Event) : Less a b = true -> Less b c = true -> Less a c = true.
Proof.
  rewrite !Less_before. unfold before.
  intros [H1|[H1 [H1'|[H1' H1'']]]] [H2|[H2 [H2'|[H2' H2'']]]]; try (left; lia);
    try (right; split; [lia|]; left; lia).
  right. split; [lia|]. right. split; [lia|]. eapply stringLess_trans; eassumption.
Qed.

Lemma Less_asym (a b : Event) : Less a b = true -> Less b a = false.
Proof.
  intros H. destruct (Less b a) eqn:E; [|reflexivity].
  pose proof (Less_trans _ _ _ H E) as F. now rewrite Less_irrefl in F.
Qed.

(** Events are incomparable exactly when the order sees no difference. *)
Lemma incomparable_sortKey (a b : Event) : incomparable a b <-> sortKey a = sortKey b.
Proof.
  unfold incomparable, sortKey. split.
  - intros [H1 H2].
    assert (N1 : ~ before a b) by (rewrite <- Less_before; congruence).
    assert (N2 : ~ before b a) by (rewrite <- Less_before; congruence).
    unfold before in N1, N2.
    assert (rank a = rank b) as -> by lia.
    assert (unixNano (Start a) = unixNano (Start b)) as -> by lia.
    f_equal. apply stringLess_total.
    + destruct (stringLess (Summary a) (Summary b)) eqn:E; [|reflexivity].
      exfalso. apply N1. right. split; [lia|]. right. split; [lia|].
      first [exact E | reflexivity].
    + destruct (stringLess (Summary b) (Summary a)) eqn:E; [|reflexivity].
      exfalso. apply N2. right. split; [lia|]. right. split; [lia|].
      first [exact E | reflexivity].
  - intros H. injection H as Hr Hs Hsum.
    assert (N : forall x y, rank x = rank y -> unixNano (Start x) = unixNano (Start y) ->
                            Summary x = Summary y -> Less x y = false).
    { intros x y E1 E2 E3. destruct (Less x y) eqn:E; [|reflexivity].
      apply Less_before in E. unfold before in E. rewrite E3, stringLess_irrefl in E.
      destruct E as [E|[_ [E|[_ E]]]]; try lia; congruence. }
    split; apply N; congruence.
Qed.

Lemma incomparable_trans (a b c : Event) :
  incomparable a b -> incomparable b c -> incomparable a c.
Proof. rewrite !incomparable_sortKey. congruence. Qed.

Lemma stringLess_neg_trans (a b c : string) :
  stringLess b a = false -> stringLess c b = false -> stringLess c a = false.
Proof.
  intros Hba Hcb. destruct (stringLess c a) eqn:Hca; [|reflexivity].
  destruct (stringLess b c) eqn:Hbc.
  - pose proof (stringLess_trans _ _ _ Hbc Hca). congruence.
  - pose proof (stringLess_total _ _ Hbc Hcb). subst c. congruence.
Qed.

(** [b] is not [Less] than [a] exactly when [a] is at most [b]. *)
Lemma notAfter_spec (a b : Event) :
  notAfter a b <->
  rank a < rank b
  \/ (rank a = rank b
      /\ (unixNano (Start a) < unixNano (Start b)
          \/ (unixNano (Start a) = unixNano (Start b)
              /\ stringLess (Summary b) (Summary a) = false))).
Proof.
  unfold notAfter. split.
  - intros H.
    assert (N : ~ before b a) by (rewrite <- Less_before; congruence).
    unfold before in N.
    destruct (Z.lt_trichotomy (rank a) (rank b)) as [?|[Hr|?]]; [now left| |].
    + right. split; [assumption|].
      destruct (Z.lt_trichotomy (unixNano (Start a)) (unixNano (Start b))) as [?|[Hs|?]];
        [now left| |].
      * right. split; [assumption|].
        destruct (stringLess (Summary b) (Summary a)); [|reflexivity].
        exfalso. apply N. right. split; [lia|]. right. split; [lia|]. reflexivity.
      * exfalso. apply N. right. split; [lia|]. left. lia.
    + exfalso. apply N. left. lia.
  - intros H. destruct (Less b a) eqn:E; [|reflexivity].
    apply Less_before in E. unfold before in E.
    destruct H as [H|[Hr [H|[Hs H]]]]; destruct E as [E|[Er [E|[Es E]]]];
      try lia; congruence.
Qed.

Lemma notAfter_trans (a b c : Event) : notAfter a b -> notAfter b c -> notAfter a c.
Proof.
  rewrite !notAfter_spec.
  intros [H1|[H1 [H1'|[H1' H1'']]]] [H2|[H2 [H2'|[H2' H2'']]]]; try (left; lia);
    try (right; split; [lia|]; left; lia).
  right. split; [lia|]. right. split; [lia|].
  eapply stringLess_neg_trans; eassumption.
Qed.

Lemma notAfter_refl (a : Event) : notAfter a a.
Proof. apply Less_irrefl. Qed.

(** Events that may stand either way round are incomparable. *)
Lemma notAfter_antisym (a b : Event) : notAfter a b -> notAfter b a -> sortKey a = sortKey b.
Proof. intros H1 H2. apply incomparable_sortKey. split; assumption. Qed.

End Ordering.

(** ** Sorting with [Less] (package [sort]) *)

Section Sorting.

Import GoTime Caldav Spec.

Lemma insertLeft_Permutation (x : Event) (l : list Event) : insertLeft x l ≡ₚ x :: l.
Proof.
  induction l as [|y l IH]; cbn [insertLeft]; [reflexivity|].
  destruct (Less x y); [|reflexivity].
  rewrite IH. apply Permutation_swap.
Qed.

Lemma fold_insertLeft_Permutation (l : list Event) :
  forall acc, fold_left (fun sorted x => insertLeft x sorted) l acc ≡ₚ l ++ acc.
Proof.
  induction l as [|x l IH]; intros acc; cbn [fold_left]; [reflexivity|].
  rewrite IH, insertLeft_Permutation. cbn [app].
  symmetry. apply Permutation_middle.
Qed.

Lemma sortEvents_Permutation (l : list Event) : l ≡ₚ sortEvents l.
Proof.
  unfold sortEvents. rewrite reverse_Permutation, fold_insertLeft_Permutation.
  now rewrite app_nil_r.
Qed.

Lemma insertLeft_HdRel (x y : Event) (l : list Event) :
  Less y x = false -> HdRel (flip notAfter) y l -> HdRel (flip notAfter) y (insertLeft x l).
Proof.
  intros Hyx Hhd. destruct l as [|z l]; cbn [insertLeft].
  - constructor. exact Hyx.
  - destruct (Less x z).
    + constructor. now inversion Hhd.
    + constructor. exact Hyx.
Qed.

Lemma insertLeft_Sorted (x : Event) (l : list Event) :
  Sorted (flip notAfter) l -> Sorted (flip notAfter) (insertLeft x l).
Proof.
  induction 1 as [|y l Hs IH Hhd]; cbn [insertLeft].
  - repeat constructor.
  - destruct (Less x y) eqn:Hxy.
    + constructor; [exact IH|]. apply insertLeft_HdRel; [|exact Hhd]. now apply Less_asym.
    + constructor; [now constructor|]. constructor. exact Hxy.
Qed.

Lemma fold_insertLeft_Sorted (l : list Event) :
  forall acc, Sorted (flip notAfter) acc ->
              Sorted (flip notAfter) (fold_left (fun sorted x => insertLeft x sorted) l acc).
Proof.
  induction l as [|x l IH]; intros acc Hacc; cbn [fold_left]; [exact Hacc|].
  apply IH, insertLeft_Sorted, Hacc.
Qed.

Lemma sortEvents_Sorted (l : list Event) : Sorted notAfter (sortEvents l).
Proof.
  unfold sortEvents.
  apply (Sorted_reverse (flip notAfter)), fold_insertLeft_Sorted. constructor.
Qed.

(** The executable sort keeps the promise of [sort.Sort]. *)
Lemma sortEvents_sortResult (l : list Event) : sortResult l (sortEvents l).
Proof. split; [apply sortEvents_Permutation | apply sortEvents_Sorted]. Qed.

Lemma insertLeft_head (x : Event) (l : list Event) :
  Forall (fun y => Less x y = false) l -> insertLeft x l = x :: l.
Proof. destruct 1 as [|y l Hy _]; cbn [insertLeft]; [reflexivity | now rewrite Hy]. Qed.

Lemma fold_insertLeft_sorted (l : list Event) :
  forall acc,
    StronglySorted notAfter l ->
    Forall (fun x => Forall (fun y => Less x y = false) acc) l ->
    fold_left (fun sorted x => insertLeft x sorted) l acc = reverse l ++ acc.
Proof.
  induction l as [|x l IH]; intros acc Hs Hacc; cbn [fold_left]; [reflexivity|].
  apply StronglySorted_inv in Hs as [Hs Hx]. apply Forall_cons in Hacc as [Hxacc Hacc].
  rewrite insertLeft_head by exact Hxacc.
  rewrite IH; [now rewrite reverse_cons, <- app_assoc | exact Hs |].
  rewrite Forall_forall in *. intros z Hz. constructor; [apply Hx, Hz | apply Hacc, Hz].
Qed.

(** Sorting a sorted list changes nothing. *)
Lemma sortEvents_sorted_id (l : list Event) : Sorted notAfter l -> sortEvents l = l.
Proof.
  intros Hs. unfold sortEvents.
  rewrite fold_insertLeft_sorted.
  - now rewrite app_nil_r, reverse_involutive.
  - apply Sorted_StronglySorted; [|exact Hs]. intros a b c. apply notAfter_trans.
  - apply Forall_forall. intros ? _. constructor.
Qed.

Lemma sortEvents_idempotent (l : list Event) : sortEvents (sortEvents l) = sortEvents l.
Proof. apply sortEvents_sorted_id, sortEvents_Sorted. Qed.

Lemma keyLe_trans (k1 k2 k3 : Z * Z * string) : keyLe k1 k2 -> keyLe k2 k3 -> keyLe k1 k3.
Proof.
  unfold keyLe.
  intros [H1|[H1 [H1'|[H1' H1'']]]] [H2|[H2 [H2'|[H2' H2'']]]]; try (left; lia);
    try (right; split; [lia|]; left; lia).
  right. split; [lia|]. right. split; [lia|].
  eapply stringLess_neg_trans; eassumption.
Qed.

Lemma keyLe_antisym (k1 k2 : Z * Z * string) : keyLe k1 k2 -> keyLe k2 k1 -> k1 = k2.
Proof.
  destruct k1 as [[r1 s1] t1], k2 as [[r2 s2] t2]. unfold keyLe. cbn [fst snd].
  intros [H1|[H1 [H1'|[H1' H1'']]]] [H2|[H2 [H2'|[H2' H2'']]]]; try lia.
  subst. f_equal. now apply stringLess_total.
Qed.

Lemma notAfter_keyLe (a b : Event) : notAfter a b -> keyLe (sortKey a) (sortKey b).
Proof. intros H. apply notAfter_spec in H. exact H. Qed.

(** Two results [sort.Sort] may give for one input show the same keys in the
    same places: they differ at most in the order of incomparable events. *)
Lemma sortResult_keys (l l1 l2 : list Event) :
  sortResult l l1 -> sortResult l l2 -> sortKey <$> l1 = sortKey <$> l2.
Proof.
  intros [P1 S1] [P2 S2].
  apply (@Sorted_unique _ keyLe).
  - intros a b c. apply keyLe_trans.
  - intros a b. apply keyLe_antisym.
  - eapply Sorted_fmap; [|exact S1]. apply notAfter_keyLe.
  - eapply Sorted_fmap; [|exact S2]. apply notAfter_keyLe.
  - apply fmap_Permutation. now rewrite <- P1, <- P2.
Qed.

(** C7. The comparison of occurrences is the order of the specification
    (all-day before timed, then ascending start instant, then ascending
    summary), and it is a strict weak ordering: irreflexive, transitive, and
    with transitive incomparability.  Sorting with it is idempotent: the
    sort returns a sorted list unchanged, and whatever [sort.Sort] may
    return for a list that is already a result of it shows the same keys in
    the same places. *)
Theorem Less_strict_weak_ordering :
  (forall a b, Less a b = true <-> before a b)
  /\ (forall a, Less a a = false)
  /\ (forall a b c, Less a b = true -> Less b c = true -> Less a c = true)
  /\ (forall a b c, incomparable a b -> incomparable b c -> incomparable a c)
  /\ (forall l, sortEvents (sortEvents l) = sortEvents l)
  /\ (forall l l1 l2, sortResult l l1 -> sortResult l1 l2 ->
        sortKey <$> l2 = sortKey <$> l1).
Proof.
  split; [exact Less_before|].
  split; [exact Less_irrefl|].
  split; [exact Less_trans|].
  split; [exact incomparable_trans|].
  split; [exact sortEvents_idempotent|].
  intros l l1 l2 [_ S1] H2.
  apply (sortResult_keys l1); [exact H2|]. split; [reflexivity | exact S1].
Qed.

(** Standup (09:00) is before Review (10:00), which is before Lunch (11:00). *)
Lemma Less_strict_weak_ordering_witness :
  Less Examples.standup Examples.review = true
  /\ Less Examples.review Examples.lunch = true
  /\ Less Examples.standup Examples.lunch = true.
Proof.
  split; [reflexivity|]. split; [reflexivity|].
  destruct Less_strict_weak_ordering as (_ & _ & Htrans & _).
  apply (Htrans Examples.standup Examples.review Examples.lunch); reflexivity.
Defined.

End Sorting.

(** ** 64-bit arithmetic *)

Section Int64Facts.

Import GoInt.

Lemma wrap64_small (z : Z) : inInt64 z = true -> wrap64 z = z.
Proof.
  unfold inInt64, wrap64, minInt64, maxInt64. intros H.
  apply andb_true_iff in H as [H1 H2]. apply Z.leb_le in H1, H2.
  rewrite Z.mod_small; lia.
Qed.

Lemma wrap64_inInt64 (z : Z) : inInt64 (wrap64 z) = true.
Proof.
  unfold inInt64, wrap64, minInt64, maxInt64.
  pose proof (Z.mod_pos_bound (z + 2 ^ 63) (2 ^ 64) ltac:(lia)).
  apply andb_true_iff. split; apply Z.leb_le; lia.
Qed.

Lemma wrap64_congr (a b : Z) : a mod 2 ^ 64 = b mod 2 ^ 64 -> wrap64 a = wrap64 b.
Proof.
  intros H. unfold wrap64. f_equal.
  rewrite (Z.add_mod a), (Z.add_mod b) by lia. now rewrite H.
Qed.

Lemma wrap64_mod (z : Z) : wrap64 z mod 2 ^ 64 = z mod 2 ^ 64.
Proof.
  unfold wrap64. rewrite Zminus_mod_idemp_l. f_equal. lia.
Qed.

Lemma add64_wrap (a b : Z) : add64 (wrap64 a) (wrap64 b) = wrap64 (a + b).
Proof.
  unfold add64. apply wrap64_congr.
  rewrite Z.add_mod, !wrap64_mod, <- Z.add_mod by lia. reflexivity.
Qed.

Lemma mul64_wrap (a b : Z) : mul64 (wrap64 a) (wrap64 b) = wrap64 (a * b).
Proof.
  unfold mul64. apply wrap64_congr.
  rewrite Z.mul_mod, !wrap64_mod, <- Z.mul_mod by lia. reflexivity.
Qed.

Lemma neg64_wrap (a : Z) : neg64 (wrap64 a) = wrap64 (- a).
Proof.
  unfold neg64. apply wrap64_congr.
  change (- wrap64 a) with (0 - wrap64 a). change (- a) with (0 - a).
  rewrite <- Zminus_mod_idemp_r, wrap64_mod, Zminus_mod_idemp_r. reflexivity.
Qed.

Lemma wrap64_idem (a : Z) : wrap64 (wrap64 a) = wrap64 a.
Proof. apply wrap64_congr, wrap64_mod. Qed.

Lemma mul64_wrap_l_aux (a b : Z) : wrap64 (wrap64 a * b) = wrap64 (a * b).
Proof.
  apply wrap64_congr. rewrite Z.mul_mod, wrap64_mod, <- Z.mul_mod by lia. reflexivity.
Qed.

Lemma weeks_value (v hour : Z) :
  add64 0 (mul64 (mul64 (mul64 v 7) 24) hour) = wrap64 (v * 7 * 24 * hour).
Proof.
  unfold add64, mul64. rewrite Z.add_0_l, wrap64_idem.
  now rewrite (mul64_wrap_l_aux (v * 7) 24), (mul64_wrap_l_aux (v * 7 * 24) hour).
Qed.

Lemma days_value (v hour : Z) :
  add64 0 (mul64 (mul64 v 24) hour) = wrap64 (v * 24 * hour).
Proof.
  unfold add64, mul64. rewrite Z.add_0_l, wrap64_idem.
  now rewrite (mul64_wrap_l_aux (v * 24) hour).
Qed.

End Int64Facts.

(** ** Facts of packages [strings] and [strconv] *)

Section GoStringFacts.

Import GoStrings Strconv Spec.

Lemma byteEq_refl (c : ascii) : byteEq c c = true.
Proof. apply Ascii.eqb_refl. Qed.

Lemma indexFrom_lower (s : string) (sep : ascii) :
  forall i, indexFrom i s sep = -1 \/ i <= indexFrom i s sep.
Proof.
  induction s as [|c r IH]; intros i; cbn [indexFrom]; [now left|].
  destruct (byteEq c sep); [right; lia|].
  destruct (IH (i + 1)) as [H|H]; [now left | right; lia].
Qed.

Lemma indexFrom_shift (s : string) (sep : ascii) :
  forall i, 0 <= i -> indexFrom i s sep = -1 <-> indexFrom 0 s sep = -1.
Proof.
  induction s as [|c r IH]; intros i Hi; cbn [indexFrom]; [tauto|].
  destruct (byteEq c sep); [lia|].
  rewrite (IH (i + 1)), (IH (0 + 1)) by lia. tauto.
Qed.

Lemma Contains_nil (sep : ascii) : Contains EmptyString sep = false.
Proof. reflexivity. Qed.

Lemma Contains_cons (c : ascii) (r : string) (sep : ascii) :
  Contains (String c r) sep = byteEq c sep || Contains r sep.
Proof.
  unfold Contains, Index. cbn [indexFrom].
  destruct (byteEq c sep); [reflexivity|]. cbn [orb].
  destruct (indexFrom_lower r sep (0 + 1)) as [H|H].
  - rewrite H. apply indexFrom_shift in H; [|lia]. now rewrite H.
  - destruct (indexFrom_lower r sep 0) as [H0|H0].
    + apply (indexFrom_shift r sep (0 + 1)) in H0; lia.
    + transitivity true; [apply Z.leb_le; lia | symmetry; apply Z.leb_le; lia].
Qed.

Lemma Contains_app (a b : string) (sep : ascii) :
  Contains (a +:+ b) sep = Contains a sep || Contains b sep.
Proof.
  induction a as [|c a IH]; [reflexivity|].
  rewrite string_app_cons, !Contains_cons, IH. now rewrite orb_assoc.
Qed.

Lemma indexFrom_app (a : string) (sep : ascii) (r : string) :
  forall i, Contains a sep = false ->
            indexFrom i (a +:+ String sep r) sep = i + len a.
Proof.
  induction a as [|c a IH]; intros i H.
  - rewrite string_app_nil_l. cbn [indexFrom]. rewrite byteEq_refl. unfold len. cbn. lia.
  - rewrite Contains_cons in H. apply orb_false_iff in H as [Hc Ha].
    rewrite string_app_cons. cbn [indexFrom]. rewrite Hc, IH by exact Ha.
    unfold len. cbn [String.length]. lia.
Qed.

Lemma Index_app (a : string) (sep : ascii) (r : string) :
  Contains a sep = false -> Z.to_nat (Index (a +:+ String sep r) sep) = String.length a.
Proof.
  intros H. unfold Index. rewrite indexFrom_app by exact H. unfold len. lia.
Qed.

Lemma sliceTo_app (a b : string) : sliceTo (String.length a) (a +:+ b) = a.
Proof.
  induction a as [|c a IH]; [destruct b; reflexivity|].
  rewrite string_app_cons. cbn. now rewrite IH.
Qed.

Lemma sliceFrom_app (a b : string) : sliceFrom (String.length a) (a +:+ b) = b.
Proof.
  induction a as [|c a IH]; [reflexivity|].
  rewrite string_app_cons. exact IH.
Qed.

Lemma sliceFrom_app_1 (a : string) (c : ascii) (b : string) :
  sliceFrom (String.length a + 1) (a +:+ String c b) = b.
Proof.
  rewrite <- (string_snoc_app a c b), <- (string_snoc_length a c). apply sliceFrom_app.
Qed.

Lemma sliceTo_app_more (a b : string) (k : nat) :
  sliceTo (String.length a + k) (a +:+ b) = a +:+ sliceTo k b.
Proof.
  induction a as [|c a IH]; [reflexivity|].
  rewrite !string_app_cons. cbn. now rewrite IH.
Qed.

Lemma Split_no_sep (a : string) (sep : ascii) : Contains a sep = false -> Split a sep = [a].
Proof.
  induction a as [|c a IH]; intros H; [reflexivity|].
  rewrite Contains_cons in H. apply orb_false_iff in H as [Hc Ha].
  cbn [Split]. now rewrite Hc, IH.
Qed.

Lemma Split_app (a : string) (sep : ascii) (b : string) :
  Contains a sep = false -> Split (a +:+ String sep b) sep = a :: Split b sep.
Proof.
  induction a as [|c a IH]; intros H.
  - rewrite string_app_nil_l. cbn [Split]. now rewrite byteEq_refl.
  - rewrite Contains_cons in H. apply orb_false_iff in H as [Hc Ha].
    rewrite string_app_cons. cbn [Split]. now rewrite Hc, IH.
Qed.

Lemma Split_nonempty (s : string) (sep : ascii) : exists h t, Split s sep = h :: t.
Proof.
  induction s as [|c r [h [t IH]]]; cbn [Split]; [eauto|].
  destruct (byteEq c sep); [eauto|]. rewrite IH. eauto.
Qed.

(** The first part of a split has no separator and is a prefix of the text. *)
Lemma Split_head (s : string) (sep : ascii) :
  exists h t, Split s sep = h :: t /\ Contains h sep = false
              /\ (s = h \/ exists r, s = h +:+ String sep r /\ t = Split r sep).
Proof.
  induction s as [|c r (h & t & IH & Hh & Hs)]; cbn [Split].
  - exists EmptyString, []. repeat split. now left.
  - destruct (byteEq c sep) eqn:Hc.
    + exists EmptyString, (Split r sep). repeat split.
      right. exists r. apply Ascii.eqb_eq in Hc. subst c. now split.
    + rewrite IH. exists (String c h), t. split; [reflexivity|].
      split; [rewrite Contains_cons, Hc; exact Hh|].
      destruct Hs as [->|(r' & -> & Ht)]; [now left|].
      right. exists r'. now rewrite string_app_cons.
Qed.

Lemma lastByte_snoc (a : string) (c : ascii) : lastByte (a +:+ String c EmptyString) = Some c.
Proof.
  induction a as [|x a IH]; [reflexivity|].
  rewrite string_app_cons. cbn [lastByte]. rewrite IH.
  destruct (a +:+ String c EmptyString) eqn:E; [|reflexivity].
  destruct a; discriminate.
Qed.

Lemma TrimSuffix_snoc (a : string) (c : ascii) : TrimSuffix (a +:+ String c EmptyString) c = a.
Proof.
  unfold TrimSuffix. rewrite lastByte_snoc, byteEq_refl, string_app_length.
  cbn [String.length]. replace (String.length a + 1 - 1)%nat with (String.length a) by lia.
  apply sliceTo_app.
Qed.

Lemma allDigits_Contains (n : string) (c : ascii) :
  allDigits n = true -> isDigit c = false -> Contains n c = false.
Proof.
  intros Hn Hc. induction n as [|x n IH]; [reflexivity|].
  cbn [allDigits] in Hn. apply andb_true_iff in Hn as [Hx Hn].
  rewrite Contains_cons, IH by exact Hn.
  destruct (byteEq x c) eqn:E; [|reflexivity].
  apply Ascii.eqb_eq in E. subst x. congruence.
Qed.

Lemma digitsFrom_allDigits (n : string) :
  forall acc, allDigits n = true -> exists v, digitsFrom acc n = Some v.
Proof.
  induction n as [|x n IH]; intros acc H; cbn [digitsFrom]; [eauto|].
  cbn [allDigits] in H. apply andb_true_iff in H as [Hx Hn]. rewrite Hx. now apply IH.
Qed.

(** A number that fits an [int] is read by [Atoi] as its value. *)
Lemma isDigit_not_sign (c : ascii) :
  isDigit c = true -> byteEq c "-" = false /\ byteEq c "+" = false.
Proof.
  intros H. split.
  - destruct (byteEq c "-") eqn:E; [|reflexivity].
    apply Ascii.eqb_eq in E. subst c. discriminate.
  - destruct (byteEq c "+") eqn:E; [|reflexivity].
    apply Ascii.eqb_eq in E. subst c. discriminate.
Qed.

Lemma Atoi_number (n : string) :
  isNumber n = true -> GoInt.inInt64 (numberValue n) = true -> Atoi n = Some (numberValue n).
Proof.
  unfold isNumber, numberValue. intros H Hr.
  apply andb_true_iff in H as [Hne Hd].
  destruct n as [|x n]; [discriminate|].
  destruct (digitsFrom_allDigits (String x n) 0 Hd) as [v Hv].
  rewrite Hv in Hr. change (GoInt.inInt64 v = true) in Hr.
  cbn [allDigits] in Hd. apply andb_true_iff in Hd as [Hx _].
  destruct (isDigit_not_sign x Hx) as [Hm Hp].
  unfold Atoi. rewrite Hm, Hp. cbn [orb]. rewrite Hv, Hr. reflexivity.
Qed.

(** No text with a byte that is neither a digit nor a leading sign is read
    by [Atoi]. *)
Lemma digitsFrom_bad (a : string) (c : ascii) (b : string) :
  forall acc, isDigit c = false -> digitsFrom acc (a +:+ String c b) = None.
Proof.
  induction a as [|x a IH]; intros acc Hc.
  - rewrite string_app_nil_l. cbn [digitsFrom]. now rewrite Hc.
  - rewrite string_app_cons. cbn [digitsFrom]. destruct (isDigit x); [now apply IH | reflexivity].
Qed.

End GoStringFacts.

(** ** Durations (recurring.go, [parseDuration]) *)

Section DurationFacts.

Import GoInt GoStrings Strconv GoTime Caldav Spec.

Lemma Atoi_bad (a : string) (c : ascii) (b : string) :
  isDigit c = false -> byteEq c "-" = false -> byteEq c "+" = false ->
  Atoi (a +:+ String c b) = None.
Proof.
  intros Hd Hm Hp. destruct a as [|x a].
  - rewrite string_app_nil_l. unfold Atoi. rewrite Hm, Hp. cbn [orb digitsFrom].
    now rewrite Hd.
  - rewrite string_app_cons. unfold Atoi.
    destruct (byteEq x "-" || byteEq x "+").
    + destruct (a +:+ String c b) eqn:E; [reflexivity|].
      rewrite <- E, digitsFrom_bad by exact Hd. reflexivity.
    + rewrite <- string_app_cons, digitsFrom_bad by exact Hd. reflexivity.
Qed.

Lemma Contains_single (c u : ascii) : Contains (String c EmptyString) u = byteEq c u.
Proof. rewrite Contains_cons, Contains_nil. apply orb_false_r. Qed.

Lemma isNumber_allDigits (n : string) : isNumber n = true -> allDigits n = true.
Proof. unfold isNumber. intros H. now apply andb_true_iff in H as [_ H]. Qed.

Lemma optNumber_Some (n : string) :
  optNumber (Some n) = true -> isNumber n = true /\ inInt64 (numberValue n) = true.
Proof. cbn [optNumber]. intros H. now apply andb_true_iff in H. Qed.

Lemma Contains_optField (n : option string) (c u : ascii) :
  optNumber n = true -> isDigit u = false -> byteEq c u = false ->
  Contains (optField n c) u = false.
Proof.
  intros Hn Hu Hc. destruct n as [n|]; [|reflexivity].
  apply optNumber_Some in Hn as [Hn _]. cbn [optField].
  rewrite Contains_app, Contains_single, Hc.
  rewrite allDigits_Contains; [reflexivity | now apply isNumber_allDigits | exact Hu].
Qed.

(** *** The date part *)

Lemma datePartDuration_absent (duration : Duration) :
  datePartDuration EmptyString duration = Ok duration.
Proof. reflexivity. Qed.

Lemma datePartDuration_weeks (n : string) (duration : Duration) :
  isNumber n = true -> inInt64 (numberValue n) = true ->
  datePartDuration (n +:+ "W") duration
  = Ok (add64 duration (mul64 (mul64 (mul64 (numberValue n) 7) 24) Hour)).
Proof.
  intros Hn Hr. unfold datePartDuration.
  rewrite Contains_app, Contains_single, byteEq_refl, orb_true_r.
  rewrite TrimSuffix_snoc, Atoi_number by assumption. reflexivity.
Qed.

Lemma datePartDuration_days (n : string) (duration : Duration) :
  isNumber n = true -> inInt64 (numberValue n) = true ->
  datePartDuration (n +:+ "D") duration
  = Ok (add64 duration (mul64 (mul64 (numberValue n) 24) Hour)).
Proof.
  intros Hn Hr. unfold datePartDuration.
  rewrite !Contains_app, !Contains_single, byteEq_refl, orb_true_r.
  rewrite (allDigits_Contains n "W") by (now apply isNumber_allDigits || reflexivity).
  change (byteEq "D" "W") with false. cbn [orb].
  rewrite TrimSuffix_snoc, Atoi_number by assumption. reflexivity.
Qed.

Lemma datePartDuration_bad_weeks (f : string) (duration : Duration) :
  Atoi f = None -> isOk (datePartDuration (f +:+ "W") duration) = false.
Proof.
  intros Hf. unfold datePartDuration.
  rewrite Contains_app, Contains_single, byteEq_refl, orb_true_r.
  now rewrite TrimSuffix_snoc, Hf.
Qed.

Lemma datePartDuration_bad_days (f : string) (duration : Duration) :
  Contains f "W" = false -> Atoi f = None ->
  isOk (datePartDuration (f +:+ "D") duration) = false.
Proof.
  intros Hw Hf. unfold datePartDuration.
  rewrite !Contains_app, !Contains_single, byteEq_refl, orb_true_r, Hw.
  change (byteEq "D" "W") with false. cbn [orb].
  now rewrite TrimSuffix_snoc, Hf.
Qed.

(** *** The time part *)

Lemma timeField_present (unit : ascii) (scale : Duration) (name : string)
    (duration : Duration) (n rest : string) :
  isDigit unit = false -> isNumber n = true -> inInt64 (numberValue n) = true ->
  timeField unit scale name duration (n +:+ String unit rest)
  = Ok (add64 duration (mul64 (numberValue n) scale), rest).
Proof.
  intros Hu Hn Hr. unfold timeField.
  assert (Hc : Contains n unit = false)
    by (apply allDigits_Contains; [now apply isNumber_allDigits | exact Hu]).
  rewrite Contains_app, Contains_cons, byteEq_refl, orb_true_r.
  cbv zeta. rewrite Index_app by exact Hc.
  rewrite sliceTo_app, sliceFrom_app_1, Atoi_number by assumption. reflexivity.
Qed.

Lemma timeField_absent (unit : ascii) (scale : Duration) (name : string)
    (duration : Duration) (remaining : string) :
  Contains remaining unit = false ->
  timeField unit scale name duration remaining = Ok (duration, remaining).
Proof. intros H. unfold timeField. now rewrite H. Qed.

Lemma timeField_bad (unit : ascii) (scale : Duration) (name : string)
    (duration : Duration) (f rest : string) :
  Contains f unit = false -> Atoi f = None ->
  isOk (timeField unit scale name duration (f +:+ String unit rest)) = false.
Proof.
  intros Hc Hf. unfold timeField.
  rewrite Contains_app, Contains_cons, byteEq_refl, orb_true_r.
  cbv zeta. rewrite Index_app by exact Hc. now rewrite sliceTo_app, Hf.
Qed.

(** An optional field in front of the rest of the time part. *)
Lemma timeField_optField (unit : ascii) (scale : Duration) (name : string)
    (total : Z) (n : option string) (rest : string) :
  isDigit unit = false -> optNumber n = true -> Contains rest unit = false ->
  timeField unit scale name (wrap64 total) (optField n unit +:+ rest)
  = Ok (wrap64 (total + optValue n * scale), rest).
Proof.
  intros Hu Hn Hrest. destruct n as [n|]; cbn [optField optValue].
  - apply optNumber_Some in Hn as [Hn Hr].
    rewrite string_snoc_app, timeField_present by assumption.
    unfold mul64. now rewrite add64_wrap.
  - rewrite string_app_nil_l, timeField_absent by exact Hrest.
    now rewrite Z.mul_0_l, Z.add_0_r.
Qed.

Lemma timePartDuration_fields (timePart : string) (duration : Duration) :
  timePartDuration timePart duration
  = (dr <- timeField "H" Hour "hours" duration timePart ;;
     dr <- timeField "M" Minute "minutes" dr.1 dr.2 ;;
     dr <- timeField "S" Second "seconds" dr.1 dr.2 ;;
     Ok dr.1).
Proof. destruct timePart; reflexivity. Qed.

(** The time part of the grammar. *)
Lemma timePartDuration_grammar (total : Z) (h m s : option string) :
  optNumber h = true -> optNumber m = true -> optNumber s = true ->
  timePartDuration (optField h "H" +:+ optField m "M" +:+ optField s "S") (wrap64 total)
  = Ok (wrap64 (total + optValue h * Hour + optValue m * Minute + optValue s * Second)).
Proof.
  intros Hh Hm Hs. rewrite timePartDuration_fields.
  rewrite timeField_optField; [|reflexivity|exact Hh|].
  2:{ rewrite Contains_app, !Contains_optField by (assumption || reflexivity). reflexivity. }
  cbn [rbind fst snd].
  rewrite timeField_optField; [|reflexivity|exact Hm|].
  2:{ now rewrite Contains_optField by (assumption || reflexivity). }
  cbn [rbind fst snd].
  rewrite <- (string_app_nil_r (optField s "S")).
  rewrite timeField_optField; [|reflexivity|exact Hs|reflexivity].
  reflexivity.
Qed.

(** A unit letter that the remaining text has only behind a byte that is
    no digit: the block fails, or the letter is absent and nothing happens. *)
Lemma indexFrom_offset (s : string) (sep : ascii) :
  forall i, indexFrom 0 s sep <> -1 -> indexFrom i s sep = i + indexFrom 0 s sep.
Proof.
  induction s as [|c r IH]; intros i H; cbn [indexFrom] in *; [congruence|].
  destruct (byteEq c sep); [lia|].
  assert (H0 : indexFrom 0 r sep <> -1).
  { intros E. apply H. apply (indexFrom_shift r sep (0 + 1)); [lia | exact E]. }
  rewrite (IH (i + 1)), (IH (0 + 1)) by exact H0. lia.
Qed.

Lemma Index_nonneg (s : string) (sep : ascii) : Contains s sep = true -> 0 <= Index s sep.
Proof. unfold Contains. apply Z.leb_le. Qed.

Lemma Index_app_skip (a : string) (c sep : ascii) (b : string) :
  Contains a sep = false -> byteEq c sep = false -> Contains b sep = true ->
  Z.to_nat (Index (a +:+ String c b) sep) = (String.length a + S (Z.to_nat (Index b sep)))%nat.
Proof.
  intros Ha Hc Hb. pose proof (Index_nonneg _ _ Hb) as Hpos. unfold Index in *.
  assert (E : forall i, 0 <= i ->
              indexFrom i (a +:+ String c b) sep = i + len a + 1 + indexFrom 0 b sep).
  { clear Hpos. induction a as [|x a IH]; intros i Hi.
    - rewrite string_app_nil_l. cbn [indexFrom]. rewrite Hc.
      rewrite indexFrom_offset.
      + unfold len. cbn [String.length]. lia.
      + pose proof (Index_nonneg _ _ Hb). unfold Index in *. lia.
    - rewrite Contains_cons in Ha. apply orb_false_iff in Ha as [Hx Ha].
      rewrite string_app_cons. cbn [indexFrom]. rewrite Hx, IH by (assumption || lia).
      unfold len. cbn [String.length]. lia. }
  rewrite E by lia. unfold len. lia.
Qed.

Lemma timeField_skip_or_fail (unit : ascii) (scale : Duration) (name : string)
    (duration : Duration) (a : string) (c : ascii) (b : string) :
  Contains a unit = false -> byteEq c unit = false ->
  isDigit c = false -> byteEq c "-" = false -> byteEq c "+" = false ->
  timeField unit scale name duration (a +:+ String c b) = Ok (duration, a +:+ String c b)
  \/ isOk (timeField unit scale name duration (a +:+ String c b)) = false.
Proof.
  intros Ha Hc Hd Hm Hp. unfold timeField.
  destruct (Contains (a +:+ String c b) unit) eqn:E; [right | now left].
  rewrite Contains_app, Contains_cons, Ha, Hc in E. cbn [orb] in E.
  cbv zeta. rewrite Index_app_skip by assumption.
  rewrite sliceTo_app_more. cbn [sliceTo]. now rewrite Atoi_bad.
Qed.

(** The first field of the time part is no number: the part fails. *)
Lemma timePartDuration_bad_hours (f rest : string) (duration : Duration) :
  Contains f "H" = false -> Atoi f = None ->
  isOk (timePartDuration (f +:+ String "H" rest) duration) = false.
Proof.
  intros Hc Hf. rewrite timePartDuration_fields.
  pose proof (timeField_bad "H" Hour "hours" duration f rest Hc Hf) as H.
  destruct (timeField "H" Hour "hours" duration (f +:+ String "H" rest)); [discriminate|].
  reflexivity.
Qed.

Lemma timePartDuration_bad_minutes (h : option string) (f rest : string) (duration : Duration) :
  optNumber h = true ->
  Contains f "H" = false -> Contains f "M" = false -> Atoi f = None ->
  isOk (timePartDuration (optField h "H" +:+ f +:+ String "M" rest) duration) = false.
Proof.
  intros Hh HcH HcM Hf. rewrite timePartDuration_fields.
  assert (Hbad : forall d, isOk (dr <- timeField "M" Minute "minutes" d (f +:+ String "M" rest) ;;
                                 dr <- timeField "S" Second "seconds" dr.1 dr.2 ;;
                                 Ok dr.1) = false).
  { intros d. pose proof (timeField_bad "M" Minute "minutes" d f rest HcM Hf) as H.
    destruct (timeField "M" Minute "minutes" d (f +:+ String "M" rest)); [discriminate|].
    reflexivity. }
  destruct h as [n|]; cbn [optField].
  - apply optNumber_Some in Hh as [Hn Hr].
    rewrite string_snoc_app, timeField_present by (assumption || reflexivity).
    cbn [rbind fst snd]. apply Hbad.
  - rewrite string_app_nil_l.
    destruct (timeField_skip_or_fail "H" Hour "hours" duration f "M" rest HcH
                eq_refl eq_refl eq_refl eq_refl) as [E|E].
    + rewrite E. cbn [rbind fst snd]. apply Hbad.
    + destruct (timeField "H" Hour "hours" duration (f +:+ String "M" rest));
        [discriminate | reflexivity].
Qed.

Lemma timePartDuration_bad_seconds (h m : option string) (f rest : string)
    (duration : Duration) :
  optNumber h = true -> optNumber m = true ->
  Contains f "H" = false -> Contains f "M" = false -> Contains f "S" = false ->
  Atoi f = None ->
  isOk (timePartDuration (optField h "H" +:+ optField m "M" +:+ f +:+ String "S" rest)
          duration) = false.
Proof.
  intros Hh Hm HcH HcM HcS Hf. rewrite timePartDuration_fields.
  assert (HbadS : forall d, isOk (dr <- timeField "S" Second "seconds" d (f +:+ String "S" rest) ;;
                                  Ok dr.1) = false).
  { intros d. pose proof (timeField_bad "S" Second "seconds" d f rest HcS Hf) as H.
    destruct (timeField "S" Second "seconds" d (f +:+ String "S" rest)); [discriminate|].
    reflexivity. }
  assert (HbadM : forall d,
            isOk (dr <- timeField "M" Minute "minutes" d
                          (optField m "M" +:+ f +:+ String "S" rest) ;;
                  dr <- timeField "S" Second "seconds" dr.1 dr.2 ;;
                  Ok dr.1) = false).
  { intros d. destruct m as [n|]; cbn [optField].
    - apply optNumber_Some in Hm as [Hn Hr].
      rewrite string_snoc_app, timeField_present by (assumption || reflexivity).
      cbn [rbind fst snd]. apply HbadS.
    - rewrite string_app_nil_l.
      destruct (timeField_skip_or_fail "M" Minute "minutes" d f "S" rest HcM
                  eq_refl eq_refl eq_refl eq_refl) as [E|E].
      + rewrite E. cbn [rbind fst snd]. apply HbadS.
      + destruct (timeField "M" Minute "minutes" d (f +:+ String "S" rest));
          [discriminate | reflexivity]. }
  destruct h as [n|]; cbn [optField].
  - apply optNumber_Some in Hh as [Hn Hr].
    rewrite string_snoc_app, timeField_present by (assumption || reflexivity).
    cbn [rbind fst snd]. apply HbadM.
  - rewrite string_app_nil_l.
    destruct m as [n|]; cbn [optField] in *.
    + apply optNumber_Some in Hm as [Hn Hr].
      rewrite string_snoc_app in *.
      assert (HnH : Contains n "H" = false)
        by (apply allDigits_Contains; [now apply isNumber_allDigits | reflexivity]).
      destruct (timeField_skip_or_fail "H" Hour "hours" duration n "M"
                  (f +:+ String "S" rest) HnH eq_refl eq_refl eq_refl eq_refl) as [E|E].
      * rewrite E. cbn [rbind fst snd]. apply HbadM.
      * destruct (timeField "H" Hour "hours" duration (n +:+ String "M" (f +:+ String "S" rest)));
          [discriminate | reflexivity].
    + rewrite string_app_nil_l in *.
      destruct (timeField_skip_or_fail "H" Hour "hours" duration f "S" rest HcH
                  eq_refl eq_refl eq_refl eq_refl) as [E|E].
      * rewrite E. cbn [rbind fst snd]. apply HbadM.
      * destruct (timeField "H" Hour "hours" duration (f +:+ String "S" rest));
          [discriminate | reflexivity].
Qed.

(** *** The whole text *)

Lemma parseDuration_parts (negative : bool) (body : string) :
  parseDuration (signText negative +:+ "P" +:+ body)
  = (let parts := Split body "T" in
     duration <- datePartDuration (nth 0 parts EmptyString) 0 ;;
     duration <- timePartDuration
                   (if (1 <? length parts)%nat then nth 1 parts EmptyString else EmptyString)
                   duration ;;
     Ok (if negative then neg64 duration else duration)).
Proof. destruct negative; reflexivity. Qed.

Lemma Split_app_no_sep (a b : string) (sep : ascii) :
  Contains a sep = false ->
  exists h t, Split b sep = h :: t /\ Split (a +:+ b) sep = (a +:+ h) :: t.
Proof.
  induction a as [|c a IH]; intros H.
  - destruct (Split_nonempty b sep) as (h & t & E). exists h, t. now rewrite !string_app_nil_l.
  - rewrite Contains_cons in H. apply orb_false_iff in H as [Hc Ha].
    destruct (IH Ha) as (h & t & E1 & E2). exists h, t. split; [exact E1|].
    rewrite !string_app_cons. cbn [Split]. now rewrite Hc, E2.
Qed.

(** The text behind [P] without a [T]: it is the date part, and there is no
    time part. *)
Lemma parseDuration_date_only (negative : bool) (dp : string) :
  Contains dp "T" = false ->
  parseDuration (signText negative +:+ "P" +:+ dp)
  = (duration <- datePartDuration dp 0 ;;
     Ok (if negative then neg64 duration else duration)).
Proof.
  intros H. rewrite parseDuration_parts, Split_no_sep by exact H.
  cbn [nth length Nat.ltb Nat.leb]. cbv zeta.
  destruct (datePartDuration dp 0); reflexivity.
Qed.

(** The text behind [P] with a [T]: the date part is what stands before the
    first [T], the time part what stands between it and the next. *)
Lemma parseDuration_date_time (negative : bool) (dp r : string) :
  Contains dp "T" = false ->
  exists tp rest,
    Split r "T" = tp :: rest /\
    parseDuration (signText negative +:+ "P" +:+ dp +:+ String "T" r)
    = (duration <- datePartDuration dp 0 ;;
       duration <- timePartDuration tp duration ;;
       Ok (if negative then neg64 duration else duration)).
Proof.
  intros H. destruct (Split_nonempty r "T") as (tp & rest & E).
  exists tp, rest. split; [exact E|].
  rewrite parseDuration_parts, Split_app, E by exact H. reflexivity.
Qed.

Lemma rbind_fail {A B : Type} (r : result A) (k : A -> result B) :
  isOk r = false -> isOk (rbind r k) = false.
Proof. destruct r; [discriminate | reflexivity]. Qed.

Lemma rbind_fail_after {A B : Type} (r : result A) (k : A -> result B) :
  (forall a, isOk (k a) = false) -> isOk (rbind r k) = false.
Proof. intros H. destruct r; [apply H | reflexivity]. Qed.

(** A text whose time part fails for every duration fails. *)
Lemma parseDuration_time_fails (negative : bool) (dp a rest : string) :
  Contains dp "T" = false -> Contains a "T" = false ->
  (forall h duration, isOk (timePartDuration (a +:+ h) duration) = false) ->
  isOk (parseDuration (signText negative +:+ "P" +:+ dp +:+ String "T" (a +:+ rest))) = false.
Proof.
  intros Hdp Ha Hfail.
  destruct (parseDuration_date_time negative dp (a +:+ rest) Hdp) as (tp & tl & E & ->).
  destruct (Split_app_no_sep a rest "T" Ha) as (h & t & _ & E2).
  rewrite E2 in E. injection E as <- _.
  apply rbind_fail_after. intros d. apply rbind_fail. apply Hfail.
Qed.

Lemma parseDuration_weeks (negative : bool) (n : string) :
  isNumber n = true -> inInt64 (numberValue n) = true ->
  parseDuration (weeksText negative n)
  = Ok (wrap64 (signed negative (numberValue n * 7 * 24 * Hour))).
Proof.
  intros Hn Hr. unfold weeksText.
  rewrite parseDuration_date_only.
  - rewrite datePartDuration_weeks, weeks_value by assumption. cbn [rbind].
    destruct negative; cbn [signed]; [rewrite neg64_wrap|]; reflexivity.
  - rewrite Contains_app, Contains_single.
    rewrite allDigits_Contains by (now apply isNumber_allDigits || reflexivity).
    reflexivity.
Qed.

Lemma parseDuration_dayTime (negative : bool) (d : option string)
    (t : option (option string * option string * option string)) :
  optNumber d = true -> timeNumbers t = true ->
  parseDuration (dayTimeText negative d t)
  = Ok (wrap64 (signed negative (optValue d * 24 * Hour + timeValue t))).
Proof.
  intros Hd Ht. unfold dayTimeText.
  assert (HdT : Contains (optField d "D") "T" = false)
    by (apply Contains_optField; [exact Hd | reflexivity | reflexivity]).
  assert (Hdate : datePartDuration (optField d "D") 0 = Ok (wrap64 (optValue d * 24 * Hour))).
  { destruct d as [n|]; cbn [optField optValue]; [|reflexivity].
    apply optNumber_Some in Hd as [Hn Hr].
    now rewrite datePartDuration_days, days_value by assumption. }
  destruct t as [[[h m] s]|]; cbn [timeNumbers timeValue] in *.
  - apply andb_true_iff in Ht as [Ht Hs]. apply andb_true_iff in Ht as [Hh Hm].
    change ("T" +:+ optField h "H" +:+ optField m "M" +:+ optField s "S")
      with (String "T" (optField h "H" +:+ optField m "M" +:+ optField s "S")).
    destruct (parseDuration_date_time negative (optField d "D")
                (optField h "H" +:+ optField m "M" +:+ optField s "S") HdT)
      as (tp & tl & E & ->).
    rewrite Split_no_sep in E.
    2:{ rewrite !Contains_app, !Contains_optField by (assumption || reflexivity).
        reflexivity. }
    injection E as <- _.
    rewrite Hdate. cbn [rbind].
    rewrite timePartDuration_grammar by assumption. cbn [rbind].
    rewrite <- !Z.add_assoc.
    destruct negative; cbn [signed]; [rewrite neg64_wrap|]; reflexivity.
  - rewrite string_app_nil_r, parseDuration_date_only by exact HdT.
    rewrite Hdate. cbn [rbind]. rewrite Z.add_0_r.
    destruct negative; cbn [signed]; [rewrite neg64_wrap|]; reflexivity.
Qed.

Lemma parseDuration_bad_date (negative : bool) (dp : string) (t : option string) :
  Contains dp "T" = false -> isOk (datePartDuration dp 0) = false ->
  isOk (parseDuration (signText negative +:+ "P" +:+ dp +:+ timeTail t)) = false.
Proof.
  intros HT Hbad. destruct t as [r|]; cbn [timeTail].
  - destruct (parseDuration_date_time negative dp r HT) as (tp & tl & _ & ->).
    now apply rbind_fail.
  - rewrite string_app_nil_r, parseDuration_date_only by exact HT. now apply rbind_fail.
Qed.

(** C6, as amended.  The duration parser accepts every text of the grammar
    [[-]P n W] and [[-]P [n D] [T [n H] [n M] [n S]]], where each [n] is a
    run of decimal digits whose value fits an [int], and returns the
    corresponding signed duration, reduced to 64 bits (unchanged when it
    fits).  It fails when the text starts with neither [P] nor [-P]; when
    the date part (the text before the first [T]) ends in [W], or in [D]
    without a [W] before it, and what stands in front of that letter is no
    integer; and when in the time part the text in front of the first [H],
    of an [M] behind the hours field, or of an [S] behind the hours and
    minutes fields, is no integer.  (It accepts more than the grammar: a
    letter it does not look for is passed over.) *)
Theorem parseDuration_grammar_and_failures :
  (forall negative n,
      isNumber n = true -> inInt64 (numberValue n) = true ->
      parseDuration (weeksText negative n)
      = Ok (wrap64 (signed negative (numberValue n * 7 * 24 * Hour))))
  /\ (forall negative d t,
        optNumber d = true -> timeNumbers t = true ->
        parseDuration (dayTimeText negative d t)
        = Ok (wrap64 (signed negative (optValue d * 24 * Hour + timeValue t))))
  /\ (forall z, inInt64 z = true -> wrap64 z = z)
  /\ (forall value,
        HasPrefix value "P" = false -> HasPrefix value "-P" = false ->
        isOk (parseDuration value) = false)
  /\ (forall negative f t,
        Contains f "T" = false -> Atoi f = None ->
        isOk (parseDuration (signText negative +:+ "P" +:+ (f +:+ "W") +:+ timeTail t)) = false)
  /\ (forall negative f t,
        Contains f "T" = false -> Contains f "W" = false -> Atoi f = None ->
        isOk (parseDuration (signText negative +:+ "P" +:+ (f +:+ "D") +:+ timeTail t)) = false)
  /\ (forall negative dp f rest,
        Contains dp "T" = false -> Contains f "T" = false ->
        Contains f "H" = false -> Atoi f = None ->
        isOk (parseDuration
                (signText negative +:+ "P" +:+ dp +:+ String "T" ((f +:+ "H") +:+ rest)))
        = false)
  /\ (forall negative dp h f rest,
        Contains dp "T" = false -> optNumber h = true -> Contains f "T" = false ->
        Contains f "H" = false -> Contains f "M" = false -> Atoi f = None ->
        isOk (parseDuration
                (signText negative +:+ "P" +:+ dp +:+
                 String "T" ((optField h "H" +:+ f +:+ "M") +:+ rest)))
        = false)
  /\ (forall negative dp h m f rest,
        Contains dp "T" = false -> optNumber h = true -> optNumber m = true ->
        Contains f "T" = false -> Contains f "H" = false -> Contains f "M" = false ->
        Contains f "S" = false -> Atoi f = None ->
        isOk (parseDuration
                (signText negative +:+ "P" +:+ dp +:+
                 String "T" ((optField h "H" +:+ optField m "M" +:+ f +:+ "S") +:+ rest)))
        = false).
Proof.
  split; [exact parseDuration_weeks|].
  split; [exact parseDuration_dayTime|].
  split; [exact wrap64_small|].
  split.
  { intros value H1 H2. unfold parseDuration. now rewrite H1, H2. }
  split.
  { intros negative f t HT Hf. apply parseDuration_bad_date.
    - now rewrite Contains_app, Contains_single, HT.
    - now apply datePartDuration_bad_weeks. }
  split.
  { intros negative f t HT HW Hf. apply parseDuration_bad_date.
    - now rewrite Contains_app, Contains_single, HT.
    - now apply datePartDuration_bad_days. }
  split.
  { intros negative dp f rest Hdp HT HH Hf. apply parseDuration_time_fails.
    - exact Hdp.
    - now rewrite Contains_app, Contains_single, HT.
    - intros h duration. rewrite string_snoc_app.
      now apply timePartDuration_bad_hours. }
  split.
  { intros negative dp h f rest Hdp Hh HT HH HM Hf. apply parseDuration_time_fails.
    - exact Hdp.
    - rewrite !Contains_app, Contains_single, HT.
      now rewrite Contains_optField by (assumption || reflexivity).
    - intros h0 duration. rewrite !string_app_assoc, string_app_cons, string_app_nil_l.
      now apply timePartDuration_bad_minutes. }
  intros negative dp h m f rest Hdp Hh Hm HT HH HM HS Hf. apply parseDuration_time_fails.
  - exact Hdp.
  - rewrite !Contains_app, Contains_single, HT.
    now rewrite !Contains_optField by (assumption || reflexivity).
  - intros h0 duration. rewrite !string_app_assoc, string_app_cons, string_app_nil_l.
    now apply timePartDuration_bad_seconds.
Qed.

(** One day, two hours, three minutes and four seconds. *)
Lemma parseDuration_grammar_witness : parseDuration "P1DT2H3M4S" = Ok 93784000000000.
Proof.
  destruct parseDuration_grammar_and_failures as (_ & H & _).
  exact (H false (Some "1") (Some (Some "2", Some "3", Some "4")) eq_refl eq_refl).
Defined.

(** C6 as stated fails: in [PH] the unit letter [H] has no number in front
    of it and the text is not of the grammar, yet the parser accepts it, as
    the zero duration. *)
Lemma parseDuration_accepts_PH :
  parseDuration ("P" +:+ EmptyString +:+ "H") = Ok 0 /\ durationGrammar "PH" = false.
Proof. split; reflexivity. Qed.

End DurationFacts.

(** ** Time: locations and instants *)

Section TimeFacts.

Import GoTime.

Lemma Date_loc (year month day hour min sec nsec : Z) (l : Location) :
  loc (Date year month day hour min sec nsec l) = l.
Proof. unfold Date. destruct (lookup l _) as [[offset start] end_]. reflexivity. Qed.

Lemma parse_loc (layout : list chunk) (value : string) (l : Location) (t : Time) :
  parse layout value l = Ok t -> loc t = l.
Proof.
  unfold parse. destruct (parseChunks layout noFields value) as [f|e]; cbn [rbind]; [|discriminate].
  destruct (_ || _); [discriminate|]. intros [= <-]. apply Date_loc.
Qed.

Lemma Add_unixNano (t : Time) (d : Duration) : unixNano (Add t d) = unixNano t + d.
Proof. reflexivity. Qed.

(** [Sub] is the difference of the instants when that fits a [Duration]. *)
Lemma Sub_exact (t u : Time) :
  GoInt.inInt64 (unixNano t - unixNano u) = true -> Sub t u = unixNano t - unixNano u.
Proof.
  intros H. unfold Sub. rewrite (wrap64_small _ H).
  unfold Equal, Add. cbn [unixNano].
  replace (unixNano u + (unixNano t - unixNano u)) with (unixNano t) by lia.
  now rewrite Z.eqb_refl.
Qed.

End TimeFacts.

(** ** Building occurrences (client.go and recurring.go) *)

Section Occurrences.

Import GoTime Ical Caldav Spec.

Variable LoadLocation : string -> option GoTime.Location.
Variable NewRRule : string -> result RRule.

Lemma parseDateTime_loc (c : Client) (prop : Property) (t : Time) (allDay : bool) :
  parseDateTime LoadLocation c prop = Ok (t, allDay) -> loc t = timezone c.
Proof.
  unfold parseDateTime. destruct (String.eqb _ "DATE").
  - destruct (ParseInLocation layoutDate (propValue prop) (timezone c)) as [t0|e] eqn:E;
      cbn [rbind]; [|discriminate].
    intros [= <- _]. exact (parse_loc _ _ _ _ E).
  - match goal with |- rbind ?r _ = _ -> _ => destruct r as [t0|e] end;
      cbn [rbind]; [|discriminate].
    intros [= <- _]. reflexivity.
Qed.

(** The occurrence the loop of [expandRecurringEvent] builds for a candidate
    start, when it keeps it. *)
Lemma expand_omap (c : Client) (uid summary description location : string) (allDay : bool)
    (duration : Duration) (queryStart queryEnd : Time) (occurrences : list Time) :
  let build := fun occurrence =>
    let occStart := In occurrence (timezone c) in
    let occEnd := Add occStart duration in
    if Before occEnd queryStart || After occStart queryEnd then None
    else Some (mkEvent (uid +:+ "_" +:+ Format occStart layoutDateTime)
                 summary description location occStart occEnd allDay
                 (calendarName c) (calendarColor c) true) in
  Start <$> omap build occurrences
  = (fun occ => In occ (timezone c))
      <$> filter (fun occ => touches queryStart queryEnd duration occ = true) occurrences
  /\ Forall (fun e => End e = Add (Start e) duration /\ inZone (timezone c) e
                      /\ IsRecurring e = true)
       (omap build occurrences).
Proof.
  intros build. induction occurrences as [|occ l [IH1 IH2]]; [split; [reflexivity|constructor]|].
  cbn [omap list_omap]. rewrite filter_cons.
  assert (Hk : build occ = None /\ touches queryStart queryEnd duration occ = false
               \/ exists e, build occ = Some e /\ touches queryStart queryEnd duration occ = true
                            /\ Start e = In occ (timezone c)
                            /\ End e = Add (Start e) duration /\ inZone (timezone c) e
                            /\ IsRecurring e = true).
  { unfold build, touches, Before, After, Add, In. cbn [unixNano].
    destruct (Z.ltb_spec (unixNano occ + duration) (unixNano queryStart));
      destruct (Z.ltb_spec (unixNano queryEnd) (unixNano occ)); cbn [orb];
      destruct (Z.leb_spec (unixNano queryStart) (unixNano occ + duration));
      destruct (Z.leb_spec (unixNano occ) (unixNano queryEnd)); try lia;
      cbn [andb]; try (left; split; reflexivity).
    right. eexists. split; [reflexivity|]. cbn. repeat split. }
  destruct Hk as [[-> Ht]|(e & -> & Ht & Hs & He & Hz & Hr)].
  - rewrite decide_False by (rewrite Ht; discriminate). split; assumption.
  - rewrite decide_True by exact Ht. split.
    + cbn [fmap list_fmap]. f_equal; [exact Hs | exact IH1].
    + constructor; [repeat split; try assumption; apply Hz | exact IH2].
Qed.

Lemma expandRecurringEvent_Ok (c : Client) (comp : Component)
    (uid summary description location : string) (startTime endTime : Time) (allDay : bool)
    (queryStart queryEnd : Time) (events : list Event) (log : Log) :
  expandRecurringEvent NewRRule c comp uid summary description location startTime endTime
    allDay queryStart queryEnd = (Ok events, log) ->
  exists rruleProp rule,
    PropsGet (compProps comp) "RRULE" = Some rruleProp
    /\ NewRRule (rruleText startTime allDay (propValue rruleProp)) = Ok rule
    /\ log = (exdatesOf c comp).2
    /\ Start <$> events
       = (fun occ => In occ (timezone c))
           <$> filter (fun occ => touches queryStart queryEnd (Sub endTime startTime) occ = true)
                 (candidates rule (exdatesOf c comp).1 queryStart queryEnd)
    /\ Forall (fun e => End e = Add (Start e) (Sub endTime startTime)
                        /\ inZone (timezone c) e /\ IsRecurring e = true) events.
Proof.
  unfold expandRecurringEvent.
  destruct (PropsGet (compProps comp) "RRULE") as [rruleProp|]; [|discriminate].
  destruct (NewRRule _) as [rule|e] eqn:Hrule; [|discriminate].
  destruct (exdatesOf c comp) as [exdates lines] eqn:Hex.
  intros [= <- <-]. exists rruleProp, rule.
  split; [reflexivity|]. split; [exact Hrule|]. split; [reflexivity|].
  apply expand_omap.
Qed.

Lemma parseEvent_inZone (c : Client) (comp : Component) (queryStart queryEnd : Time)
    (events : list Event) (log : Log) :
  parseEvent LoadLocation NewRRule c comp queryStart queryEnd = (Ok events, log) ->
  Forall (inZone (timezone c)) events.
Proof.
  unfold parseEvent.
  destruct (PropsGet (compProps comp) "UID") as [uid|]; [|discriminate].
  destruct (PropsGet (compProps comp) "DTSTART") as [dtstart|]; [|discriminate].
  destruct (parseDateTime LoadLocation c dtstart) as [[startTime allDay]|e] eqn:Hstart;
    [|discriminate].
  apply parseDateTime_loc in Hstart.
  match goal with
  | |- match ?r with Ok _ => _ | Err _ => _ end = _ -> _ =>
      assert (Hend : forall t, r = Ok t -> loc t = timezone c); [|destruct r as [endTime|e]]
  end.
  { destruct (PropsGet (compProps comp) "DTEND") as [dtend|].
    - destruct (parseDateTime LoadLocation c dtend) as [[t0 a0]|e] eqn:Hdt; [|discriminate].
      intros t [= <-]. exact (parseDateTime_loc _ _ _ _ Hdt).
    - destruct (PropsGet (compProps comp) "DURATION") as [duration|].
      + destruct (parseDuration (propValue duration)); [|discriminate].
        intros t [= <-]. exact Hstart.
      + destruct allDay; intros t [= <-]; exact Hstart. }
  2:{ discriminate. }
  specialize (Hend endTime eq_refl).
  destruct (PropsGet (compProps comp) "RRULE").
  - intros H. apply expandRecurringEvent_Ok in H as (_ & _ & _ & _ & _ & _ & H).
    eapply Forall_impl; [exact H|]. intros e (_ & Hz & _). exact Hz.
  - intros [= <- _]. constructor; [split; assumption | constructor].
Qed.

Lemma parseChildren_inZone (c : Client) (queryStart queryEnd : Time) (children : list Component) :
  Forall (inZone (timezone c))
    (parseChildren LoadLocation NewRRule c children queryStart queryEnd).1.
Proof.
  induction children as [|comp rest IH]; cbn [parseChildren]; [constructor|].
  destruct (negb _); [exact IH|].
  destruct (parseEvent LoadLocation NewRRule c comp queryStart queryEnd) as [parsed log1] eqn:E.
  destruct (parseChildren LoadLocation NewRRule c rest queryStart queryEnd) as [events log2].
  cbn [fst] in IH. destruct parsed as [event|e]; cbn [fst]; [|exact IH].
  apply Forall_app. split; [exact (parseEvent_inZone _ _ _ _ _ _ E) | exact IH].
Qed.

Lemma parseObjects_inZone (c : Client) (start end_ : Time) (objects : list CalendarObject) :
  Forall (inZone (timezone c)) (parseObjects LoadLocation NewRRule c objects start end_).1.
Proof.
  induction objects as [|obj rest IH]; cbn [parseObjects]; [constructor|].
  destruct (parseCalendarObject LoadLocation NewRRule c obj start end_) as [parsed log1] eqn:E.
  destruct (parseObjects LoadLocation NewRRule c rest start end_) as [events log2].
  cbn [fst] in IH. destruct parsed as [parsedEvents|e]; cbn [fst]; [|exact IH].
  apply Forall_app. split; [|exact IH].
  unfold parseCalendarObject in E. destruct (objData obj) as [cal|]; [|discriminate].
  pose proof (parseChildren_inZone c start end_ (calChildren cal)) as H.
  destruct (parseChildren _ _ _ _ _ _) as [evs lg]. injection E as <- _. exact H.
Qed.

Lemma FetchEvents_inZone (c : Client) (start end_ : Time) (events : list Event) (log : Log) :
  FetchEvents LoadLocation NewRRule c start end_ = (Ok events, log) ->
  Forall (inZone (timezone c)) events.
Proof.
  unfold FetchEvents. destruct (QueryCalendar c start end_) as [objects|e]; [|discriminate].
  pose proof (parseObjects_inZone c start end_ objects) as H.
  destruct (parseObjects _ _ _ _ _ _) as [evs lg]. intros [= <- _].
  cbn [fst] in H. now rewrite <- sortEvents_Permutation.
Qed.

End Occurrences.

(** ** Occurrences and the query window *)

Section OccurrenceClaims.

Import GoTime Ical Caldav Spec.

Lemma not_intersects_from_end (s e queryStart queryEnd : Z) :
  queryEnd <= s -> ~ intersects s e queryStart queryEnd.
Proof. intros H (x & Hx & Hq). lia. Qed.

(** C2, as amended.  For a recurring series and a query window, every
    occurrence the expansion returns ends at its start plus the duration of
    the series, which is the end of the series minus its start (cut to the
    range of a duration when it does not fit, about 292 years).  Of the
    candidate starts it enumerates (the occurrences of the rule set in the
    window widened by 30 days, the first 1000 of them) it returns, in their
    order, exactly those whose occurrence ends no earlier than [queryStart]
    and starts no later than [queryEnd]: an occurrence that touches either
    bound of the window is kept. *)
Theorem expandRecurringEvent_window (NewRRule : string -> result RRule)
    (c : Client) (comp : Component) (uid summary description location : string)
    (startTime endTime : Time) (allDay : bool) (queryStart queryEnd : Time)
    (events : list Event) (log : Log) :
  expandRecurringEvent NewRRule c comp uid summary description location startTime endTime
    allDay queryStart queryEnd = (Ok events, log) ->
  exists rruleProp rule,
    PropsGet (compProps comp) "RRULE" = Some rruleProp
    /\ NewRRule (rruleText startTime allDay (propValue rruleProp)) = Ok rule
    /\ Start <$> events
       = (fun occ => In occ (timezone c))
           <$> filter (fun occ => touches queryStart queryEnd (Sub endTime startTime) occ = true)
                 (candidates rule (exdatesOf c comp).1 queryStart queryEnd)
    /\ Forall (fun e => End e = Add (Start e) (Sub endTime startTime)) events
    /\ (GoInt.inInt64 (unixNano endTime - unixNano startTime) = true ->
        Sub endTime startTime = unixNano endTime - unixNano startTime).
Proof.
  intros H. apply expandRecurringEvent_Ok in H as (rruleProp & rule & H1 & H2 & _ & H3 & H4).
  exists rruleProp, rule. repeat split; try assumption.
  - eapply Forall_impl; [exact H4|]. intros e (He & _). exact He.
  - apply Sub_exact.
Qed.

(** The hourly series in the window from 09:00 to 11:00: every occurrence
    lasts the hour of the series. *)
Lemma expandRecurringEvent_window_witness :
  Forall (fun e => End e = Add (Start e) Hour) (eventsOf Examples.expandedSeries.1).
Proof.
  assert (E : Examples.expandedSeries
              = (Ok (eventsOf Examples.expandedSeries.1), Examples.expandedSeries.2))
    by (vm_compute; reflexivity).
  destruct (expandRecurringEvent_window _ _ _ _ _ _ _ _ _ _ _ _ _ _ E)
    as (rruleProp & rule & _ & _ & _ & H & _).
  exact H.
Defined.

(** C2 as stated fails: for the window from 09:00 to 11:00 the expansion
    returns the occurrence that starts at 11:00, at the end of the window,
    and it does not intersect [[queryStart, queryEnd)]. *)
Lemma expandRecurringEvent_keeps_start_at_queryEnd :
  exists e,
    eventsOf Examples.expandedSeries.1 !! 2%nat = Some e
    /\ Start e = Examples.elevenOClock
    /\ ~ intersects (unixNano (Start e)) (unixNano (End e))
           (unixNano Examples.nineOClock) (unixNano Examples.elevenOClock).
Proof.
  eexists. split; [vm_compute; reflexivity|]. split; [reflexivity|].
  apply not_intersects_from_end. vm_compute. discriminate.
Qed.

End OccurrenceClaims.

(** ** Where the code departs from the specification *)

Section Divergences.

Import GoTime Ical Caldav Api Spec Examples.

(** C1. Two sources: B cannot be reached, C answers with no event.  One of
    two fetches failed, so the request should succeed with the (empty)
    result of C; whatever the order in which the fetches finish, the
    handler answers with the error meant for the case that all sources
    failed. *)
Theorem GetEvents_error_though_a_source_survives :
  FetchEvents noZones hourlyRules sourceEmpty
    (Date 2026 1 5 0 0 0 0 Rome) (Add (Date 2026 1 5 0 0 0 0 Rome) (24 * Hour)) = (Ok [], [])
  /\ response (GetEvents noZones hourlyRules twoSources "2026-01-05" "2026-01-05"
                 [sourceDown; sourceEmpty])
     = JSONError 500 "failed to fetch events: [calendar B: failed to query calendar B: timeout]"
  /\ response (GetEvents noZones hourlyRules twoSources "2026-01-05" "2026-01-05"
                 [sourceEmpty; sourceDown])
     = JSONError 500 "failed to fetch events: [calendar B: failed to query calendar B: timeout]".
Proof. repeat split; vm_compute; reflexivity. Qed.

(** C3. An all-day event on 2026-10-25 without end or duration, shown in
    Rome: the day has 25 hours, the end the code gives it is 24 hours after
    its start, at 23:00 of the same day, and not one calendar day after it,
    at 00:00 of 2026-10-26. *)
Theorem parseEvent_all_day_end_on_switch_day :
  exists e,
    parseEvent noZones hourlyRules sourceA switchDay nineOClock tenOClock = (Ok [e], [])
    /\ AllDay e = true
    /\ Format (Start e) layoutDateTime = "20261025T000000"
    /\ End e = Add (Start e) (24 * Hour)
    /\ Format (End e) layoutDateTime = "20261025T230000"
    /\ Format (AddDate (Start e) 0 0 1) layoutDateTime = "20261026T000000"
    /\ Equal (End e) (AddDate (Start e) 0 0 1) = false.
Proof. eexists. repeat split; vm_compute; reflexivity. Qed.

(** C5. The exclusion date [20260105T090000Z] names 09:00 UTC, and as the
    value of a date-time property it is read so; [parseICalDate] reads it
    as 09:00 on the wall clock of Rome, one hour earlier.  In the hourly
    series (08:00, 09:00, 10:00, 11:00 UTC) the expansion therefore drops
    the occurrence of 08:00 UTC and keeps the one of 09:00 UTC that the
    entry excludes. *)
Theorem parseICalDate_reads_UTC_marker_as_local :
  parseDateTime noZones sourceA (property "EXDATE" "20260105T090000Z")
  = Ok (mkTime 1767603600000000000 Rome, false)
  /\ parseICalDate "20260105T090000Z" Rome = Ok (mkTime 1767600000000000000 Rome)
  /\ (Start <$> eventsOf (expandRecurringEvent hourlyRules sourceA hourlySeries "series"
                            "Stand, up" EmptyString EmptyString nineOClock tenOClock false
                            nineOClock twelveOClock).1)
     = [mkTime 1767600000000000000 Rome; mkTime 1767603600000000000 Rome;
        mkTime 1767607200000000000 Rome; mkTime 1767610800000000000 Rome]
  /\ (Start <$> eventsOf (expandRecurringEvent hourlyRules sourceA excludedSeries "series"
                            "Stand, up" EmptyString EmptyString nineOClock tenOClock false
                            nineOClock twelveOClock).1)
     = [mkTime 1767603600000000000 Rome; mkTime 1767607200000000000 Rome;
        mkTime 1767610800000000000 Rome].
Proof. repeat split; vm_compute; reflexivity. Qed.

(** C9. One event, from 23:00 on 2026-01-31 to 01:00 on 2026-02-01, is
    fetched for February 2026: the day the handler reports is 31, the day
    of January on which the event starts, and not a day of February. *)
Theorem GetEventsMonth_reports_day_of_other_month :
  let out := GetEventsMonth noZones hourlyRules nightHandler "2026" "2" [sourceNight] in
  (fun '(name, s, e) => (name, Format s layoutDateTime, Format e layoutDateTime)) <$> fetches out
  = [("N", "20260201T000000", "20260301T000000")]
  /\ response out = JSONDays {[ 31 ]}
  /\ daysIn 2 2026 = 28.
Proof. repeat split; vm_compute; reflexivity. Qed.

(** C10. A request for the single day 2026-10-25, shown in Rome: the
    window handed to the fetch ends 24 hours after the start of that day, at
    23:00 of the same day, and not at 00:00 of 2026-10-26; the last hour of
    the end date is outside the window. *)
Theorem GetEvents_window_on_switch_day :
  exists start end_,
    fetches (GetEvents noZones hourlyRules oneSource "2026-10-25" "2026-10-25" [sourceA])
    = [("A", start, end_)]
    /\ Format start layoutDateTime = "20261025T000000"
    /\ Format end_ layoutDateTime = "20261025T230000"
    /\ ParseInLocation layoutISODate "2026-10-26" Rome = Ok (Add end_ Hour)
    /\ Before end_ (Date 2026 10 26 0 0 0 0 Rome) = true.
Proof. eexists _, _. repeat split; vm_compute; reflexivity. Qed.

End Divergences.

(** ** The handlers (handler.go) *)

Section Handlers.

Import GoTime Ical Caldav Api Spec.

Variable LoadLocation : string -> option GoTime.Location.
Variable NewRRule : string -> result RRule.

Lemma fetchAll_cons (c : Client) (rest : list Client) (start end_ : Time) :
  fetchAll LoadLocation NewRRule (c :: rest) start end_
  = FetchEvents LoadLocation NewRRule c start end_
    :: fetchAll LoadLocation NewRRule rest start end_.
Proof. reflexivity. Qed.

Lemma collect_events (done : list Client) (start end_ : Time) :
  forall allEvents errs log,
    (collect LoadLocation NewRRule done start end_ allEvents errs log).1.1
    = allEvents ++ merged (fetchAll LoadLocation NewRRule done start end_).
Proof.
  induction done as [|c rest IH]; intros allEvents errs log; cbn [collect].
  - cbn. now rewrite app_nil_r.
  - unfold fetchAll, merged. cbn [fmap list_fmap concat].
    destruct (FetchEvents LoadLocation NewRRule c start end_) as [[events|e] lines];
      rewrite IH; cbn [fst eventsOf]; [now rewrite app_assoc | reflexivity].
Qed.

Lemma collect_errs (done : list Client) (start end_ : Time) :
  forall allEvents errs log,
    length (collect LoadLocation NewRRule done start end_ allEvents errs log).1.2
    = (length errs
       + length (filter (fun r => failed r = true)
                   (fetchAll LoadLocation NewRRule done start end_)))%nat.
Proof.
  induction done as [|c rest IH]; intros allEvents errs log; cbn [collect].
  - cbn. lia.
  - rewrite fetchAll_cons, filter_cons.
    destruct (FetchEvents LoadLocation NewRRule c start end_) as [[events|e] lines];
      rewrite IH.
    + rewrite decide_False by discriminate. reflexivity.
    + rewrite decide_True by reflexivity. rewrite length_app. cbn [length]. lia.
Qed.

(** The query window of [GetEvents]: both dates are read as midnight in
    the display timezone, and 24 hours are added to the second. *)
Lemma GetEvents_window (h : Handler) (startStr endStr : string) (done : list Client)
    (start end_ : Time) :
  startStr <> EmptyString -> endStr <> EmptyString ->
  ParseInLocation layoutISODate startStr (hTimezone h) = Ok start ->
  ParseInLocation layoutISODate endStr (hTimezone h) = Ok end_ ->
  fetches (GetEvents LoadLocation NewRRule h startStr endStr done)
  = (fun c => (calendarName c, start, Add end_ (24 * Hour))) <$> done.
Proof.
  intros Hs He Ps Pe. unfold GetEvents.
  rewrite (proj2 (String.eqb_neq _ _) Hs), (proj2 (String.eqb_neq _ _) He). cbn [orb].
  rewrite Ps, Pe.
  destruct (collect _ _ _ _ _ _ _ _) as [[allEvents errs] log].
  destruct (_ && _); reflexivity.
Qed.

(** The answer of [GetEvents] to a request with valid dates: the error when
    a fetch has failed and no event was collected, and otherwise the events
    of the sources that answered, sorted. *)
Lemma GetEvents_response (h : Handler) (startStr endStr : string) (done : list Client)
    (start end_ : Time) :
  startStr <> EmptyString -> endStr <> EmptyString ->
  ParseInLocation layoutISODate startStr (hTimezone h) = Ok start ->
  ParseInLocation layoutISODate endStr (hTimezone h) = Ok end_ ->
  let fetched := fetchAll LoadLocation NewRRule done start (Add end_ (24 * Hour)) in
  if existsb failed fetched && bool_decide (merged fetched = [])
  then exists message,
      response (GetEvents LoadLocation NewRRule h startStr endStr done) = JSONError 500 message
  else response (GetEvents LoadLocation NewRRule h startStr endStr done)
       = JSONEvents (sortEvents (merged fetched)).
Proof.
  intros Hs He Ps Pe fetched. unfold GetEvents.
  rewrite (proj2 (String.eqb_neq _ _) Hs), (proj2 (String.eqb_neq _ _) He). cbn [orb].
  rewrite Ps, Pe.
  pose proof (collect_events done start (Add end_ (24 * Hour)) [] [] []) as Hev.
  pose proof (collect_errs done start (Add end_ (24 * Hour)) [] [] []) as Her.
  destruct (collect _ _ _ _ _ _ _ _) as [[allEvents errs] log].
  cbn [fst snd app length] in Hev, Her. fold fetched in Hev, Her. subst allEvents.
  assert (E1 : (0 <? length errs)%nat = existsb failed fetched).
  { rewrite Her. clear. induction fetched as [|r l IH]; [reflexivity|].
    rewrite filter_cons. cbn [existsb]. destruct (failed r) eqn:F.
    - rewrite decide_True by reflexivity. reflexivity.
    - rewrite decide_False by discriminate. exact IH. }
  assert (E2 : (length (merged fetched) =? 0)%nat = bool_decide (merged fetched = [])).
  { destruct (merged fetched); reflexivity. }
  rewrite E1, E2. destruct (_ && _); [eexists|]; reflexivity.
Qed.

Lemma merged_Forall (P : Event -> Prop) (done : list Client) (start end_ : Time) :
  (forall c events log, c ∈ done ->
     FetchEvents LoadLocation NewRRule c start end_ = (Ok events, log) -> Forall P events) ->
  Forall P (merged (fetchAll LoadLocation NewRRule done start end_)).
Proof.
  induction done as [|c rest IH]; intros H; [constructor|].
  rewrite fetchAll_cons. unfold merged. cbn [fmap list_fmap concat].
  apply Forall_app. split.
  - destruct (FetchEvents LoadLocation NewRRule c start end_) as [[events|e] lines] eqn:E;
      cbn [fst eventsOf]; [|constructor].
    eapply H; [left | exact E].
  - apply IH. intros c' events log Hc. apply H. now right.
Qed.

(** The events [GetEvents] answers with are the sorted merge of a fetch of
    every client. *)
Lemma GetEvents_events (h : Handler) (startStr endStr : string) (done : list Client)
    (events : list Event) :
  response (GetEvents LoadLocation NewRRule h startStr endStr done) = JSONEvents events ->
  exists start end_, events = sortEvents (merged (fetchAll LoadLocation NewRRule done start end_)).
Proof.
  unfold GetEvents. destruct (_ || _); [discriminate|].
  destruct (ParseInLocation layoutISODate startStr (hTimezone h)) as [start|e]; [|discriminate].
  destruct (ParseInLocation layoutISODate endStr (hTimezone h)) as [end_|e]; [|discriminate].
  pose proof (collect_events done start (Add end_ (24 * Hour)) [] [] []) as Hev.
  destruct (collect _ _ _ _ _ _ _ _) as [[allEvents errs] log].
  cbn [fst snd app] in Hev. subst allEvents.
  destruct (_ && _); [discriminate|]. intros [= <-]. eauto.
Qed.

Lemma newClients_timezone (tz : GoTime.Location) (calendars : list CalendarConfig) :
  forall clients, newClients calendars tz = Ok clients ->
                  Forall (fun c => timezone c = tz) clients.
Proof.
  induction calendars as [|cal rest IH]; intros clients; cbn [newClients].
  - intros [= <-]. constructor.
  - unfold NewClient. destruct (GetPassword cal); [|discriminate].
    destruct (newClients rest tz) as [cs|e]; cbn [rbind]; [|discriminate].
    intros [= <-]. constructor; [reflexivity | now apply IH].
Qed.

(** Every occurrence a handler made by [NewHandler] returns is in the one
    display timezone it was made for. *)
Lemma GetEvents_inZone (tz : GoTime.Location) (calendars : list CalendarConfig) (h : Handler)
    (startStr endStr : string) (done : list Client) (events : list Event) :
  NewHandler tz calendars = Ok h -> schedule h done ->
  response (GetEvents LoadLocation NewRRule h startStr endStr done) = JSONEvents events ->
  Forall (inZone tz) events.
Proof.
  unfold NewHandler, schedule.
  destruct (newClients calendars tz) as [cs|e] eqn:E; cbn [rbind]; [|discriminate].
  intros [= <-] Hperm Hresp. cbn [clients] in Hperm.
  apply newClients_timezone in E. rewrite Hperm in E.
  apply GetEvents_events in Hresp as (start & end_ & ->).
  rewrite <- sortEvents_Permutation.
  apply merged_Forall. intros c events log Hc Hf.
  rewrite Forall_forall in E. rewrite <- (E c Hc).
  exact (FetchEvents_inZone LoadLocation NewRRule c start end_ events log Hf).
Qed.

(** The loop over the days of a timed event ends within its fuel: more fuel
    changes nothing. *)
Lemma spanDays_fuel (eventEnd : Time) (month : Z) (fuel : nat) :
  forall d daysSet extra,
    (unixNano eventEnd - unixNano d) / (24 * Hour) + 1 <= Z.of_nat fuel ->
    spanDays (fuel + extra) d eventEnd month daysSet = spanDays fuel d eventEnd month daysSet.
Proof.
  change (24 * Hour) with 86400000000000.
  induction fuel as [|fuel IH]; intros d daysSet extra Hf.
  - assert (Hb : Before d eventEnd = false).
    { unfold Before. apply Z.ltb_ge.
      destruct (Z.lt_ge_cases (unixNano d) (unixNano eventEnd)) as [Hlt|]; [|lia].
      pose proof (Z.div_pos (unixNano eventEnd - unixNano d) 86400000000000). lia. }
    destruct extra; cbn [Nat.add spanDays]; [reflexivity|]. now rewrite Hb.
  - cbn [Nat.add spanDays]. destruct (Before d eventEnd && (Month d =? month)); [|reflexivity].
    apply IH. unfold Add. cbn [unixNano]. change (24 * Hour) with 86400000000000.
    replace (unixNano eventEnd - (unixNano d + 86400000000000))
      with (unixNano eventEnd - unixNano d + (-1) * 86400000000000) by lia.
    rewrite Z.div_add by lia. lia.
Qed.

End Handlers.

(** ** Occurrences and the display timezone *)

Section DisplayTimezone.

Import GoTime Ical Caldav Api Spec.

(** C4. Every occurrence produced by any path (the interpretation of a
    date-time, the building of a single event, the expansion of a
    recurrence, and so the fetch of a source) carries its start and its end
    in the display timezone of the source; the sources of a handler all
    have the one configured display timezone, so every occurrence it
    returns is in that timezone and in no other. *)
Theorem occurrences_in_display_timezone
    (LoadLocation : string -> option GoTime.Location) (NewRRule : string -> result RRule) :
  (forall c prop t allDay,
      parseDateTime LoadLocation c prop = Ok (t, allDay) -> loc t = timezone c)
  /\ (forall c comp uid summary description location startTime endTime allDay
             queryStart queryEnd events log,
        expandRecurringEvent NewRRule c comp uid summary description location startTime
          endTime allDay queryStart queryEnd = (Ok events, log) ->
        Forall (inZone (timezone c)) events)
  /\ (forall c comp queryStart queryEnd events log,
        parseEvent LoadLocation NewRRule c comp queryStart queryEnd = (Ok events, log) ->
        Forall (inZone (timezone c)) events)
  /\ (forall c start end_ events log,
        FetchEvents LoadLocation NewRRule c start end_ = (Ok events, log) ->
        Forall (inZone (timezone c)) events)
  /\ (forall tz calendars h startStr endStr done events,
        NewHandler tz calendars = Ok h -> schedule h done ->
        response (GetEvents LoadLocation NewRRule h startStr endStr done) = JSONEvents events ->
        Forall (inZone tz) events).
Proof.
  split; [exact (parseDateTime_loc LoadLocation)|].
  split.
  { intros c comp uid summary description location startTime endTime allDay
      queryStart queryEnd events log H.
    apply expandRecurringEvent_Ok in H as (_ & _ & _ & _ & _ & _ & H).
    eapply Forall_impl; [exact H|]. intros e (_ & Hz & _). exact Hz. }
  split; [exact (parseEvent_inZone LoadLocation NewRRule)|].
  split; [exact (FetchEvents_inZone LoadLocation NewRRule)|].
  exact (GetEvents_inZone LoadLocation NewRRule).
Qed.

(** The series of source A, given in UTC, comes out in Rome. *)
Lemma occurrences_in_display_timezone_witness :
  Forall (inZone Examples.Rome)
    (eventsOf (parseEvent Examples.noZones Examples.hourlyRules Examples.sourceA
                 Examples.hourlySeries Examples.nineOClock Examples.elevenOClock).1).
Proof.
  destruct (occurrences_in_display_timezone Examples.noZones Examples.hourlyRules)
    as (_ & _ & H & _).
  eapply (H Examples.sourceA Examples.hourlySeries Examples.nineOClock Examples.elevenOClock
            _ (parseEvent Examples.noZones Examples.hourlyRules Examples.sourceA
                 Examples.hourlySeries Examples.nineOClock Examples.elevenOClock).2).
  vm_compute. reflexivity.
Defined.

End DisplayTimezone.

(** ** Further properties of the code *)

Section Aggregation.

Import GoTime Ical Caldav Api Spec.

Variable LoadLocation : string -> option GoTime.Location.
Variable NewRRule : string -> result RRule.

Lemma merged_all_failed (fetched : list (result (list Event) * Log)) :
  forallb failed fetched = true -> merged fetched = [].
Proof.
  induction fetched as [|[[events|e] lines] l IH]; cbn [forallb]; [reflexivity| |].
  - discriminate.
  - intros H. unfold merged. cbn [fmap list_fmap concat fst eventsOf app]. now apply IH.
Qed.

Lemma existsb_all_failed (fetched : list (result (list Event) * Log)) :
  fetched <> [] -> forallb failed fetched = true -> existsb failed fetched = true.
Proof.
  destruct fetched as [|r l]; [congruence|]. cbn [forallb existsb]. intros _ H.
  apply andb_true_iff in H as [-> _]. reflexivity.
Qed.

(** X1.  MultiSourceAggregator, as the code has it.  For a request with
    valid dates and any order in which the fetches finish: when no fetch
    fails, or the fetches that succeed give at least one occurrence, the
    caller receives the occurrences of the sources that succeeded, merged
    and sorted, and no error; when every one of the (at least one) fetches
    fails, and also when some fetch fails and the others give no occurrence,
    the caller receives the one error 500. *)
Theorem GetEvents_partial_failure (h : Handler) (startStr endStr : string)
    (done : list Client) (start end_ : Time) :
  startStr <> EmptyString -> endStr <> EmptyString ->
  ParseInLocation layoutISODate startStr (hTimezone h) = Ok start ->
  ParseInLocation layoutISODate endStr (hTimezone h) = Ok end_ ->
  let fetched := fetchAll LoadLocation NewRRule done start (Add end_ (24 * Hour)) in
  let out := GetEvents LoadLocation NewRRule h startStr endStr done in
  (existsb failed fetched = false \/ merged fetched <> [] ->
   response out = JSONEvents (sortEvents (merged fetched))
   /\ sortResult (merged fetched) (sortEvents (merged fetched)))
  /\ (done <> [] -> forallb failed fetched = true ->
      exists message, response out = JSONError 500 message)
  /\ (existsb failed fetched = true -> merged fetched = [] ->
      exists message, response out = JSONError 500 message).
Proof.
  intros Hs He Ps Pe fetched out.
  pose proof (GetEvents_response LoadLocation NewRRule h startStr endStr done start end_
                Hs He Ps Pe) as H.
  cbv zeta in H. fold fetched out in H.
  assert (Hfail : existsb failed fetched = true -> merged fetched = [] ->
                  exists message, response out = JSONError 500 message).
  { intros H1 H2. rewrite H1, H2 in H. exact H. }
  split; [|split; [|exact Hfail]].
  - intros Hok. split; [|apply sortEvents_sortResult].
    destruct Hok as [Hno|Hne].
    + now rewrite Hno in H.
    + rewrite (bool_decide_eq_false_2 _ Hne), andb_false_r in H. exact H.
  - intros Hdone Hall. apply Hfail.
    + apply existsb_all_failed; [|exact Hall].
      unfold fetched, fetchAll. destruct done; [congruence | discriminate].
    + now apply merged_all_failed.
Qed.

End Aggregation.

(** Source A gives its three occurrences, source B fails: the caller gets
    the three, sorted, and no error. *)
Lemma GetEvents_partial_failure_witness :
  Api.response (Api.GetEvents Examples.noZones Examples.hourlyRules
              (Api.mkHandler [Examples.sourceA; Examples.sourceDown] Examples.Rome)
              "2026-01-05" "2026-01-05" [Examples.sourceDown; Examples.sourceA])
  = Api.JSONEvents
      (Caldav.sortEvents
         (Spec.merged (Api.fetchAll Examples.noZones Examples.hourlyRules
                    [Examples.sourceDown; Examples.sourceA]
                    (GoTime.Date 2026 1 5 0 0 0 0 Examples.Rome)
                    (GoTime.Add (GoTime.Date 2026 1 5 0 0 0 0 Examples.Rome) (24 * GoTime.Hour))))).
Proof.
  refine (proj1 (proj1 (GetEvents_partial_failure Examples.noZones Examples.hourlyRules
                          (Api.mkHandler [Examples.sourceA; Examples.sourceDown] Examples.Rome)
                          "2026-01-05" "2026-01-05" [Examples.sourceDown; Examples.sourceA]
                          (GoTime.Date 2026 1 5 0 0 0 0 Examples.Rome)
                          (GoTime.Date 2026 1 5 0 0 0 0 Examples.Rome) _ _ _ _) _)).
  - discriminate.
  - discriminate.
  - vm_compute. reflexivity.
  - vm_compute. reflexivity.
  - right. vm_compute. discriminate.
Defined.

Section SingleEvents.

Import GoTime Ical Caldav Api Spec.

(** X2.  SingleEventBuilder, as the code has it.  For an event with a UID, a
    start that parses and no recurrence rule, the end is resolved in this
    order: the explicit end when there is one (the event fails when it does
    not parse); otherwise the start plus the duration when there is one (the
    event fails when it does not parse); otherwise, for an all-day event,
    the start plus 24 hours; otherwise the start itself, a timed occurrence
    of length zero and no error. *)
Theorem parseEvent_end_resolution
    (LoadLocation : string -> option GoTime.Location) (NewRRule : string -> result RRule)
    (c : Client) (comp : Component) (queryStart queryEnd : Time)
    (uid dtstart : Property) (startTime : Time) (allDay : bool) :
  PropsGet (compProps comp) "UID" = Some uid ->
  PropsGet (compProps comp) "DTSTART" = Some dtstart ->
  parseDateTime LoadLocation c dtstart = Ok (startTime, allDay) ->
  PropsGet (compProps comp) "RRULE" = None ->
  let single := fun endTime =>
    mkEvent (propValue uid) (textOf comp "SUMMARY") (textOf comp "DESCRIPTION")
      (textOf comp "LOCATION") startTime endTime allDay (calendarName c) (calendarColor c)
      false in
  let out := parseEvent LoadLocation NewRRule c comp queryStart queryEnd in
  match PropsGet (compProps comp) "DTEND", PropsGet (compProps comp) "DURATION" with
  | Some dtend, _ =>
      match parseDateTime LoadLocation c dtend with
      | Ok (endTime, _) => out = (Ok [single endTime], [])
      | Err _ => isOk out.1 = false
      end
  | None, Some duration =>
      match parseDuration (propValue duration) with
      | Ok dur => out = (Ok [single (Add startTime dur)], [])
      | Err _ => isOk out.1 = false
      end
  | None, None =>
      out = (Ok [single (if allDay then Add startTime (24 * Hour) else startTime)], [])
  end.
Proof.
  intros Huid Hdt Hstart Hrule single out. unfold out, parseEvent.
  rewrite Huid, Hdt, Hstart, Hrule.
  destruct (PropsGet (compProps comp) "DTEND") as [dtend|].
  - destruct (parseDateTime LoadLocation c dtend) as [[endTime a]|e]; reflexivity.
  - destruct (PropsGet (compProps comp) "DURATION") as [duration|].
    + destruct (parseDuration (propValue duration)); reflexivity.
    + destruct allDay; reflexivity.
Qed.

End SingleEvents.

(** The all-day event of 2026-10-25: its end is its start plus 24 hours. *)
Lemma parseEvent_end_resolution_witness :
  Caldav.parseEvent Examples.noZones Examples.hourlyRules Examples.sourceA Examples.switchDay
    Examples.nineOClock Examples.tenOClock
  = (Ok [Caldav.mkEvent "day" EmptyString EmptyString EmptyString
           (GoTime.Date 2026 10 25 0 0 0 0 Examples.Rome)
           (GoTime.Add (GoTime.Date 2026 10 25 0 0 0 0 Examples.Rome) (24 * GoTime.Hour))
           true "A" "#AABBCC" false], []).
Proof.
  exact (parseEvent_end_resolution Examples.noZones Examples.hourlyRules Examples.sourceA
           Examples.switchDay Examples.nineOClock Examples.tenOClock
           (Examples.property "UID" "day") (Examples.dateProperty "DTSTART" "20261025")
           (GoTime.Date 2026 10 25 0 0 0 0 Examples.Rome) true
           eq_refl eq_refl eq_refl eq_refl).
Defined.

Section Exclusions.

Import GoTime Ical Caldav Api Spec.


Lemma candidates_take (rule : RRule) (exdates : list Time) (queryStart queryEnd : Time) :
  candidates rule exdates queryStart queryEnd
  = take maxOccurrences
      (setBetween rule exdates (Add queryStart (-30 * 24 * Hour))
         (Add queryEnd (30 * 24 * Hour))).
Proof.
  unfold candidates. cbv zeta.
  destruct (Nat.ltb_spec maxOccurrences
              (length (setBetween rule exdates (Add queryStart (-30 * 24 * Hour))
                         (Add queryEnd (30 * 24 * Hour))))) as [H|H]; [reflexivity|].
  symmetry. apply take_ge. exact H.
Qed.

(** The entries of an EXDATE value: the dates are those of the entries that
    parse, in their order, and there is one line for each entry that does
    not. *)
Lemma parseExdates_spec (tz : GoTime.Location) (entries : list string) :
  (parseExdates entries tz).1
  = omap (fun s => match parseICalDate s tz with
                   | Ok t => Some t
                   | Err _ => None
                   end) entries
  /\ length (parseExdates entries tz).2
     = length (filter (fun s => isOk (parseICalDate s tz) = false) entries).
Proof.
  induction entries as [|s rest [IH1 IH2]]; [split; reflexivity|].
  cbn [parseExdates omap list_omap]. rewrite filter_cons.
  destruct (parseExdates rest tz) as [dates log]. cbn [fst snd] in *.
  destruct (parseICalDate s tz) as [t|e]; cbn [fst snd isOk].
  - rewrite decide_False by discriminate. split; [now f_equal | exact IH2].
  - rewrite decide_True by reflexivity. split; [exact IH1 | cbn [length]; now f_equal].
Qed.


End Exclusions.


(** ** Dates and date-times as texts *)

Section DateTexts.

Import GoTime Ical Caldav Api Spec Dates.

Lemma longYear (f : fields) (s : string) :
  parseChunk stdLongYear f s
  = match s with
    | String y1 (String y2 (String y3 (String y4 r))) =>
        if Strconv.isDigit y1 && Strconv.isDigit y2 && Strconv.isDigit y3 && Strconv.isDigit y4
        then Ok (mkFields (twoDigits y1 y2 * 100 + twoDigits y3 y4) (fMonth f) (fDay f)
                   (fHour f) (fMin f) (fSec f) (fNsec f), r)
        else Err "parsing time: year"
    | _ => Err "parsing time: year"
    end.
Proof.
  destruct s as [|y1 [|y2 [|y3 [|y4 r]]]]; cbn [parseChunk GoStrings.sliceTo Strconv.digitsFrom].
  - reflexivity.
  - destruct (Strconv.isDigit y1); reflexivity.
  - destruct (Strconv.isDigit y1); [|reflexivity]. destruct (Strconv.isDigit y2); reflexivity.
  - destruct (Strconv.isDigit y1); [|reflexivity]. destruct (Strconv.isDigit y2); [|reflexivity].
    destruct (Strconv.isDigit y3); reflexivity.
  - destruct (Strconv.isDigit y1); [|reflexivity]. destruct (Strconv.isDigit y2); [|reflexivity].
    destruct (Strconv.isDigit y3); [|reflexivity]. destruct (Strconv.isDigit y4); [|reflexivity].
    cbn [andb GoStrings.sliceFrom]. unfold GoStrings.len. cbn [String.length].
    replace (4 <=? Z.of_nat (S (S (S (S (String.length r)))))) with true
      by (symmetry; apply Z.leb_le; lia).
    unfold twoDigits. do 2 f_equal. f_equal. lia.
Qed.

Lemma getnum_fixed (s : string) :
  getnum s true
  = match s with
    | String a (String b r) =>
        if Strconv.isDigit a && Strconv.isDigit b then Some (twoDigits a b, r) else None
    | _ => None
    end.
Proof.
  destruct s as [|a [|b r]]; cbn [getnum]; [reflexivity| |].
  - destruct (Strconv.isDigit a); reflexivity.
  - destruct (Strconv.isDigit a); [|reflexivity]. destruct (Strconv.isDigit b); reflexivity.
Qed.

Lemma digitVal_range (c : ascii) : Strconv.isDigit c = true -> 0 <= Strconv.digitVal c <= 9.
Proof.
  unfold Strconv.isDigit, Strconv.digitVal. cbv zeta. intros H.
  apply andb_true_iff in H as [H1 H2]. apply Z.leb_le in H1, H2. lia.
Qed.

Ltac split_digits :=
  repeat match goal with
    | |- context [Strconv.isDigit ?c] =>
        let E := fresh "E" in destruct (Strconv.isDigit c) eqn:E; cbn [andb forallb]
    end.

Lemma parseChunks_cons (c : chunk) (rest : list chunk) (f : fields) (value : string) :
  parseChunks (c :: rest) f value
  = (fv <- parseChunk c f value ;; parseChunks rest fv.1 fv.2).
Proof. reflexivity. Qed.

Lemma parseChunks_nil (f : fields) (value : string) :
  parseChunks [] f value
  = match value with
    | EmptyString => Ok f
    | _ => Err "parsing time: extra text"
    end.
Proof. reflexivity. Qed.

Ltac crunch :=
  repeat first
    [ reflexivity
    | rewrite parseChunks_cons
    | rewrite parseChunks_nil
    | rewrite longYear
    | rewrite getnum_fixed
    | progress cbn [parseChunk skip rbind fst snd andb forallb isOk
                    fYear fMonth fDay fHour fMin fSec fNsec noFields]
    | match goal with
      | H : true = false |- _ => discriminate H
      | H : false = true |- _ => discriminate H
      | H : Strconv.isDigit ?c = _ |- context [Strconv.isDigit ?c] => rewrite H
      | H : GoStrings.byteEq ?a ?b = _ |- context [GoStrings.byteEq ?a ?b] => rewrite H
      | |- context [(?m <=? 0) || (12 <? ?m)] =>
          let E := fresh "R" in destruct ((m <=? 0) || (12 <? m)) eqn:E
      | |- context [Strconv.isDigit ?c] =>
          let E := fresh "E" in destruct (Strconv.isDigit c) eqn:E
      | |- context [GoStrings.byteEq ?a ?b] =>
          let E := fresh "E" in destruct (GoStrings.byteEq a b) eqn:E
      end ].

(** [time.ParseInLocation] with the layout [2006-01-02]: a date written
    [YYYY-MM-DD] is read as 00:00 of that date, and nothing else is read. *)
Lemma parse_layoutISODate (s : string) (l : GoTime.Location) :
  match isoDate s with
  | Some (year, month, day) =>
      ParseInLocation layoutISODate s l = Ok (Date year month day 0 0 0 0 l)
  | None => isOk (ParseInLocation layoutISODate s l) = false
  end.
Proof.
  unfold ParseInLocation, parse, layoutISODate.
  destruct s as [|y1 [|y2 [|y3 [|y4 [|s1 [|m1 [|m2 [|s2 [|d1 [|d2 [|x r]]]]]]]]]]];
    cbn [isoDate]; unfold civilDate; crunch.
  - apply orb_true_iff in R.
    destruct (Z.leb_spec 1 (twoDigits m1 m2)), (Z.leb_spec (twoDigits m1 m2) 12);
      cbn [andb]; try reflexivity.
    destruct R as [R|R]; [apply Z.leb_le in R | apply Z.ltb_lt in R]; lia.
  - apply orb_false_iff in R as [R1 R2]. apply Z.leb_gt in R1. apply Z.ltb_ge in R2.
    repeat match goal with
           | H : Strconv.isDigit _ = true |- _ => apply digitVal_range in H
           end.
    assert (Hd : 0 <= twoDigits d1 d2) by (unfold twoDigits; lia).
    rewrite (proj2 (Z.ltb_ge (twoDigits m1 m2) 0)) by lia.
    rewrite (proj2 (Z.ltb_ge (twoDigits d1 d2) 0) Hd).
    rewrite (proj2 (Z.leb_le 1 (twoDigits m1 m2))), (proj2 (Z.leb_le (twoDigits m1 m2) 12))
      by lia.
    cbn [andb].
    destruct (Z.ltb_spec (twoDigits d1 d2) 1), (Z.leb_spec 1 (twoDigits d1 d2)); try lia;
      cbn [orb andb]; try reflexivity.
    destruct (Z.ltb_spec (daysIn (twoDigits m1 m2) (twoDigits y1 y2 * 100 + twoDigits y3 y4))
                (twoDigits d1 d2)),
      (Z.leb_spec (twoDigits d1 d2)
         (daysIn (twoDigits m1 m2) (twoDigits y1 y2 * 100 + twoDigits y3 y4))); try lia;
      reflexivity.
Qed.

(** [time.ParseInLocation] with the layout [20060102]: a date written
    [YYYYMMDD] is read as 00:00 of that date, and nothing else is read. *)
Lemma parse_layoutDate (s : string) (l : GoTime.Location) :
  match basicDate s with
  | Some (year, month, day) =>
      ParseInLocation layoutDate s l = Ok (Date year month day 0 0 0 0 l)
  | None => isOk (ParseInLocation layoutDate s l) = false
  end.
Proof.
  unfold ParseInLocation, parse, layoutDate.
  destruct s as [|y1 [|y2 [|y3 [|y4 [|m1 [|m2 [|d1 [|d2 [|x r]]]]]]]]];
    cbn [basicDate]; unfold civilDate; crunch.
  - apply orb_true_iff in R.
    destruct (Z.leb_spec 1 (twoDigits m1 m2)), (Z.leb_spec (twoDigits m1 m2) 12);
      cbn [andb]; try reflexivity.
    destruct R as [R|R]; [apply Z.leb_le in R | apply Z.ltb_lt in R]; lia.
  - apply orb_false_iff in R as [R1 R2]. apply Z.leb_gt in R1. apply Z.ltb_ge in R2.
    repeat match goal with
           | H : Strconv.isDigit _ = true |- _ => apply digitVal_range in H
           end.
    assert (Hd : 0 <= twoDigits d1 d2) by (unfold twoDigits; lia).
    rewrite (proj2 (Z.ltb_ge (twoDigits m1 m2) 0)) by lia.
    rewrite (proj2 (Z.ltb_ge (twoDigits d1 d2) 0) Hd).
    rewrite (proj2 (Z.leb_le 1 (twoDigits m1 m2))), (proj2 (Z.leb_le (twoDigits m1 m2) 12))
      by lia.
    cbn [andb].
    destruct (Z.ltb_spec (twoDigits d1 d2) 1), (Z.leb_spec 1 (twoDigits d1 d2)); try lia;
      cbn [orb andb]; try reflexivity.
    destruct (Z.ltb_spec (daysIn (twoDigits m1 m2) (twoDigits y1 y2 * 100 + twoDigits y3 y4))
                (twoDigits d1 d2)),
      (Z.leb_spec (twoDigits d1 d2)
         (daysIn (twoDigits m1 m2) (twoDigits y1 y2 * 100 + twoDigits y3 y4))); try lia;
      reflexivity.
Qed.

Lemma getnum_free (a b : ascii) (r : string) :
  Strconv.isDigit a = true -> Strconv.isDigit b = true ->
  getnum (String a (String b r)) false = Some (twoDigits a b, r).
Proof. intros Ha Hb. cbn [getnum]. now rewrite Ha, Hb. Qed.

Ltac walk :=
  repeat first
    [ rewrite parseChunks_cons
    | rewrite parseChunks_nil
    | rewrite longYear
    | rewrite getnum_fixed
    | rewrite getnum_free by assumption
    | progress cbn [parseChunk skip rbind fst snd andb orb forallb isOk
                    fYear fMonth fDay fHour fMin fSec fNsec noFields]
    | match goal with
      | H : Strconv.isDigit ?c = _ |- context [Strconv.isDigit ?c] => rewrite H
      | H : GoStrings.byteEq ?a ?b = _ |- context [GoStrings.byteEq ?a ?b] => rewrite H
      | H : ?b = false |- context [if ?b then _ else _] => rewrite H
      end ].

(** [time.ParseInLocation] with the layouts of a date-time, on a text
    written [YYYYMMDDTHHMMSS] and on that text followed by [Z]. *)
Lemma parse_basicDateTime (s : string) (date clock : Z * Z * Z) (l : GoTime.Location) :
  basicDateTime s = Some (date, clock) ->
  let t := Date date.1.1 date.1.2 date.2 clock.1.1 clock.1.2 clock.2 0 l in
  ParseInLocation layoutDateTime s l = Ok t
  /\ ParseInLocation layoutDateTimeZ (s +:+ "Z") l = Ok t
  /\ isOk (ParseInLocation layoutDateTime (s +:+ "Z") l) = false
  /\ isOk (ParseInLocation layoutDateTimeZ s l) = false
  /\ GoStrings.lastByte (s +:+ "Z") = Some "Z"%char
  /\ (forall last, GoStrings.lastByte s = Some last -> GoStrings.byteEq last "Z" = false).
Proof.
  destruct s as [|y1 [|y2 [|y3 [|y4 [|m1 [|m2 [|d1 [|d2 [|t [|h1 [|h2 [|n1 [|n2 [|s1 [|s2
    [|x r]]]]]]]]]]]]]]]]; try discriminate.
  unfold basicDateTime, civilDate, clockTime. cbn [forallb].
  destruct (GoStrings.byteEq t "T") eqn:Ht; [|discriminate].
  destruct (Strconv.isDigit y1) eqn:Y1; [|discriminate].
  destruct (Strconv.isDigit y2) eqn:Y2; [|discriminate].
  destruct (Strconv.isDigit y3) eqn:Y3; [|discriminate].
  destruct (Strconv.isDigit y4) eqn:Y4; [|discriminate].
  destruct (Strconv.isDigit m1) eqn:M1; [|discriminate].
  destruct (Strconv.isDigit m2) eqn:M2; [|discriminate].
  destruct (Strconv.isDigit d1) eqn:D1; [|discriminate].
  destruct (Strconv.isDigit d2) eqn:D2; [|discriminate].
  cbn [andb]. cbv zeta.
  destruct ((1 <=? twoDigits m1 m2) && (twoDigits m1 m2 <=? 12) && (1 <=? twoDigits d1 d2)
            && (twoDigits d1 d2 <=? daysIn (twoDigits m1 m2)
                                     (twoDigits y1 y2 * 100 + twoDigits y3 y4))) eqn:Hdate;
    [|discriminate].
  destruct (Strconv.isDigit h1) eqn:H1; [|discriminate].
  destruct (Strconv.isDigit h2) eqn:H2; [|discriminate].
  destruct (Strconv.isDigit n1) eqn:N1; [|discriminate].
  destruct (Strconv.isDigit n2) eqn:N2; [|discriminate].
  destruct (Strconv.isDigit s1) eqn:S1; [|discriminate].
  destruct (Strconv.isDigit s2) eqn:S2; [|discriminate].
  cbn [andb].
  destruct ((twoDigits h1 h2 <? 24) && (twoDigits n1 n2 <? 60) && (twoDigits s1 s2 <? 60))
    eqn:Hclock; [|discriminate].
  intros [= <- <-]. cbn [fst snd].
  apply andb_true_iff in Hdate as [Hdate Hd2]. apply andb_true_iff in Hdate as [Hdate Hd1].
  apply andb_true_iff in Hdate as [Hm1 Hm2].
  apply andb_true_iff in Hclock as [Hclock Hs]. apply andb_true_iff in Hclock as [Hh Hn].
  apply Z.leb_le in Hm1, Hm2, Hd1, Hd2. apply Z.ltb_lt in Hh, Hn, Hs.
  pose proof (digitVal_range _ H1). pose proof (digitVal_range _ H2).
  pose proof (digitVal_range _ N1). pose proof (digitVal_range _ N2).
  pose proof (digitVal_range _ S1). pose proof (digitVal_range _ S2).
  assert (Rm : (twoDigits m1 m2 <=? 0) || (12 <? twoDigits m1 m2) = false).
  { apply orb_false_iff. split; [apply Z.leb_gt | apply Z.ltb_ge]; lia. }
  assert (Rh : (twoDigits h1 h2 <? 0) || (24 <=? twoDigits h1 h2) = false).
  { apply orb_false_iff. unfold twoDigits in *. split; [apply Z.ltb_ge | apply Z.leb_gt]; lia. }
  assert (Rn : (twoDigits n1 n2 <? 0) || (60 <=? twoDigits n1 n2) = false).
  { apply orb_false_iff. unfold twoDigits in *. split; [apply Z.ltb_ge | apply Z.leb_gt]; lia. }
  assert (Rs : (twoDigits s1 s2 <? 0) || (60 <=? twoDigits s1 s2) = false).
  { apply orb_false_iff. unfold twoDigits in *. split; [apply Z.ltb_ge | apply Z.leb_gt]; lia. }
  assert (Rm0 : (twoDigits m1 m2 <? 0) = false) by (apply Z.ltb_ge; lia).
  assert (Rd0 : (twoDigits d1 d2 <? 0) = false) by (apply Z.ltb_ge; lia).
  assert (Rd : (twoDigits d1 d2 <? 1)
               || (daysIn (twoDigits m1 m2) (twoDigits y1 y2 * 100 + twoDigits y3 y4)
                   <? twoDigits d1 d2) = false).
  { apply orb_false_iff. split; apply Z.ltb_ge; lia. }
  assert (Ez : GoStrings.byteEq "Z" "Z" = true) by reflexivity.
  rewrite !string_app_cons, string_app_nil_l.
  unfold ParseInLocation, parse, layoutDateTime, layoutDateTimeZ.
  repeat split.
  - walk. reflexivity.
  - walk. reflexivity.
  - walk. reflexivity.
  - walk. reflexivity.
  - intros last [= <-]. unfold GoStrings.byteEq.
    destruct (Ascii.eqb_spec s2 "Z") as [->|]; [discriminate S2 | reflexivity].
Qed.

Lemma parse_date_not_dateTime (s : string) (date : Z * Z * Z) (l : GoTime.Location) :
  basicDate s = Some date ->
  isOk (ParseInLocation layoutDateTimeZ s l) = false
  /\ isOk (ParseInLocation layoutDateTime s l) = false.
Proof.
  destruct s as [|y1 [|y2 [|y3 [|y4 [|m1 [|m2 [|d1 [|d2 [|x r]]]]]]]]]; try discriminate.
  unfold basicDate, civilDate. cbn [forallb].
  destruct (Strconv.isDigit y1) eqn:Y1; [|discriminate].
  destruct (Strconv.isDigit y2) eqn:Y2; [|discriminate].
  destruct (Strconv.isDigit y3) eqn:Y3; [|discriminate].
  destruct (Strconv.isDigit y4) eqn:Y4; [|discriminate].
  destruct (Strconv.isDigit m1) eqn:M1; [|discriminate].
  destruct (Strconv.isDigit m2) eqn:M2; [|discriminate].
  destruct (Strconv.isDigit d1) eqn:D1; [|discriminate].
  destruct (Strconv.isDigit d2) eqn:D2; [|discriminate].
  intros _. unfold ParseInLocation, parse, layoutDateTime, layoutDateTimeZ.
  split; walk; destruct (_ || _); walk; reflexivity.
Qed.

End DateTexts.

Section DateTimeValues.

Import GoTime Ical Caldav Api Spec Dates.

Variable LoadLocation : string -> option GoTime.Location.
Variable NewRRule : string -> result RRule.

Lemma In_same (t : Time) (l : GoTime.Location) : loc t = l -> In t l = t.
Proof. intros <-. now destruct t. Qed.

(** X10.  The value of a bare date.  A property with [VALUE=DATE] is read as
    an all-day instant exactly when its value is a date of the calendar
    written [YYYYMMDD]: the instant is 00:00 of that date in the display
    timezone.  Any other value fails. *)
Theorem parseDateTime_bare_date (c : Client) (prop : Property) :
  String.eqb (ParamsGet (propParams prop) "VALUE") "DATE" = true ->
  match basicDate (propValue prop) with
  | Some (year, month, day) =>
      parseDateTime LoadLocation c prop = Ok (Date year month day 0 0 0 0 (timezone c), true)
  | None => isOk (parseDateTime LoadLocation c prop) = false
  end.
Proof.
  intros Hv. unfold parseDateTime. cbv zeta. rewrite Hv.
  pose proof (parse_layoutDate (propValue prop) (timezone c)) as H.
  destruct (basicDate (propValue prop)) as [[[year month] day]|].
  - now rewrite H.
  - destruct (ParseInLocation layoutDate (propValue prop) (timezone c)); [discriminate|].
    reflexivity.
Qed.

(** X11.  The value of a date-time.  For a property that is no bare date and
    a text written [YYYYMMDDTHHMMSS]: the text alone is read on the wall
    clock of the zone the TZID parameter names, and on that of the display
    timezone when there is no TZID or its zone is not known; the text
    followed by [Z] is read on the wall clock of UTC, whatever the TZID.
    The instant is then shown in the display timezone. *)
Theorem parseDateTime_resolution (c : Client) (prop : Property) (text : string)
    (date clock : Z * Z * Z) :
  basicDateTime text = Some (date, clock) ->
  String.eqb (ParamsGet (propParams prop) "VALUE") "DATE" = false ->
  let wall := fun l => Date date.1.1 date.1.2 date.2 clock.1.1 clock.1.2 clock.2 0 l in
  let tzid := ParamsGet (propParams prop) "TZID" in
  (propValue prop = text ->
   parseDateTime LoadLocation c prop
   = Ok (In (wall (if String.eqb tzid EmptyString then timezone c
                   else match LoadLocation tzid with
                        | Some l => l
                        | None => timezone c
                        end)) (timezone c), false))
  /\ (propValue prop = text +:+ "Z" ->
      parseDateTime LoadLocation c prop = Ok (In (wall UTC) (timezone c), false)).
Proof.
  intros Htext Hv wall tzid. unfold parseDateTime. cbv zeta. rewrite Hv. fold tzid.
  split; intros ->.
  - destruct (String.eqb tzid EmptyString); cbn [negb].
    + destruct (parse_basicDateTime text date clock (timezone c) Htext)
        as (H1 & _ & _ & _ & _ & Hlast).
      destruct (GoStrings.lastByte text) as [last|].
      * rewrite (Hlast last eq_refl), H1. reflexivity.
      * rewrite H1. reflexivity.
    + destruct (LoadLocation tzid) as [l|].
      * destruct (parse_basicDateTime text date clock l Htext) as (H1 & _).
        rewrite H1. reflexivity.
      * destruct (parse_basicDateTime text date clock (timezone c) Htext) as (H1 & _).
        rewrite H1. reflexivity.
  - destruct (parse_basicDateTime text date clock UTC Htext) as (_ & H2 & _ & _ & Hlast & _).
    destruct (String.eqb tzid EmptyString); cbn [negb].
    + rewrite Hlast. change (GoStrings.byteEq "Z" "Z") with true. cbv iota.
      unfold Parse. fold (ParseInLocation layoutDateTimeZ (text +:+ "Z") UTC).
      rewrite H2. reflexivity.
    + assert (H3 : forall l, isOk (ParseInLocation layoutDateTime (text +:+ "Z") l) = false).
      { intros l. now destruct (parse_basicDateTime text date clock l Htext)
          as (_ & _ & H3 & _). }
      match goal with
      | |- context [ParseInLocation layoutDateTime (text +:+ "Z") ?l] =>
          specialize (H3 l); destruct (ParseInLocation layoutDateTime (text +:+ "Z") l)
      end; [discriminate|].
      rewrite H2. reflexivity.
Qed.

(** X12.  The texts [parseICalDate] reads, all on the wall clock of the zone
    it is given.  A text written [YYYYMMDDTHHMMSS] is that time there, and
    so is the text followed by [Z]: the [Z] changes nothing.  A text written
    [YYYYMMDD] is 00:00 of that date there. *)
Theorem parseICalDate_formats (tz : GoTime.Location) (text : string) :
  (forall date clock, basicDateTime text = Some (date, clock) ->
     parseICalDate text tz
     = Ok (Date date.1.1 date.1.2 date.2 clock.1.1 clock.1.2 clock.2 0 tz)
     /\ parseICalDate (text +:+ "Z") tz = parseICalDate text tz)
  /\ (forall date, basicDate text = Some date ->
        parseICalDate text tz = Ok (Date date.1.1 date.1.2 date.2 0 0 0 0 tz)).
Proof.
  split.
  - intros date clock H.
    destruct (parse_basicDateTime text date clock tz H) as (H1 & H2 & _ & H4 & _).
    cbv zeta in H1, H2. unfold parseICalDate. cbv zeta. cbn [firstParse].
    rewrite H2. destruct (ParseInLocation layoutDateTimeZ text tz); [discriminate|].
    rewrite H1. split; reflexivity.
  - intros [[year month] day] H.
    destruct (parse_date_not_dateTime text _ tz H) as [H1 H2].
    pose proof (parse_layoutDate text tz) as H3. rewrite H in H3.
    unfold parseICalDate. cbv zeta. cbn [firstParse].
    destruct (ParseInLocation layoutDateTimeZ text tz); [discriminate|].
    destruct (ParseInLocation layoutDateTime text tz); [discriminate|].
    rewrite H3. reflexivity.
Qed.

End DateTimeValues.

(** ** Fetching a source (client.go) *)

Section Fetching.

Import GoTime Ical Caldav Api Spec Views.

Variable LoadLocation : string -> option GoTime.Location.
Variable NewRRule : string -> result RRule.

Lemma parseChildren_events (c : Client) (queryStart queryEnd : Time) (children : list Component) :
  (parseChildren LoadLocation NewRRule c children queryStart queryEnd).1
  = concat ((fun comp => eventsOf (parseEvent LoadLocation NewRRule c comp queryStart queryEnd).1)
              <$> filter (fun comp => compName comp = "VEVENT") children).
Proof.
  induction children as [|comp rest IH]; [reflexivity|].
  cbn [parseChildren]. rewrite filter_cons.
  destruct (String.eqb_spec (compName comp) "VEVENT") as [E|E]; cbn [negb].
  - rewrite decide_True by exact E. cbn [fmap list_fmap concat]. rewrite <- IH.
    destruct (parseEvent LoadLocation NewRRule c comp queryStart queryEnd) as [parsed log1].
    destruct (parseChildren LoadLocation NewRRule c rest queryStart queryEnd) as [events log2].
    destruct parsed; reflexivity.
  - rewrite decide_False by exact E. exact IH.
Qed.

Lemma parseObjects_events (c : Client) (start end_ : Time) (objects : list CalendarObject) :
  (parseObjects LoadLocation NewRRule c objects start end_).1
  = concat ((fun comp => eventsOf (parseEvent LoadLocation NewRRule c comp start end_).1)
              <$> vevents objects).
Proof.
  induction objects as [|obj rest IH]; [reflexivity|].
  cbn [parseObjects]. unfold vevents. cbn [mbind list_bind]. fold (vevents rest).
  rewrite fmap_app, concat_app, <- IH.
  unfold parseCalendarObject.
  pose proof (parseChildren_events c start end_) as Hc.
  destruct (objData obj) as [cal|].
  - specialize (Hc (calChildren cal)).
    destruct (parseChildren LoadLocation NewRRule c (calChildren cal) start end_) as [evs lg].
    destruct (parseObjects LoadLocation NewRRule c rest start end_) as [events log2].
    cbn [fst] in *. now rewrite Hc.
  - destruct (parseObjects LoadLocation NewRRule c rest start end_) as [events log2].
    reflexivity.
Qed.

(** X9.  [FetchEvents] keeps a failure to where it happens.  The fetch fails
    only when the query of the remote store fails.  When the store answers,
    the fetch succeeds whatever the objects hold: its events are those of
    the VEVENT components that parse, sorted; an object without data, a
    component that is no VEVENT and a VEVENT that fails to parse contribute
    nothing and take nothing away. *)
Theorem FetchEvents_isolates_failures (c : Client) (start end_ : Time) :
  match QueryCalendar c start end_ with
  | Err e =>
      FetchEvents LoadLocation NewRRule c start end_
      = (Err ("failed to query calendar " +:+ calendarName c +:+ ": " +:+ e), [])
  | Ok objects =>
      exists events log,
        FetchEvents LoadLocation NewRRule c start end_ = (Ok events, log)
        /\ sortResult
             (concat ((fun comp =>
                         eventsOf (parseEvent LoadLocation NewRRule c comp start end_).1)
                        <$> vevents objects))
             events
  end.
Proof.
  unfold FetchEvents. destruct (QueryCalendar c start end_) as [objects|e]; [|reflexivity].
  pose proof (parseObjects_events c start end_ objects) as H.
  destruct (parseObjects LoadLocation NewRRule c objects start end_) as [events log].
  cbn [fst] in H. exists (sortEvents events), log. split; [reflexivity|].
  rewrite <- H. apply sortEvents_sortResult.
Qed.

(** The occurrences the expansion builds carry what it was given. *)
Lemma expand_omap_fields (c : Client) (uid summary description location : string)
    (allDay : bool) (duration : Duration) (queryStart queryEnd : Time)
    (occurrences : list Time) :
  Forall (fun e => UID e = uid +:+ "_" +:+ Format (Start e) layoutDateTime
                   /\ Summary e = summary /\ Description e = description
                   /\ Location e = location /\ AllDay e = allDay
                   /\ CalendarName e = calendarName c /\ CalendarColor e = calendarColor c
                   /\ IsRecurring e = true)
    (omap (fun occurrence =>
             let occStart := In occurrence (timezone c) in
             let occEnd := Add occStart duration in
             if Before occEnd queryStart || After occStart queryEnd then None
             else Some (mkEvent (uid +:+ "_" +:+ Format occStart layoutDateTime)
                          summary description location occStart occEnd allDay
                          (calendarName c) (calendarColor c) true))
       occurrences).
Proof.
  induction occurrences as [|occ l IH]; [constructor|].
  cbn [omap list_omap]. cbv zeta.
  destruct (_ || _); [exact IH|].
  constructor; [|exact IH]. cbn. repeat split.
Qed.

(** X7.  What every occurrence of a component carries: the decoded texts of
    the component, the name and colour of the calendar of the client, the
    all-day flag of the value kind of DTSTART, and the recurring flag for
    the presence of a rule; the UID is that of the component, followed for
    an occurrence of a series by [_] and its own start as [YYYYMMDDTHHMMSS]
    in the display timezone. *)
Theorem parseEvent_fields (c : Client) (comp : Component) (queryStart queryEnd : Time) :
  Forall (fun e =>
            Summary e = textOf comp "SUMMARY"
            /\ Description e = textOf comp "DESCRIPTION"
            /\ Location e = textOf comp "LOCATION"
            /\ CalendarName e = calendarName c
            /\ CalendarColor e = calendarColor c
            /\ IsRecurring e = bool_decide (is_Some (PropsGet (compProps comp) "RRULE"))
            /\ (exists uid,
                  PropsGet (compProps comp) "UID" = Some uid
                  /\ UID e = if IsRecurring e
                             then propValue uid +:+ "_" +:+ Format (Start e) layoutDateTime
                             else propValue uid)
            /\ (exists dtstart,
                  PropsGet (compProps comp) "DTSTART" = Some dtstart
                  /\ AllDay e = String.eqb (ParamsGet (propParams dtstart) "VALUE") "DATE"))
    (eventsOf (parseEvent LoadLocation NewRRule c comp queryStart queryEnd).1).
Proof.
  unfold parseEvent.
  destruct (PropsGet (compProps comp) "UID") as [uid|]; [|constructor].
  destruct (PropsGet (compProps comp) "DTSTART") as [dtstart|]; [|constructor].
  destruct (parseDateTime LoadLocation c dtstart) as [[startTime allDay]|e] eqn:Hstart;
    [|constructor].
  assert (Hall : allDay = String.eqb (ParamsGet (propParams dtstart) "VALUE") "DATE").
  { unfold parseDateTime in Hstart. destruct (String.eqb _ "DATE").
    - destruct (ParseInLocation layoutDate _ _); cbn [rbind] in Hstart; congruence.
    - match type of Hstart with rbind ?r _ = _ => destruct r end;
        cbn [rbind] in Hstart; congruence. }
  match goal with
  | |- context [match ?r with Ok _ => _ | Err _ => _ end] =>
      match type of r with result Time => destruct r as [endTime|e] end
  end; [|constructor].
  destruct (PropsGet (compProps comp) "RRULE") as [rruleProp|] eqn:Hrule.
  - unfold expandRecurringEvent. rewrite Hrule.
    destruct (NewRRule _) as [rule|e]; [|constructor].
    destruct (exdatesOf c comp) as [exdates lines]. cbn [fst eventsOf].
    eapply Forall_impl; [apply expand_omap_fields|].
    intros e (H1 & H2 & H3 & H4 & H5 & H6 & H7 & H8). cbv beta.
    repeat (split; [assumption|]). split.
    + exists uid. split; [reflexivity|]. rewrite H8. exact H1.
    + exists dtstart. split; [reflexivity | now rewrite H5].
  - cbn [fst eventsOf]. constructor; [|constructor].
    repeat (split; [reflexivity|]). split.
    + exists uid. split; reflexivity.
    + exists dtstart. split; [reflexivity | exact Hall].
Qed.

End Fetching.

(** ** The parameters of the endpoints (handler.go) *)

Section Requests.

Import GoTime Ical Caldav Api Spec Views Dates.

Variable LoadLocation : string -> option GoTime.Location.
Variable NewRRule : string -> result RRule.

Lemma collectMonth_events (done : list Client) (start end_ : Time) :
  forall allEvents log,
    (collectMonth LoadLocation NewRRule done start end_ allEvents log).1
    = allEvents ++ merged (fetchAll LoadLocation NewRRule done start end_).
Proof.
  induction done as [|c rest IH]; intros allEvents log; cbn [collectMonth].
  - cbn. now rewrite app_nil_r.
  - unfold fetchAll, merged. cbn [fmap list_fmap concat].
    destruct (FetchEvents LoadLocation NewRRule c start end_) as [[events|e] lines];
      rewrite IH; cbn [fst eventsOf]; [now rewrite app_assoc | reflexivity].
Qed.

(** The events endpoint, by what [time.ParseInLocation] says of its two
    parameters. *)
Lemma GetEvents_parameters (h : Handler) (startStr endStr : string)
    (done : list Client) :
  let out := GetEvents LoadLocation NewRRule h startStr endStr done in
  match ParseInLocation layoutISODate startStr (hTimezone h),
        ParseInLocation layoutISODate endStr (hTimezone h) with
  | Ok start, Ok end_ =>
      fetches out = (fun c => (calendarName c, start, Add end_ (24 * Hour))) <$> done
      /\ ((exists message, response out = JSONError 500 message)
          \/ (exists events, response out = JSONEvents events))
  | _, _ =>
      (exists message, response out = JSONError 400 message)
      /\ fetches out = [] /\ stderr out = []
  end.
Proof.
  intros out. unfold out, GetEvents.
  destruct (String.eqb_spec startStr EmptyString) as [->|Hs].
  { cbn [orb]. change (ParseInLocation layoutISODate EmptyString (hTimezone h))
      with (@Err Time "parsing time: year"). cbn. eauto. }
  destruct (String.eqb_spec endStr EmptyString) as [->|He].
  { cbn [orb]. change (ParseInLocation layoutISODate EmptyString (hTimezone h))
      with (@Err Time "parsing time: year").
    destruct (ParseInLocation layoutISODate startStr (hTimezone h)); cbn; eauto. }
  cbn [orb].
  destruct (ParseInLocation layoutISODate startStr (hTimezone h)) as [start|e];
    [|cbn; eauto].
  destruct (ParseInLocation layoutISODate endStr (hTimezone h)) as [end_|e];
    [|cbn; eauto].
  destruct (collect _ _ _ _ _ _ _ _) as [[allEvents errs] log].
  destruct (_ && _); cbn [fetches response]; eauto.
Qed.

(** X13.  The events endpoint checks its parameters before it fetches.  When
    [start] or [end] is absent or is not a date of the calendar written
    [YYYY-MM-DD], the answer is the error 400, no source is fetched and
    nothing is logged.  When both are, every client is fetched once for the
    window from 00:00 of the start date to 24 hours after 00:00 of the end
    date, both in the display timezone, and the answer is the list of events
    or the error 500, never 400.  The two dates are not compared: an end
    before the start is fetched like any other. *)
Theorem GetEvents_checks_parameters_first (h : Handler) (startStr endStr : string)
    (done : list Client) :
  let out := GetEvents LoadLocation NewRRule h startStr endStr done in
  match isoDate startStr, isoDate endStr with
  | Some (ys, ms, ds), Some (ye, me, de) =>
      fetches out
      = (fun c => (calendarName c, Date ys ms ds 0 0 0 0 (hTimezone h),
                   Add (Date ye me de 0 0 0 0 (hTimezone h)) (24 * Hour))) <$> done
      /\ ((exists message, response out = JSONError 500 message)
          \/ (exists events, response out = JSONEvents events))
  | _, _ =>
      (exists message, response out = JSONError 400 message)
      /\ fetches out = [] /\ stderr out = []
  end.
Proof.
  intros out. pose proof (GetEvents_parameters h startStr endStr done) as H.
  cbv zeta in H. fold out in H.
  pose proof (parse_layoutISODate startStr (hTimezone h)) as Hs.
  pose proof (parse_layoutISODate endStr (hTimezone h)) as He.
  destruct (isoDate startStr) as [[[ys ms] ds]|].
  - rewrite Hs in H. destruct (isoDate endStr) as [[[ye me] de]|].
    + now rewrite He in H.
    + destruct (ParseInLocation layoutISODate endStr (hTimezone h)); [discriminate | exact H].
  - destruct (ParseInLocation layoutISODate startStr (hTimezone h)); [discriminate|].
    destruct (isoDate endStr) as [[[ye me] de]|]; exact H.
Qed.

(** The answer of the month endpoint to a valid request. *)
Lemma GetEventsMonth_valid (h : Handler) (yearStr monthStr : string) (done : list Client)
    (year month : Z) :
  Strconv.Atoi yearStr = Some year -> Strconv.Atoi monthStr = Some month ->
  1 <= month <= 12 ->
  let out := GetEventsMonth LoadLocation NewRRule h yearStr monthStr done in
  let start := Date year month 1 0 0 0 0 (hTimezone h) in
  let end_ := AddDate start 0 1 0 in
  fetches out = (fun c => (calendarName c, start, end_)) <$> done
  /\ response out
     = JSONDays (fold_left (markDays (hTimezone h) month)
                   (merged (fetchAll LoadLocation NewRRule done start end_)) ∅).
Proof.
  intros Hy Hm Hrange. cbv zeta. unfold GetEventsMonth.
  assert (Ey : String.eqb yearStr EmptyString = false).
  { apply String.eqb_neq. intros ->. discriminate Hy. }
  assert (Em : String.eqb monthStr EmptyString = false).
  { apply String.eqb_neq. intros ->. discriminate Hm. }
  rewrite Ey, Em, Hy, Hm. cbn [orb].
  rewrite (proj2 (Z.ltb_ge month 1)), (proj2 (Z.ltb_ge 12 month)) by lia. cbn [orb].
  pose proof (collectMonth_events done (Date year month 1 0 0 0 0 (hTimezone h))
                (AddDate (Date year month 1 0 0 0 0 (hTimezone h)) 0 1 0) [] []) as Hev.
  destruct (collectMonth _ _ _ _ _ _ _) as [allEvents log].
  cbn [fst app] in Hev. subst allEvents. split; reflexivity.
Qed.

(** X14.  The month endpoint checks its parameters before it fetches, and
    after that it never fails.  When [year] or [month] is absent or is no
    integer, or the month is not one of 1 to 12, the answer is the error 400
    and no source is fetched.  Otherwise every client is fetched once for
    the window from 00:00 of the first of the month in the display timezone
    to that instant moved on by one calendar month, and the answer is a set
    of days: the days marked for the events of the fetches that succeeded,
    which is the empty set when every fetch fails. *)
Theorem GetEventsMonth_checks_parameters_and_never_fails (h : Handler)
    (yearStr monthStr : string) (done : list Client) :
  let out := GetEventsMonth LoadLocation NewRRule h yearStr monthStr done in
  match Strconv.Atoi yearStr, Strconv.Atoi monthStr with
  | Some year, Some month =>
      if (1 <=? month) && (month <=? 12) then
        let start := Date year month 1 0 0 0 0 (hTimezone h) in
        let end_ := AddDate start 0 1 0 in
        let fetched := fetchAll LoadLocation NewRRule done start end_ in
        fetches out = (fun c => (calendarName c, start, end_)) <$> done
        /\ response out
           = JSONDays (fold_left (markDays (hTimezone h) month) (merged fetched) ∅)
        /\ (forallb failed fetched = true -> response out = JSONDays ∅)
      else (exists message, response out = JSONError 400 message) /\ fetches out = []
  | _, _ => (exists message, response out = JSONError 400 message) /\ fetches out = []
  end.
Proof.
  intros out. unfold out, GetEventsMonth.
  destruct (String.eqb_spec yearStr EmptyString) as [->|Hy]; [cbn; eauto|].
  destruct (String.eqb_spec monthStr EmptyString) as [->|Hm].
  { cbn [orb]. change (Strconv.Atoi EmptyString) with (@None Z).
    destruct (Strconv.Atoi yearStr); cbn; eauto. }
  cbn [orb].
  destruct (Strconv.Atoi yearStr) as [year|]; [|cbn; eauto].
  destruct (Strconv.Atoi monthStr) as [month|]; [|cbn; eauto].
  destruct (Z.ltb_spec month 1) as [H1|H1].
  { rewrite (proj2 (Z.leb_gt 1 month)) by lia. cbn; eauto. }
  destruct (Z.ltb_spec 12 month) as [H2|H2].
  { rewrite (proj2 (Z.leb_gt month 12)) by lia. rewrite andb_false_r. cbn; eauto. }
  rewrite (proj2 (Z.leb_le 1 month)), (proj2 (Z.leb_le month 12)) by lia. cbn [orb andb].
  cbv zeta.
  pose proof (collectMonth_events done (Date year month 1 0 0 0 0 (hTimezone h))
                (AddDate (Date year month 1 0 0 0 0 (hTimezone h)) 0 1 0) [] []) as Hev.
  destruct (collectMonth _ _ _ _ _ _ _) as [allEvents log].
  cbn [fst app] in Hev. subst allEvents. cbn [fetches response].
  split; [reflexivity|]. split; [reflexivity|].
  intros Hall. now rewrite (merged_all_failed _ Hall).
Qed.

End Requests.

(** ** The order in which the fetches finish *)

Section Schedules.

Import GoTime Ical Caldav Api Spec Views MonthView.

Variable LoadLocation : string -> option GoTime.Location.
Variable NewRRule : string -> result RRule.

Lemma merged_Permutation (done done' : list Client) (start end_ : Time) :
  done ≡ₚ done' ->
  merged (fetchAll LoadLocation NewRRule done start end_)
  ≡ₚ merged (fetchAll LoadLocation NewRRule done' start end_).
Proof.
  induction 1 as [|c l l' _ IH|c1 c2 l|l l' l'' _ IH1 _ IH2]; [reflexivity| | |].
  - rewrite !fetchAll_cons. unfold merged in *. cbn [fmap list_fmap concat]. now rewrite IH.
  - rewrite !fetchAll_cons. unfold merged. cbn [fmap list_fmap concat].
    rewrite !app_assoc. f_equiv. apply Permutation_app_comm.
  - now rewrite IH1.
Qed.

Lemma existsb_failed_Permutation (done done' : list Client) (start end_ : Time) :
  done ≡ₚ done' ->
  existsb failed (fetchAll LoadLocation NewRRule done start end_)
  = existsb failed (fetchAll LoadLocation NewRRule done' start end_).
Proof.
  induction 1 as [|c l l' _ IH|c1 c2 l|l l' l'' _ IH1 _ IH2]; [reflexivity| | |].
  - rewrite !fetchAll_cons. cbn [existsb]. now rewrite IH.
  - rewrite !fetchAll_cons. cbn [existsb]. rewrite !orb_assoc. f_equal. apply orb_comm.
  - now rewrite IH1.
Qed.

(** X15.  The order in which the fetches of the events endpoint finish does
    not show in its answer beyond the order of ties.  For two orders, the
    answers are both errors with one status, or both lists of events; the
    two lists hold the same events, and show the same sort keys (all-day
    flag, start instant, summary) in the same places. *)
Theorem GetEvents_any_completion_order (h : Handler) (startStr endStr : string)
    (done done' : list Client) :
  done ≡ₚ done' ->
  match response (GetEvents LoadLocation NewRRule h startStr endStr done),
        response (GetEvents LoadLocation NewRRule h startStr endStr done') with
  | JSONEvents events, JSONEvents events' =>
      events ≡ₚ events' /\ sortKey <$> events = sortKey <$> events'
  | JSONError status _, JSONError status' _ => status = status'
  | _, _ => False
  end.
Proof.
  intros Hperm.
  destruct (String.eqb_spec startStr EmptyString) as [->|Hs]; [reflexivity|].
  destruct (String.eqb_spec endStr EmptyString) as [->|He].
  { unfold GetEvents. rewrite orb_true_r. reflexivity. }
  destruct (ParseInLocation layoutISODate startStr (hTimezone h)) as [start|e] eqn:Ps.
  2:{ unfold GetEvents. rewrite Ps.
      rewrite (proj2 (String.eqb_neq _ _) Hs), (proj2 (String.eqb_neq _ _) He). reflexivity. }
  destruct (ParseInLocation layoutISODate endStr (hTimezone h)) as [end_|e] eqn:Pe.
  2:{ unfold GetEvents. rewrite Ps, Pe.
      rewrite (proj2 (String.eqb_neq _ _) Hs), (proj2 (String.eqb_neq _ _) He). reflexivity. }
  pose proof (GetEvents_response LoadLocation NewRRule h startStr endStr done start end_
                Hs He Ps Pe) as H1.
  pose proof (GetEvents_response LoadLocation NewRRule h startStr endStr done' start end_
                Hs He Ps Pe) as H2.
  cbv zeta in H1, H2.
  pose proof (merged_Permutation done done' start (Add end_ (24 * Hour)) Hperm) as Hm.
  rewrite <- (existsb_failed_Permutation done done' start (Add end_ (24 * Hour)) Hperm) in H2.
  set (window := Add end_ (24 * Hour)) in *.
  assert (Hnil : bool_decide (merged (fetchAll LoadLocation NewRRule done' start window) = [])
                 = bool_decide (merged (fetchAll LoadLocation NewRRule done start window) = [])).
  { apply bool_decide_ext. split; intros E; rewrite E in Hm.
    - now apply Permutation_nil_r in Hm.
    - symmetry in Hm. now apply Permutation_nil_r in Hm. }
  rewrite Hnil in H2.
  destruct (_ && _).
  - destruct H1 as [m1 ->], H2 as [m2 ->]. reflexivity.
  - rewrite H1, H2. split.
    + now rewrite <- !sortEvents_Permutation.
    + apply (sortResult_keys
               (merged (fetchAll LoadLocation NewRRule done start window))).
      * apply sortEvents_sortResult.
      * split; [|apply sortEvents_Sorted]. rewrite Hm. apply sortEvents_Permutation.
Qed.

Lemma spanDays_union (eventEnd : Time) (month : Z) (fuel : nat) :
  forall d daysSet,
    spanDays fuel d eventEnd month daysSet = daysSet ∪ spanDays fuel d eventEnd month ∅.
Proof.
  induction fuel as [|fuel IH]; intros d daysSet; cbn [spanDays].
  - set_solver.
  - destruct (_ && _); [|set_solver].
    rewrite (IH _ ({[Day d]} ∪ daysSet)), (IH _ ({[Day d]} ∪ ∅)). set_solver.
Qed.

Lemma markDays_union (tz : GoTime.Location) (month : Z) (daysSet : gset Z) (e : Event) :
  markDays tz month daysSet e = daysSet ∪ markDays tz month ∅ e.
Proof.
  unfold markDays. cbv zeta. destruct (negb (AllDay e)); [|set_solver].
  rewrite (spanDays_union _ _ _ _ ({[Day (In (Start e) tz)]} ∪ daysSet)),
    (spanDays_union _ _ _ _ ({[Day (In (Start e) tz)]} ∪ ∅)).
  set_solver.
Qed.

Lemma fold_markDays (tz : GoTime.Location) (month : Z) (events : list Event) :
  forall daysSet,
    fold_left (markDays tz month) events daysSet
    = daysSet ∪ ⋃ (markDays tz month ∅ <$> events).
Proof.
  induction events as [|e l IH]; intros daysSet; cbn [fold_left fmap list_fmap].
  - rewrite union_list_nil. set_solver.
  - rewrite IH, union_list_cons, (markDays_union _ _ daysSet). set_solver.
Qed.


End Schedules.

(** ** Calendar days and days of 24 hours *)

Section Calendar.

Import GoTime Ical Caldav Api Spec Checks MonthView.

Lemma allIn_spec (f : Z -> bool) (p : positive) :
  forall i, allIn p i f = true -> forall x, i <= x < i + Z.pos p -> f x = true.
Proof.
  induction p as [q IH|q IH|]; intros i H x Hx; cbn [allIn] in H.
  - apply andb_true_iff in H as [H H2]. apply andb_true_iff in H as [H0 H1].
    destruct (Z.eq_dec x i) as [->|]; [exact H0|].
    destruct (Z.lt_ge_cases x (i + 1 + Z.pos q)).
    + apply (IH (i + 1) H1). lia.
    + apply (IH (i + 1 + Z.pos q) H2). lia.
  - apply andb_true_iff in H as [H1 H2].
    destruct (Z.lt_ge_cases x (i + Z.pos q)).
    + apply (IH i H1). lia.
    + apply (IH (i + Z.pos q) H2). lia.
  - replace x with i by lia. exact H.
Qed.

Lemma civil_checks_era :
  allIn 146097 0 (fun doe => civilBounds doe && civilDayBounds doe) = true.
Proof. vm_compute. reflexivity. Qed.

Lemma civilBounds_holds (doe : Z) : 0 <= doe < 146097 -> civilBounds doe = true.
Proof.
  intros H. pose proof (allIn_spec _ _ _ civil_checks_era doe H) as E.
  now apply andb_true_iff in E.
Qed.

Lemma civilDayBounds_holds (doe : Z) : 0 <= doe < 146097 -> civilDayBounds doe = true.
Proof.
  intros H. pose proof (allIn_spec _ _ _ civil_checks_era doe H) as E.
  now apply andb_true_iff in E.
Qed.

(** The date of a day count is a date of that day count, with a month from
    1 to 12. *)
Lemma daysFromCivil_civilFromDays (days : Z) :
  daysFromCivil (civilFromDays days).1.1 (civilFromDays days).1.2 (civilFromDays days).2 = days
  /\ 1 <= (civilFromDays days).1.2 <= 12.
Proof.
  unfold civilFromDays. cbv zeta.
  set (z := days + 719468). set (era := z / 146097). set (doe := z - era * 146097).
  assert (Hdoe : 0 <= doe < 146097).
  { unfold doe, era. pose proof (Z.mod_pos_bound z 146097 ltac:(lia)).
    pose proof (Z.div_mod z 146097 ltac:(lia)). lia. }
  pose proof (civilBounds_holds doe Hdoe) as Hb. unfold civilBounds in Hb. cbv zeta in Hb.
  set (yoe := (doe - doe / 1460 + doe / 36524 - doe / 146096) / 365) in *.
  set (doy := doe - (365 * yoe + yoe / 4 - yoe / 100)) in *.
  set (mp := (5 * doy + 2) / 153) in *.
  apply andb_true_iff in Hb as [Hb Hmp2]. apply andb_true_iff in Hb as [Hb Hmp1].
  apply andb_true_iff in Hb as [Hy1 Hy2].
  apply Z.leb_le in Hy1, Hy2, Hmp1, Hmp2.
  cbn [fst snd].
  set (m := if mp <? 10 then mp + 3 else mp - 9).
  assert (Hm : 1 <= m <= 12) by (unfold m; destruct (Z.ltb_spec mp 10); lia).
  split; [|exact Hm].
  unfold daysFromCivil. cbv zeta.
  assert (Hy : (if m <=? 2 then (if m <=? 2 then yoe + era * 400 + 1 else yoe + era * 400) - 1
                else (if m <=? 2 then yoe + era * 400 + 1 else yoe + era * 400))
               = yoe + era * 400) by (destruct (m <=? 2); lia).
  rewrite Hy.
  assert (Hera : (yoe + era * 400) / 400 = era)
    by (rewrite Z.div_add by lia; rewrite Z.div_small by lia; lia).
  rewrite Hera.
  assert (Hmp : (m + 9) mod 12 = mp).
  { unfold m. destruct (Z.ltb_spec mp 10).
    - replace (mp + 3 + 9) with (mp + 1 * 12) by lia.
      rewrite Z.mod_add by lia. apply Z.mod_small. lia.
    - replace (mp - 9 + 9) with mp by lia. apply Z.mod_small. lia. }
  rewrite Hmp.
  replace (yoe + era * 400 - era * 400) with yoe by ring.
  unfold doy, doe, z. ring.
Qed.

Lemma daysFromCivil_next_day (year month day : Z) :
  daysFromCivil year month (day + 1) = daysFromCivil year month day + 1.
Proof. unfold daysFromCivil. cbv zeta. lia. Qed.

Lemma lookup_fixed (l : GoTime.Location) (sec : Z) :
  zoneTx l = [] -> lookup l sec = (zoneFirst l, alpha, omega).
Proof. intros H. unfold lookup. now rewrite H. Qed.

(** In a location without transitions [time.Date] takes the wall clock time
    at the one offset. *)
Lemma Date_fixed (year month day hour min sec nsec : Z) (l : GoTime.Location) :
  zoneTx l = [] -> 1 <= month <= 12 -> 0 <= nsec < 1000000000 ->
  unixNano (Date year month day hour min sec nsec l)
  = (daysFromCivil year month day * 86400 + hour * 3600 + min * 60 + sec - zoneFirst l)
    * 1000000000 + nsec.
Proof.
  intros Hl Hm Hn. unfold Date. cbv zeta.
  replace ((month - 1) / 12) with 0 by (symmetry; apply Z.div_small; lia).
  replace ((month - 1) mod 12 + 1) with month by (rewrite Z.mod_small; lia).
  rewrite Z.div_small, Z.mod_small by lia.
  rewrite lookup_fixed by exact Hl. unfold offsetAt. rewrite lookup_fixed by exact Hl.
  cbn [fst snd unixNano].
  destruct (Z.eqb_spec (zoneFirst l) 0) as [E|E].
  - rewrite E, !Z.add_0_r, Z.sub_0_r. reflexivity.
  - rewrite !Z.add_0_r. destruct (_ || _); reflexivity.
Qed.

(** In a location with one fixed UTC offset, 24 hours after an instant is
    one calendar day after it: the same wall clock time on the next date,
    as [AddDate(0, 0, 1)] gives it. *)
Lemma AddDate_one_day_fixed (t : Time) :
  zoneTx (loc t) = [] -> AddDate t 0 0 1 = Add t (24 * Hour).
Proof.
  intros Hl. unfold AddDate, dateOf, clockOf.
  set (W := wallSec t).
  pose proof (daysFromCivil_civilFromDays (W / 86400)) as [Hround Hmonth].
  destruct (civilFromDays (W / 86400)) as [[year month] day]. cbn [fst snd] in Hround, Hmonth.
  assert (Hns : 0 <= nsecOf t < 1000000000) by (apply Z.mod_pos_bound; lia).
  assert (Hloc : loc (Date (year + 0) (month + 0) (day + 1) (W mod 86400 / 3600)
                        (W mod 86400 mod 3600 / 60) (W mod 86400 mod 60) (nsecOf t) (loc t))
                 = loc t) by apply Date_loc.
  pose proof (Date_fixed (year + 0) (month + 0) (day + 1) (W mod 86400 / 3600)
                (W mod 86400 mod 3600 / 60) (W mod 86400 mod 60) (nsecOf t) (loc t)
                Hl ltac:(lia) Hns) as Hunix.
  destruct (Date _ _ _ _ _ _ _ _) as [n l]. cbn [loc unixNano] in Hloc, Hunix.
  unfold Add. subst l. f_equal.
  rewrite Hunix, !Z.add_0_r, daysFromCivil_next_day, Hround.
  unfold W, wallSec, offsetAt in *. rewrite lookup_fixed in * by exact Hl. cbn [fst] in *.
  unfold nsecOf, unixSec in *. change (24 * Hour) with 86400000000000.
  pose proof (Z.div_mod (unixNano t) 1000000000 ltac:(lia)).
  pose proof (Z.div_mod (unixNano t / 1000000000 + zoneFirst (loc t)) 86400 ltac:(lia)).
  pose proof (Z.div_mod ((unixNano t / 1000000000 + zoneFirst (loc t)) mod 86400) 3600
                ltac:(lia)).
  pose proof (Z.div_mod (((unixNano t / 1000000000 + zoneFirst (loc t)) mod 86400) mod 3600) 60
                ltac:(lia)).
  assert (Hs : ((unixNano t / 1000000000 + zoneFirst (loc t)) mod 86400) mod 60
               = (((unixNano t / 1000000000 + zoneFirst (loc t)) mod 86400) mod 3600) mod 60).
  { symmetry. apply Z.mod_mod_divide. exists 60. reflexivity. }
  rewrite Hs. lia.
Qed.







(** The day of month of an instant is one of 1 to 31. *)
Lemma Day_range (t : Time) : 1 <= Day t <= 31.
Proof.
  unfold Day, dateOf, civilFromDays. cbv zeta. cbn [snd].
  set (z := wallSec t / 86400 + 719468). set (era := z / 146097).
  set (doe := z - era * 146097).
  assert (Hdoe : 0 <= doe < 146097).
  { unfold doe, era. pose proof (Z.mod_pos_bound z 146097 ltac:(lia)).
    pose proof (Z.div_mod z 146097 ltac:(lia)). lia. }
  pose proof (civilDayBounds_holds doe Hdoe) as Hb. unfold civilDayBounds in Hb.
  cbv zeta in Hb. apply andb_true_iff in Hb as [H1 H2].
  apply Z.leb_le in H1, H2. split; assumption.
Qed.

Variable LoadLocation : string -> option GoTime.Location.
Variable NewRRule : string -> result RRule.

(** X19.  In a display timezone with one fixed UTC offset the day the code
    adds as 24 hours is a calendar day.  An all-day event without end,
    duration and rule ends at the start moved on by one calendar day, the
    same wall clock time on the next date. *)
Theorem parseEvent_all_day_end_in_fixed_zone (c : Client) (comp : Component)
    (queryStart queryEnd : Time) (uid dtstart : Property) (startTime : Time) :
  zoneTx (timezone c) = [] ->
  PropsGet (compProps comp) "UID" = Some uid ->
  PropsGet (compProps comp) "DTSTART" = Some dtstart ->
  parseDateTime LoadLocation c dtstart = Ok (startTime, true) ->
  PropsGet (compProps comp) "DTEND" = None ->
  PropsGet (compProps comp) "DURATION" = None ->
  PropsGet (compProps comp) "RRULE" = None ->
  parseEvent LoadLocation NewRRule c comp queryStart queryEnd
  = (Ok [mkEvent (propValue uid) (textOf comp "SUMMARY") (textOf comp "DESCRIPTION")
           (textOf comp "LOCATION") startTime (AddDate startTime 0 0 1) true
           (calendarName c) (calendarColor c) false], []).
Proof.
  intros Hz Huid Hdt Hstart Hend Hdur Hrule.
  unfold parseEvent. rewrite Huid, Hdt, Hstart, Hend, Hdur, Hrule.
  rewrite AddDate_one_day_fixed; [reflexivity|].
  now rewrite (parseDateTime_loc LoadLocation c dtstart startTime true Hstart).
Qed.

(** X20.  In a display timezone with one fixed UTC offset the window of the
    events endpoint ends at 00:00 of the day after the end date: every
    client is fetched for the window from 00:00 of [start] to the parsed end
    date moved on by one calendar day. *)
Theorem GetEvents_window_in_fixed_zone (h : Handler) (startStr endStr : string)
    (done : list Client) (start end_ : Time) :
  zoneTx (hTimezone h) = [] ->
  ParseInLocation layoutISODate startStr (hTimezone h) = Ok start ->
  ParseInLocation layoutISODate endStr (hTimezone h) = Ok end_ ->
  fetches (GetEvents LoadLocation NewRRule h startStr endStr done)
  = (fun c => (calendarName c, start, AddDate end_ 0 0 1)) <$> done.
Proof.
  intros Hz Ps Pe.
  assert (Hs : startStr <> EmptyString) by (intros ->; discriminate Ps).
  assert (He : endStr <> EmptyString) by (intros ->; discriminate Pe).
  rewrite (GetEvents_window LoadLocation NewRRule h startStr endStr done start end_ Hs He Ps Pe).
  rewrite AddDate_one_day_fixed; [reflexivity|].
  now rewrite (parse_loc _ _ _ _ Pe).
Qed.



End Calendar.

(** ** The days of the month view *)

Section MonthDays.

Import GoTime Ical Caldav Api Spec Views MonthView.

Variable LoadLocation : string -> option GoTime.Location.
Variable NewRRule : string -> result RRule.

Lemma Add_Add (t : Time) (a b : Duration) : Add (Add t a) b = Add t (a + b).
Proof. unfold Add. cbn [unixNano loc]. f_equal. lia. Qed.

Lemma Add_0 (t : Time) : Add t 0 = t.
Proof. destruct t as [n l]. unfold Add. cbn [unixNano loc]. f_equal. lia. Qed.

(** The days the loop over a timed event marks: those of the rounds it gets
    to within its fuel. *)
Lemma spanDays_elem (eventEnd : Time) (month : Z) (fuel : nat) :
  forall d daysSet day,
    day ∈ spanDays fuel d eventEnd month daysSet
    <-> day ∈ daysSet
        \/ exists k, (k < fuel)%nat
             /\ (forall j, (j <= k)%nat ->
                   Before (Add d (Z.of_nat j * (24 * Hour))) eventEnd = true
                   /\ Month (Add d (Z.of_nat j * (24 * Hour))) = month)
             /\ day = Day (Add d (Z.of_nat k * (24 * Hour))).
Proof.
  induction fuel as [|fuel IH]; intros d daysSet day; cbn [spanDays].
  - split; [now left|]. intros [H|(k & Hk & _)]; [exact H | lia].
  - destruct (Before d eventEnd && (Month d =? month)) eqn:Hc.
    + apply andb_true_iff in Hc as [Hb Hm]. apply Z.eqb_eq in Hm.
      rewrite IH. split.
      * intros [H|(k & Hk & Hr & ->)].
        -- apply elem_of_union in H as [H|H]; [|now left].
           apply elem_of_singleton in H as ->. right. exists 0%nat.
           split; [lia|]. split; [|now rewrite Add_0].
           intros j Hj. replace j with 0%nat by lia. now rewrite Add_0.
        -- right. exists (S k). split; [lia|]. split.
           ++ intros [|j] Hj; [now rewrite Add_0|].
              specialize (Hr j ltac:(lia)). rewrite Add_Add in Hr.
              now replace (Z.of_nat (S j) * (24 * Hour))
                with (24 * Hour + Z.of_nat j * (24 * Hour)) by lia.
           ++ rewrite Add_Add. f_equal. f_equal. lia.
      * intros [H|(k & Hk & Hr & ->)]; [left; set_solver|].
        destruct k as [|k].
        -- left. rewrite Add_0. set_solver.
        -- right. exists k. split; [lia|]. split.
           ++ intros j Hj. specialize (Hr (S j) ltac:(lia)). rewrite Add_Add.
              now replace (24 * Hour + Z.of_nat j * (24 * Hour))
                with (Z.of_nat (S j) * (24 * Hour)) by lia.
           ++ rewrite Add_Add. f_equal. f_equal. lia.
    + split; [now left|]. intros [H|(k & Hk & Hr & _)]; [exact H|].
      specialize (Hr 0%nat ltac:(lia)). rewrite Add_0 in Hr. destruct Hr as [Hb Hm].
      rewrite Hb in Hc. apply Z.eqb_eq in Hm. rewrite Hm in Hc. discriminate.
Qed.

(** The fuel of the loop is enough for every round it can get to. *)
Lemma reaches_spanFuel (d eventEnd : Time) (k : nat) :
  Before (Add d (Z.of_nat k * (24 * Hour))) eventEnd = true ->
  (k < spanFuel d eventEnd)%nat.
Proof.
  unfold Before, Add, spanFuel. cbn [unixNano]. change (24 * Hour) with 86400000000000.
  intros H. apply Z.ltb_lt in H.
  assert (Z.of_nat k <= (unixNano eventEnd - unixNano d) / 86400000000000).
  { apply Z.div_le_lower_bound; lia. }
  lia.
Qed.

Lemma markDays_elem (tz : GoTime.Location) (month : Z) (e : Event) (day : Z) :
  day ∈ markDays tz month ∅ e <-> marks tz month e day.
Proof.
  unfold markDays, marks. cbv zeta. destruct (AllDay e); cbn [negb].
  - split.
    + intros H. left. set_solver.
    + intros [->|[[=] _]]. set_solver.
  - rewrite spanDays_elem. split.
    + intros [H|(k & _ & Hr & ->)]; [left; set_solver|].
      right. split; [reflexivity|]. exists k. split; [exact Hr | reflexivity].
    + intros [->|(_ & k & Hr & ->)]; [left; set_solver|].
      right. exists k. split; [|split; [exact Hr | reflexivity]].
      apply reaches_spanFuel. apply (Hr k). lia.
Qed.

(** X17.  The days of the month view.  For a valid request, a day is in the
    answer exactly when it is marked for an event of a fetch that succeeded:
    it is the day of month of the start of the event in the display timezone
    (whatever month that is in), or the event is timed and it is the day of
    month of the start moved on by a number of steps of 24 hours, every step
    up to it being before the end of the event and in the requested month.
    An all-day event marks the day of its start only, however many days it
    lasts. *)
Theorem GetEventsMonth_days (h : Handler) (yearStr monthStr : string) (done : list Client)
    (year month : Z) :
  Strconv.Atoi yearStr = Some year -> Strconv.Atoi monthStr = Some month ->
  1 <= month <= 12 ->
  let start := Date year month 1 0 0 0 0 (hTimezone h) in
  let fetched := fetchAll LoadLocation NewRRule done start (AddDate start 0 1 0) in
  exists days,
    response (GetEventsMonth LoadLocation NewRRule h yearStr monthStr done) = JSONDays days
    /\ (forall day, day ∈ days
                    <-> exists e, e ∈ merged fetched /\ marks (hTimezone h) month e day)
    /\ (forall e, e ∈ merged fetched -> AllDay e = true ->
          forall day, marks (hTimezone h) month e day <-> day = Day (In (Start e) (hTimezone h))).
Proof.
  intros Hy Hm Hrange start fetched.
  destruct (GetEventsMonth_valid LoadLocation NewRRule h yearStr monthStr done year month
              Hy Hm Hrange) as [_ Hresp].
  cbv zeta in Hresp. fold start fetched in Hresp.
  eexists. split; [exact Hresp|]. split.
  - intros day. rewrite fold_markDays, elem_of_union, elem_of_union_list. split.
    + intros [H|(X & HX & Hday)]; [set_solver|].
      apply list_elem_of_fmap in HX as (e & -> & He).
      exists e. split; [exact He|]. now apply markDays_elem.
    + intros (e & He & Hmark). right. exists (markDays (hTimezone h) month ∅ e).
      split; [apply list_elem_of_fmap; eauto | now apply markDays_elem].
  - intros e _ Hall day. unfold marks. rewrite Hall. split.
    + intros [->|[[=] _]]. reflexivity.
    + intros ->. now left.
Qed.

(** X18.  Every day the month view answers with is one of 1 to 31. *)
Theorem GetEventsMonth_days_in_range (h : Handler) (yearStr monthStr : string)
    (done : list Client) :
  match response (GetEventsMonth LoadLocation NewRRule h yearStr monthStr done) with
  | JSONDays days => set_Forall (fun day => 1 <= day <= 31) days
  | _ => True
  end.
Proof.
  unfold GetEventsMonth.
  destruct (_ || _); [exact I|].
  destruct (Strconv.Atoi yearStr) as [year|]; [|exact I].
  destruct (Strconv.Atoi monthStr) as [month|]; [|exact I].
  destruct (_ || _); [exact I|].
  destruct (collectMonth _ _ _ _ _ _ _) as [allEvents log]. cbn [response].
  intros day. rewrite fold_markDays, elem_of_union, elem_of_union_list.
  intros [H|(X & HX & Hday)]; [set_solver|].
  apply list_elem_of_fmap in HX as (e & -> & He).
  apply markDays_elem in Hday as [->|(_ & k & _ & ->)]; apply Day_range.
Qed.

End MonthDays.

(** ** Texts, durations and bounds *)

Section Texts.

Import GoTime Ical Caldav Api Spec.

Lemma decodeText_length (n : nat) :
  forall s, (String.length s <= n)%nat ->
            (String.length (decodeText s) <= String.length s)%nat.
Proof.
  induction n as [|n IH]; intros s Hn.
  - destruct s; [reflexivity | cbn in Hn; lia].
  - destruct s as [|c rest]; [reflexivity|]. cbn [String.length] in Hn.
    cbn [decodeText]. destruct (GoStrings.byteEq c backslash).
    + destruct rest as [|next rest']; [reflexivity|]. cbn [String.length] in Hn.
      destruct (_ || _).
      * cbn [String.length]. specialize (IH rest' ltac:(lia)). lia.
      * destruct (_ || _); cbn [String.length].
        -- specialize (IH rest' ltac:(lia)). lia.
        -- specialize (IH (String next rest') ltac:(cbn [String.length]; lia)).
           cbn [String.length] in IH. lia.
    + cbn [String.length]. specialize (IH rest ltac:(lia)). lia.
Qed.

(** X5.  Decoding never makes a text longer, so the buffer of [len(s)] bytes
    the code reserves holds the result; and a text without a backslash is
    returned as it is. *)
Theorem unescapeICalText_never_longer (s : string) :
  (String.length (unescapeICalText s) <= String.length s)%nat
  /\ (GoStrings.Contains s backslash = false -> unescapeICalText s = s).
Proof.
  rewrite unescapeICalText_decodeText. split.
  - exact (decodeText_length (String.length s) s (le_n _)).
  - induction s as [|c rest IH]; [reflexivity|].
    rewrite Contains_cons. intros H. apply orb_false_iff in H as [Hc Hrest].
    cbn [decodeText]. rewrite Hc. now rewrite IH.
Qed.

(** X6.  The sign of a duration.  A text that starts with [-P] is read as
    the text without the minus sign is, and the result negated: both are
    refused, with one message, or both accepted. *)
Theorem parseDuration_minus_sign (body : string) :
  parseDuration ("-P" +:+ body)
  = (duration <- parseDuration ("P" +:+ body) ;; Ok (GoInt.neg64 duration)).
Proof.
  pose proof (parseDuration_parts true body) as Hn.
  pose proof (parseDuration_parts false body) as Hp.
  cbn [signText] in Hn, Hp. rewrite string_app_nil_l in Hp.
  change ("-" +:+ "P" +:+ body) with ("-P" +:+ body) in Hn.
  rewrite Hn, Hp. cbv zeta.
  destruct (datePartDuration _ 0) as [d|e]; cbn [rbind]; [|reflexivity].
  destruct (timePartDuration _ d) as [d'|e]; reflexivity.
Qed.

End Texts.

Section Bounds.

Import GoTime Ical Caldav Api Spec.

Variable LoadLocation : string -> option GoTime.Location.
Variable NewRRule : string -> result RRule.

Lemma omap_length {A B : Type} (f : A -> option B) (l : list A) :
  (length (omap f l) <= length l)%nat.
Proof.
  induction l as [|x l IH]; [reflexivity|].
  cbn [omap list_omap length]. destruct (f x); cbn [length]; lia.
Qed.

(** X8.  One component gives at most 1000 occurrences to one request,
    whatever its rule. *)
Theorem parseEvent_at_most_1000 (c : Client) (comp : Component) (queryStart queryEnd : Time) :
  (length (eventsOf (parseEvent LoadLocation NewRRule c comp queryStart queryEnd).1)
   <= 1000)%nat.
Proof.
  unfold parseEvent.
  destruct (PropsGet (compProps comp) "UID") as [uid|]; [|cbn; lia].
  destruct (PropsGet (compProps comp) "DTSTART") as [dtstart|]; [|cbn; lia].
  destruct (parseDateTime LoadLocation c dtstart) as [[startTime allDay]|e]; [|cbn; lia].
  match goal with
  | |- context [match ?r with Ok _ => _ | Err _ => _ end] =>
      match type of r with result Time => destruct r as [endTime|e] end
  end; [|cbn; lia].
  destruct (PropsGet (compProps comp) "RRULE") as [rruleProp|] eqn:Hrule; [|cbn; lia].
  unfold expandRecurringEvent. rewrite Hrule.
  destruct (NewRRule _) as [rule|e]; [|cbn; lia].
  destruct (exdatesOf c comp) as [exdates lines]. cbn [fst eventsOf].
  etransitivity; [apply omap_length|].
  rewrite candidates_take, length_take. unfold maxOccurrences. lia.
Qed.

End Bounds.

(** ** The configuration (config.go) *)

Section Configuration.

Import Config ConfigViews.

Variable LoadLocation : string -> result GoTime.Location.

Lemma CalendarValidate_valid (c : Calendar) : CalendarValidate c = None <-> validCalendar c.
Proof.
  unfold CalendarValidate, validCalendar.
  destruct (String.eqb_spec (Name c) EmptyString) as [E1|E1];
    [split; [discriminate | intros (H & _); contradiction]|].
  destruct (String.eqb_spec (URL c) EmptyString) as [E2|E2];
    [split; [discriminate | intros (_ & H & _); contradiction]|].
  destruct (String.eqb_spec (UserID c) EmptyString) as [E3|E3];
    [split; [discriminate | intros (_ & _ & H & _); contradiction]|].
  destruct (String.eqb_spec (PasswordFile c) EmptyString) as [E4|E4];
    [split; [discriminate | intros (_ & _ & _ & H & _); contradiction]|].
  destruct (String.eqb_spec (Color c) EmptyString) as [E5|E5].
  { split; [discriminate|]. intros (_ & _ & _ & _ & rest & H & _). congruence. }
  destruct (Color c) as [|c0 rest]; [contradiction|].
  unfold GoStrings.len. cbn [GoStrings.HasPrefix String.length].
  destruct (GoStrings.byteEq c0 "#") eqn:Hc; cbn [negb orb].
  - apply Ascii.eqb_eq in Hc. subst c0.
    replace (GoStrings.HasPrefix rest EmptyString) with true by (now destruct rest).
    cbn [negb orb].
    destruct (Z.eqb_spec (Z.of_nat (S (String.length rest))) 7) as [E|E]; cbn [negb].
    + split; [|reflexivity]. intros _. repeat (split; [assumption|]).
      exists rest. split; [reflexivity | lia].
    + split; [discriminate|]. intros (_ & _ & _ & _ & rest' & [= <-] & Hl). lia.
  - split; [discriminate|]. intros (_ & _ & _ & _ & rest' & [= -> _] & _).
    unfold GoStrings.byteEq in Hc. now rewrite Ascii.eqb_refl in Hc.
Qed.

Lemma validateCalendars_None (calendars : list Calendar) :
  forall i, validateCalendars i calendars = None <-> Forall validCalendar calendars.
Proof.
  induction calendars as [|cal rest IH]; intros i; cbn [validateCalendars].
  - split; [constructor | reflexivity].
  - destruct (CalendarValidate cal) as [err|] eqn:E.
    + split; [discriminate|]. intros H. apply Forall_cons in H as [H _].
      apply CalendarValidate_valid in H. congruence.
    + rewrite IH. apply CalendarValidate_valid in E. split.
      * intros H. now constructor.
      * intros H. now apply Forall_cons in H as [_ H].
Qed.

(** X22.  What [Config.Validate] accepts.  It returns no error exactly when
    the time zone is named and can be loaded, the refresh interval is
    positive, there is at least one calendar, and every calendar has all its
    fields filled in and a colour of [#] and six more bytes (which need not
    be hexadecimal digits).  A configuration it accepts therefore has a
    location:  [GetLocation] does not fail on it. *)
Theorem Validate_accepts (c : Config) :
  (Validate LoadLocation c = None
   <-> TimeZone c <> EmptyString
       /\ isOk (LoadLocation (TimeZone c)) = true
       /\ 0 < AutoRefresh c
       /\ Calendars c <> []
       /\ Forall validCalendar (Calendars c))
  /\ (Validate LoadLocation c = None -> isOk (GetLocation LoadLocation c) = true).
Proof.
  assert (H : Validate LoadLocation c = None
              <-> TimeZone c <> EmptyString
                  /\ isOk (LoadLocation (TimeZone c)) = true
                  /\ 0 < AutoRefresh c
                  /\ Calendars c <> []
                  /\ Forall validCalendar (Calendars c)).
  { unfold Validate.
    destruct (String.eqb_spec (TimeZone c) EmptyString) as [E|E];
      [split; [discriminate | intros (H & _); contradiction]|].
    destruct (LoadLocation (TimeZone c)) as [l|err];
      [|split; [discriminate | intros (_ & H & _); discriminate]].
    destruct (Z.leb_spec (AutoRefresh c) 0) as [Ha|Ha];
      [split; [discriminate | intros (_ & _ & H & _); lia]|].
    destruct (Calendars c) as [|cal rest] eqn:Ec; cbn [length Nat.eqb].
    { split; [discriminate | intros (_ & _ & _ & H & _); contradiction]. }
    rewrite validateCalendars_None. split.
    - intros H. repeat split; try assumption. discriminate.
    - intros (_ & _ & _ & _ & H). exact H. }
  split; [exact H|]. intros Hv. apply H in Hv as (_ & Hl & _). exact Hl.
Qed.

Lemma validateCalendars_first (calendars : list Calendar) :
  forall i k cal err,
    Forall (fun c => CalendarValidate c = None) (take k calendars) ->
    calendars !! k = Some cal -> CalendarValidate cal = Some err ->
    validateCalendars i calendars
    = Some ("calendar " +:+ GoTime.appendInt (i + Z.of_nat k) 0
            +:+ " (" +:+ Name cal +:+ "): " +:+ err).
Proof.
  induction calendars as [|c0 rest IH]; intros i k cal err Hvalid Hk Herr; [discriminate|].
  destruct k as [|k]; cbn [validateCalendars].
  - injection Hk as ->. rewrite Herr. now rewrite Z.add_0_r.
  - cbn [take] in Hvalid. apply Forall_cons in Hvalid as [H0 Hvalid]. rewrite H0.
    rewrite (IH (i + 1) k cal err Hvalid Hk Herr). do 3 f_equal. f_equal. lia.
Qed.

(** X23.  [Config.Validate] reports the first calendar that is not valid.
    When the time zone and the refresh interval pass, the calendars before
    index [k] pass [Calendar.Validate] and the calendar at index [k] does
    not, the error is that of this calendar, with [k] and its name in front. *)
Theorem Validate_reports_first_invalid_calendar (c : Config) (k : nat) (cal : Calendar)
    (err : string) :
  TimeZone c <> EmptyString -> isOk (LoadLocation (TimeZone c)) = true ->
  0 < AutoRefresh c ->
  Forall (fun c => CalendarValidate c = None) (take k (Calendars c)) ->
  Calendars c !! k = Some cal -> CalendarValidate cal = Some err ->
  Validate LoadLocation c
  = Some ("calendar " +:+ GoTime.appendInt (Z.of_nat k) 0
          +:+ " (" +:+ Name cal +:+ "): " +:+ err).
Proof.
  intros Htz Hl Ha Hvalid Hk Herr. unfold Validate.
  rewrite (proj2 (String.eqb_neq _ _) Htz).
  destruct (LoadLocation (TimeZone c)); [|discriminate].
  rewrite (proj2 (Z.leb_gt _ _) Ha).
  destruct (Calendars c) as [|c0 rest] eqn:Ec; [discriminate|]. cbn [length Nat.eqb].
  exact (validateCalendars_first (c0 :: rest) 0 k cal err Hvalid Hk Herr).
Qed.

Lemma sanitized_calendars (l l' : list Calendar) :
  (fun cal => (Name cal, Color cal)) <$> l = (fun cal => (Name cal, Color cal)) <$> l'
  <-> (fun cal => VMap (<["name" := VString (Name cal)]>
                          (<["color" := VString (Color cal)]> ∅))) <$> l
      = (fun cal => VMap (<["name" := VString (Name cal)]>
                            (<["color" := VString (Color cal)]> ∅))) <$> l'.
Proof.
  revert l'. induction l as [|a l IH]; intros [|b l']; cbn [fmap list_fmap];
    try (split; discriminate); [split; reflexivity|].
  split.
  - intros [= -> -> Hl]. f_equal. now apply IH.
  - intros H. assert (Hl := f_equal tail H). cbn [tail] in Hl.
    assert (Hn := f_equal (fun vs => match vs with
                                     | VMap m :: _ => m !! "name"
                                     | _ => None
                                     end) H).
    assert (Hcol := f_equal (fun vs => match vs with
                                       | VMap m :: _ => m !! "color"
                                       | _ => None
                                       end) H).
    cbv beta iota in Hn, Hcol. rewrite !lookup_insert in Hn, Hcol.
    repeat case_decide; try congruence.
    f_equal; [congruence | now apply IH].
Qed.

(** X24.  [Sanitize] shows the frontend the time zone, the refresh interval
    and the name and colour of every calendar, in their order, and nothing
    else: its result has the three keys [timezone], [autoRefresh] and
    [calendars], and two configurations have one result exactly when they
    agree on these, whatever the URLs, user names and password files of
    their calendars are. *)
Theorem Sanitize_keeps_credentials_out (c c' : Config) :
  dom (Sanitize c) = {["timezone"; "autoRefresh"; "calendars"]}
  /\ (public c = public c' <-> Sanitize c = Sanitize c').
Proof.
  split.
  { unfold Sanitize. cbv zeta. rewrite !dom_insert_L, dom_empty_L. set_solver. }
  unfold public, Sanitize. cbv zeta. split.
  - intros [= -> -> Hc]. apply sanitized_calendars in Hc. now rewrite Hc.
  - intros H.
    assert (H1 := f_equal (fun m => m !! "timezone") H).
    assert (H2 := f_equal (fun m => m !! "autoRefresh") H).
    assert (H3 := f_equal (fun m => m !! "calendars") H).
    cbv beta in H1, H2, H3.
    rewrite !lookup_insert in H1, H2, H3.
    repeat case_decide; try congruence.
    assert (E1 : TimeZone c = TimeZone c') by congruence.
    assert (E2 : AutoRefresh c = AutoRefresh c') by congruence.
    assert (E3 : (fun cal => VMap (<["name" := VString (Name cal)]>
                                     (<["color" := VString (Color cal)]> ∅))) <$> Calendars c
                 = (fun cal => VMap (<["name" := VString (Name cal)]>
                                       (<["color" := VString (Color cal)]> ∅))) <$> Calendars c')
      by congruence.
    apply sanitized_calendars in E3. now rewrite E1, E2, E3.
Qed.

End Configuration.

(** ** The order of a response *)

Section Order.

Import GoTime Ical Caldav Api Spec.

Variable LoadLocation : string -> option GoTime.Location.
Variable NewRRule : string -> result RRule.

Lemma sortEvents_in_order (l : list Event) (i j : nat) (a b : Event) :
  (i < j)%nat -> sortEvents l !! i = Some a -> sortEvents l !! j = Some b ->
  (AllDay b = true -> AllDay a = true)
  /\ (AllDay a = AllDay b -> unixNano (Start a) <= unixNano (Start b))
  /\ (AllDay a = AllDay b -> unixNano (Start a) = unixNano (Start b) ->
      stringLess (Summary b) (Summary a) = false).
Proof.
  intros Hij Ha Hb.
  assert (Hs : StronglySorted notAfter (sortEvents l)).
  { apply Sorted_StronglySorted; [|apply sortEvents_Sorted].
    intros x y z. apply notAfter_trans. }
  assert (H : notAfter a b).
  { revert i j Hij Ha Hb. induction Hs as [|x rest Hs IH Hx]; intros i j Hij Ha Hb;
      [discriminate|].
    destruct j as [|j]; [lia|]. cbn in Hb. destruct i as [|i].
    - injection Ha as ->. rewrite Forall_forall in Hx. apply Hx.
      eapply list_elem_of_lookup_2. exact Hb.
    - cbn in Ha. apply (IH i j); [lia | exact Ha | exact Hb]. }
  apply notAfter_spec in H. unfold rank in H.
  split; [|split].
  - intros Hall. destruct (AllDay a); [reflexivity|]. rewrite Hall in H.
    destruct H as [H|[H _]]; lia.
  - intros E. rewrite E in H. destruct (AllDay b); destruct H as [H|[_ [H|[H _]]]]; lia.
  - intros E Es. rewrite E in H.
    destruct (AllDay b); destruct H as [H|[_ [H|[_ H]]]]; try lia; exact H.
Qed.

(** X25.  The events endpoint answers in order.  In the list of a response
    an all-day event never comes after a timed one; among the all-day
    events, and among the timed ones, the start instants never decrease; and
    of two events of one kind with one start instant the later one has no
    smaller summary. *)
Theorem GetEvents_answers_in_order (h : Handler) (startStr endStr : string)
    (done : list Client) :
  match response (GetEvents LoadLocation NewRRule h startStr endStr done) with
  | JSONEvents events =>
      forall i j a b, (i < j)%nat -> events !! i = Some a -> events !! j = Some b ->
        (AllDay b = true -> AllDay a = true)
        /\ (AllDay a = AllDay b -> unixNano (Start a) <= unixNano (Start b))
        /\ (AllDay a = AllDay b -> unixNano (Start a) = unixNano (Start b) ->
            stringLess (Summary b) (Summary a) = false)
  | _ => True
  end.
Proof.
  destruct (response (GetEvents LoadLocation NewRRule h startStr endStr done))
    as [status message|events|days] eqn:E; [exact I| |exact I].
  apply GetEvents_events in E as (start & end_ & ->).
  intros i j a b. apply sortEvents_in_order.
Qed.

End Order.

(** ** The escapes and their decoding *)

Section RoundTrip.

Import Caldav Spec.

(** X4.  TextEscapeDecoder's round trip: a text written with the recognised
    escape pairs (a backslash before each comma, semicolon and backslash,
    and backslash-n for each newline) decodes to the text it stands for. *)
Theorem unescapeICalText_encodeText (s : string) :
  unescapeICalText (encodeText s) = s.
Proof.
  rewrite unescapeICalText_decodeText.
  induction s as [|c rest IH]; [reflexivity|].
  cbn [encodeText].
  destruct (GoStrings.byteEq c "," || GoStrings.byteEq c ";"
            || GoStrings.byteEq c backslash) eqn:E1.
  - cbn [decodeText]. rewrite byteEq_refl, E1, IH. reflexivity.
  - apply orb_false_iff in E1 as [E1 Eb]. apply orb_false_iff in E1 as [Ec Es].
    destruct (GoStrings.byteEq c newline) eqn:E2.
    + apply Ascii.eqb_eq in E2. subst c.
      cbn [decodeText]. rewrite byteEq_refl.
      change (GoStrings.byteEq "n" "," || GoStrings.byteEq "n" ";"
              || GoStrings.byteEq "n" backslash) with false.
      change (GoStrings.byteEq "n" "n" || GoStrings.byteEq "n" "N") with true.
      cbv iota. rewrite IH. reflexivity.
    + cbn [decodeText]. rewrite Eb, IH. reflexivity.
Qed.

End RoundTrip.

(** ** What is written to standard error, and the clients of a handler *)

Section Logging.

Import GoTime Ical Caldav Api Spec Logs.

Variable LoadLocation : string -> option GoTime.Location.
Variable NewRRule : string -> result RRule.

Lemma collect_all (done : list Client) (start end_ : Time) :
  forall allEvents errs log,
    collect LoadLocation NewRRule done start end_ allEvents errs log
    = (allEvents ++ merged (fetchAll LoadLocation NewRRule done start end_),
       errs ++ (done ≫= fun c => fetchError c (FetchEvents LoadLocation NewRRule c start end_)),
       log ++ (done ≫= fun c => (FetchEvents LoadLocation NewRRule c start end_).2)).
Proof.
  induction done as [|c rest IH]; intros allEvents errs log; cbn [collect mbind list_bind].
  - cbn. now rewrite !app_nil_r.
  - rewrite fetchAll_cons. unfold merged. cbn [fmap list_fmap concat]. unfold fetchError at 1.
    destruct (FetchEvents LoadLocation NewRRule c start end_) as [[events|e] lines];
      rewrite IH; cbn [fst snd eventsOf app]; unfold merged; now rewrite <- !app_assoc.
Qed.

(** X26.  What the events endpoint writes to standard error.  For a request
    with valid dates, when it answers with events it writes, after the lines
    of the fetches, one line [Error fetching events: calendar <name>:
    <error>] for every fetch that failed, in the order in which the failures
    were recorded; when it answers with the error 500 the failures are in
    the message, in that order, and only the fetches have written lines. *)
Theorem GetEvents_logs_failures (h : Handler) (startStr endStr : string) (done : list Client)
    (start end_ : Time) :
  ParseInLocation layoutISODate startStr (hTimezone h) = Ok start ->
  ParseInLocation layoutISODate endStr (hTimezone h) = Ok end_ ->
  let out := GetEvents LoadLocation NewRRule h startStr endStr done in
  let fetch := fun c => FetchEvents LoadLocation NewRRule c start (Add end_ (24 * Hour)) in
  let errs := done ≫= fun c => fetchError c (fetch c) in
  exists fetchLines,
    fetchLines ≡ₚ (done ≫= fun c => (fetch c).2)
    /\ match response out with
       | JSONEvents _ =>
           stderr out = fetchLines ++ ((fun e => "Error fetching events: " +:+ e) <$> errs)
       | JSONError _ message =>
           message = "failed to fetch events: " +:+ showErrors errs
           /\ stderr out = fetchLines
       | JSONDays _ => False
       end.
Proof.
  intros Ps Pe. cbv zeta. unfold GetEvents.
  assert (Hs : String.eqb startStr EmptyString = false).
  { apply String.eqb_neq. intros ->. discriminate Ps. }
  assert (He : String.eqb endStr EmptyString = false).
  { apply String.eqb_neq. intros ->. discriminate Pe. }
  rewrite Hs, He, Ps, Pe. cbn [orb]. rewrite collect_all. cbn [app].
  eexists. split; [reflexivity|].
  destruct (_ && _); cbn [response stderr]; [split|]; reflexivity.
Qed.

Lemma newClients_clients (tz : GoTime.Location) (calendars : list CalendarConfig) :
  forall clients, newClients calendars tz = Ok clients ->
    (fun c => (calendarName c, calendarColor c, timezone c)) <$> clients
    = (fun cal => (Name cal, Color cal, tz)) <$> calendars
    /\ Forall (fun cal => isOk (GetPassword cal) = true) calendars.
Proof.
  induction calendars as [|cal rest IH]; intros clients; cbn [newClients].
  - intros [= <-]. split; [reflexivity | constructor].
  - unfold NewClient. destruct (GetPassword cal) eqn:E; [|discriminate].
    destruct (newClients rest tz) as [cs|e]; cbn [rbind]; [|discriminate].
    intros [= <-]. destruct (IH cs eq_refl) as [H1 H2]. split.
    + cbn [fmap list_fmap]. now rewrite H1.
    + constructor; [now rewrite E | exact H2].
Qed.

(** X27.  A handler that [NewHandler] returns has one client for every
    configured calendar, in the order of the configuration, with the name
    and colour of its calendar and the display timezone; and the password of
    every calendar could be read. *)
Theorem NewHandler_clients (tz : GoTime.Location) (calendars : list CalendarConfig)
    (h : Handler) :
  NewHandler tz calendars = Ok h ->
  hTimezone h = tz
  /\ (fun c => (calendarName c, calendarColor c, timezone c)) <$> clients h
     = (fun cal => (Name cal, Color cal, tz)) <$> calendars
  /\ Forall (fun cal => isOk (GetPassword cal) = true) calendars.
Proof.
  unfold NewHandler. destruct (newClients calendars tz) as [cs|e] eqn:E; cbn [rbind];
    [|discriminate].
  intros [= <-]. cbn [hTimezone clients]. split; [reflexivity|].
  now apply newClients_clients.
Qed.

End Logging.

(** ** Password files (config.go) *)

Section PasswordFiles.

Import Config Passwords.

Variable TrimFuncIsSpace : string -> string.
Variable TrimRightFuncIsSpace : string -> string.
Variable ReadFile : string -> result string.

Lemma trimStart_ascii (s : string) :
  allBytes (fun c => negb (runeSelf c)) s = true ->
  exists pre t,
    trimStart s = inr t /\ s = pre +:+ t /\ allBytes asciiSpace pre = true
    /\ startsClean t = true /\ allBytes (fun c => negb (runeSelf c)) t = true.
Proof.
  induction s as [|c r IH]; cbn [allBytes trimStart].
  - intros _. exists EmptyString, EmptyString. repeat split.
  - intros H. apply andb_true_iff in H as [Hc Hr].
    destruct (runeSelf c) eqn:Hrs; [discriminate|].
    destruct (asciiSpace c) eqn:Hs.
    + destruct (IH Hr) as (pre & t & H1 & H2 & H3 & H4 & H5).
      exists (String c pre), t. rewrite string_app_cons, <- H2.
      repeat split; try assumption. cbn [allBytes]. now rewrite Hs, H3.
    + exists EmptyString, (String c r). repeat split.
      * cbn [startsClean]. now rewrite Hs.
      * cbn [allBytes]. now rewrite Hrs, Hr.
Qed.

Lemma sliceTo_succ (t : string) :
  forall k c, String.get k t = Some c ->
    GoStrings.sliceTo (S k) t = GoStrings.sliceTo k t +:+ String c EmptyString.
Proof.
  induction t as [|x t IH]; intros k c H; [destruct k; discriminate|].
  destruct k as [|k].
  - injection H as ->. destruct t; reflexivity.
  - cbn [String.get] in H. change (GoStrings.sliceTo (S (S k)) (String x t))
      with (String x (GoStrings.sliceTo (S k) t)).
    rewrite (IH k c H). reflexivity.
Qed.

Lemma sliceTo_all (t : string) : GoStrings.sliceTo (String.length t) t = t.
Proof. induction t as [|x t IH]; [reflexivity|]. cbn. now rewrite IH. Qed.

Lemma get_allBytes (p : ascii -> bool) (t : string) :
  allBytes p t = true -> forall k c, String.get k t = Some c -> p c = true.
Proof.
  induction t as [|x t IH]; intros H k c Hk; [destruct k; discriminate|].
  cbn [allBytes] in H. apply andb_true_iff in H as [Hx Ht].
  destruct k as [|k]; [now injection Hk as <- | exact (IH Ht k c Hk)].
Qed.

Lemma get_Some (t : string) :
  forall k, (k < String.length t)%nat -> exists c, String.get k t = Some c.
Proof.
  induction t as [|x t IH]; intros k Hk; cbn [String.length] in Hk; [lia|].
  destruct k as [|k]; [eauto|]. apply IH. lia.
Qed.

Lemma trimRight_snoc (u : string) (c : ascii) :
  trimRight (u +:+ String c EmptyString)
  = if asciiSpace c then trimRight u else u +:+ String c EmptyString.
Proof.
  induction u as [|x u IH].
  - rewrite string_app_nil_l. cbn [trimRight]. destruct (asciiSpace c); reflexivity.
  - rewrite string_app_cons. cbn [trimRight]. rewrite IH.
    destruct (asciiSpace c).
    + reflexivity.
    + destruct u; reflexivity.
Qed.

Lemma trimStop_ascii (t : string) :
  allBytes (fun c => negb (runeSelf c)) t = true ->
  forall n, (n <= String.length t)%nat ->
    trimStop TrimRightFuncIsSpace t n = trimRight (GoStrings.sliceTo n t).
Proof.
  intros Ha. induction n as [|k IH]; intros Hn; cbn [trimStop].
  - destruct t; reflexivity.
  - destruct (get_Some t k ltac:(lia)) as [c Hc]. rewrite Hc.
    pose proof (get_allBytes _ t Ha k c Hc) as Hr. apply negb_true_iff in Hr. rewrite Hr.
    rewrite (sliceTo_succ t k c Hc), trimRight_snoc.
    destruct (asciiSpace c); [apply IH; lia | reflexivity].
Qed.

Lemma trimRight_spec (t : string) :
  exists post,
    t = trimRight t +:+ post /\ allBytes asciiSpace post = true
    /\ endsClean (trimRight t) = true
    /\ (startsClean t = true -> startsClean (trimRight t) = true).
Proof.
  induction t as [|c r (post & H1 & H2 & H3 & H4)].
  - exists EmptyString. repeat split.
  - cbn [trimRight]. destruct (trimRight r) as [|y r'] eqn:E.
    + destruct (asciiSpace c) eqn:Hs.
      * exists (String c r). repeat split. cbn [allBytes]. rewrite Hs.
        rewrite string_app_nil_l in H1. now rewrite H1.
      * exists post. rewrite string_app_nil_l in H1. rewrite string_app_cons, string_app_nil_l.
        repeat split; [now rewrite <- H1 | exact H2 | |].
        -- unfold endsClean. cbn [GoStrings.lastByte]. now rewrite Hs.
        -- intros _. cbn [startsClean]. now rewrite Hs.
    + exists post. rewrite string_app_cons, <- H1. repeat split; [exact H2 | |].
      * unfold endsClean in *. cbn [GoStrings.lastByte] in *. exact H3.
      * intros H. exact H.
Qed.

Lemma allBytes_app (p : ascii -> bool) (a b : string) :
  allBytes p (a +:+ b) = allBytes p a && allBytes p b.
Proof.
  induction a as [|x a IH]; [reflexivity|].
  rewrite string_app_cons. cbn [allBytes]. now rewrite IH, andb_assoc.
Qed.

(** X28.  What [Calendar.GetPassword] returns.  It never returns an empty
    password, and fails when the file cannot be read.  For a file of ASCII
    bytes the password is the text of the file without the white space (tab,
    line feed, vertical tab, form feed, carriage return, blank) it starts
    and ends with: the text is white space, the password, white space, and
    the password neither starts nor ends with white space; and the call
    fails exactly when the text is white space only. *)
Theorem GetPassword_trims (c : Calendar) :
  match ReadFile (PasswordFile c) with
  | Err _ => isOk (GetPassword TrimFuncIsSpace TrimRightFuncIsSpace ReadFile c) = false
  | Ok data =>
      match GetPassword TrimFuncIsSpace TrimRightFuncIsSpace ReadFile c with
      | Ok password =>
          password <> EmptyString
          /\ (allBytes (fun c => negb (runeSelf c)) data = true ->
              allBytes asciiSpace data = false
              /\ startsClean password = true /\ endsClean password = true
              /\ exists pre post,
                   data = pre +:+ password +:+ post
                   /\ allBytes asciiSpace pre = true /\ allBytes asciiSpace post = true)
      | Err _ =>
          allBytes (fun c => negb (runeSelf c)) data = true -> allBytes asciiSpace data = true
      end
  end.
Proof.
  unfold GetPassword. destruct (ReadFile (PasswordFile c)) as [data|err]; [|reflexivity].
  cbv zeta.
  assert (H : allBytes (fun c => negb (runeSelf c)) data = true ->
              startsClean (TrimSpace TrimFuncIsSpace TrimRightFuncIsSpace data) = true
              /\ endsClean (TrimSpace TrimFuncIsSpace TrimRightFuncIsSpace data) = true
              /\ exists pre post,
                   data = pre +:+ TrimSpace TrimFuncIsSpace TrimRightFuncIsSpace data +:+ post
                   /\ allBytes asciiSpace pre = true /\ allBytes asciiSpace post = true).
  { intros Ha. unfold TrimSpace.
    destruct (trimStart_ascii data Ha) as (pre & t & -> & -> & Hpre & Hclean & Ht).
    rewrite (trimStop_ascii t Ht (String.length t) (le_n _)), sliceTo_all.
    destruct (trimRight_spec t) as (post & H1 & H2 & H3 & H4).
    split; [exact (H4 Hclean)|]. split; [exact H3|].
    exists pre, post. rewrite <- H1. repeat split; assumption. }
  destruct (String.eqb_spec (TrimSpace TrimFuncIsSpace TrimRightFuncIsSpace data) EmptyString)
    as [E|E].
  - intros Ha. destruct (H Ha) as (_ & _ & pre & post & Hd & Hpre & Hpost).
    rewrite E, string_app_nil_l in Hd. rewrite Hd, allBytes_app, Hpre, Hpost. reflexivity.
  - split; [exact E|]. intros Ha. destruct (H Ha) as (Hs & He & pre & post & Hd & Hpre & Hpost).
    split; [|split; [exact Hs|split; [exact He|]]].
    + rewrite Hd, !allBytes_app.
      destruct (TrimSpace TrimFuncIsSpace TrimRightFuncIsSpace data) as [|x r];
        [contradiction|].
      cbn [startsClean] in Hs. apply negb_true_iff in Hs. cbn [allBytes]. rewrite Hs.
      now rewrite andb_false_r.
    + exists pre, post. repeat split; assumption.
Qed.

End PasswordFiles.

(** ** The components [parseEvent] accepts *)

Section Acceptance.

Import GoTime Ical Caldav Api Spec.

Variable LoadLocation : string -> option GoTime.Location.
Variable NewRRule : string -> result RRule.

(** X29.  When [parseEvent] accepts a component.  It returns events, and no
    error, exactly when the component has a UID and a DTSTART that parses;
    its DTEND parses, when it has one; its DURATION parses, when it has one
    and no DTEND (next to a DTEND the duration is not looked at); and the
    rule library accepts its RRULE, when it has one.  The EXDATE entries
    have no part in it. *)
Theorem parseEvent_accepts (c : Client) (comp : Component) (queryStart queryEnd : Time) :
  isOk (parseEvent LoadLocation NewRRule c comp queryStart queryEnd).1 = true
  <-> exists uid dtstart startTime allDay,
        PropsGet (compProps comp) "UID" = Some uid
        /\ PropsGet (compProps comp) "DTSTART" = Some dtstart
        /\ parseDateTime LoadLocation c dtstart = Ok (startTime, allDay)
        /\ match PropsGet (compProps comp) "DTEND", PropsGet (compProps comp) "DURATION" with
           | Some dtend, _ => isOk (parseDateTime LoadLocation c dtend) = true
           | None, Some duration => isOk (parseDuration (propValue duration)) = true
           | None, None => True
           end
        /\ match PropsGet (compProps comp) "RRULE" with
           | Some rruleProp =>
               isOk (NewRRule (rruleText startTime allDay (propValue rruleProp))) = true
           | None => True
           end.
Proof.
  unfold parseEvent.
  destruct (PropsGet (compProps comp) "UID") as [uid|];
    [|split; [discriminate | intros (? & ? & ? & ? & [=] & _)]].
  destruct (PropsGet (compProps comp) "DTSTART") as [dtstart|];
    [|split; [discriminate | intros (? & ? & ? & ? & _ & [=] & _)]].
  destruct (parseDateTime LoadLocation c dtstart) as [[startTime allDay]|e] eqn:Hstart;
    [|split; [discriminate | intros (? & ? & ? & ? & _ & [= <-] & H & _); congruence]].
  assert (Hexp : forall endTime,
             isOk (expandRecurringEvent NewRRule c comp (propValue uid)
                     (textOf comp "SUMMARY") (textOf comp "DESCRIPTION")
                     (textOf comp "LOCATION") startTime endTime allDay queryStart queryEnd).1
             = match PropsGet (compProps comp) "RRULE" with
               | Some rruleProp =>
                   isOk (NewRRule (rruleText startTime allDay (propValue rruleProp)))
               | None => false
               end).
  { intros endTime. unfold expandRecurringEvent.
    destruct (PropsGet (compProps comp) "RRULE") as [rruleProp|]; [|reflexivity].
    destruct (NewRRule _) as [rule|e]; [|reflexivity].
    destruct (exdatesOf c comp) as [exdates lines]. reflexivity. }
  destruct (PropsGet (compProps comp) "DTEND") as [dtend|].
  - destruct (parseDateTime LoadLocation c dtend) as [[endTime a]|e].
    + destruct (PropsGet (compProps comp) "RRULE") as [rruleProp|] eqn:Hr.
      * rewrite Hexp. split.
        -- intros H. exists uid, dtstart, startTime, allDay. repeat split; assumption.
        -- intros (u & d & s & a' & _ & [= <-] & Hq & _ & H).
           rewrite Hstart in Hq. injection Hq as <- <-. exact H.
      * split; [|reflexivity]. intros _. exists uid, dtstart, startTime, allDay.
        repeat split; assumption.
    + split; [discriminate|]. intros (? & ? & ? & ? & _ & _ & _ & [=] & _).
  - destruct (PropsGet (compProps comp) "DURATION") as [duration|].
    + destruct (parseDuration (propValue duration)) as [dur|e].
      * destruct (PropsGet (compProps comp) "RRULE") as [rruleProp|] eqn:Hr.
        -- rewrite Hexp. split.
           ++ intros H. exists uid, dtstart, startTime, allDay. repeat split; assumption.
           ++ intros (u & d & s & a' & _ & [= <-] & Hq & _ & H).
           rewrite Hstart in Hq. injection Hq as <- <-. exact H.
        -- split; [|reflexivity]. intros _. exists uid, dtstart, startTime, allDay.
           repeat split; assumption.
      * split; [discriminate|]. intros (? & ? & ? & ? & _ & _ & _ & [=] & _).
    + assert (Hend : (if allDay then Ok (Add startTime (24 * Hour)) else Ok startTime)
                     = Ok (if allDay then Add startTime (24 * Hour) else startTime))
        by (destruct allDay; reflexivity).
      rewrite Hend.
      destruct (PropsGet (compProps comp) "RRULE") as [rruleProp|] eqn:Hr.
      * rewrite Hexp. split.
        -- intros H. exists uid, dtstart, startTime, allDay. repeat split; assumption.
        -- intros (u & d & s & a' & _ & [= <-] & Hq & _ & H).
           rewrite Hstart in Hq. injection Hq as <- <-. exact H.
      * split; [|reflexivity]. intros _. exists uid, dtstart, startTime, allDay.
        repeat split; assumption.
Qed.

End Acceptance.

(** ** Sample runs *)

(** The all-day event of 2026-10-25, shown at one hour east of UTC all
    year, ends at 00:00 of 2026-10-26. *)
Lemma parseEvent_all_day_end_in_fixed_zone_witness :
  Caldav.parseEvent Examples.noZones Examples.hourlyRules Cases.sourceFixed Examples.switchDay
    Examples.nineOClock Examples.tenOClock
  = (Ok [Caldav.mkEvent "day" EmptyString EmptyString EmptyString
           (GoTime.Date 2026 10 25 0 0 0 0 Cases.CET)
           (GoTime.AddDate (GoTime.Date 2026 10 25 0 0 0 0 Cases.CET) 0 0 1) true
           "F" "#445566" false], []).
Proof.
  apply (parseEvent_all_day_end_in_fixed_zone Examples.noZones Examples.hourlyRules
           Cases.sourceFixed Examples.switchDay Examples.nineOClock Examples.tenOClock
           (Examples.property "UID" "day") (Examples.dateProperty "DTSTART" "20261025")
           (GoTime.Date 2026 10 25 0 0 0 0 Cases.CET));
    vm_compute; reflexivity.
Defined.

(** The single day 2026-10-25, at one hour east of UTC all year. *)
Lemma GetEvents_window_in_fixed_zone_witness :
  Api.fetches (Api.GetEvents Examples.noZones Examples.hourlyRules Cases.fixedHandler
                 "2026-10-25" "2026-10-25" [Cases.sourceFixed])
  = [("F", GoTime.Date 2026 10 25 0 0 0 0 Cases.CET,
      GoTime.AddDate (GoTime.Date 2026 10 25 0 0 0 0 Cases.CET) 0 0 1)].
Proof.
  apply (GetEvents_window_in_fixed_zone Examples.noZones Examples.hourlyRules
           Cases.fixedHandler "2026-10-25" "2026-10-25" [Cases.sourceFixed]
           (GoTime.Date 2026 10 25 0 0 0 0 Cases.CET)
           (GoTime.Date 2026 10 25 0 0 0 0 Cases.CET));
    vm_compute; reflexivity.
Defined.


(** Source A answers and source B fails, in either order. *)
Lemma GetEvents_any_completion_order_witness :
  match Api.response (Api.GetEvents Examples.noZones Examples.hourlyRules Cases.twoAnswers
                        "2026-01-05" "2026-01-05" [Examples.sourceA; Examples.sourceDown]),
        Api.response (Api.GetEvents Examples.noZones Examples.hourlyRules Cases.twoAnswers
                        "2026-01-05" "2026-01-05" [Examples.sourceDown; Examples.sourceA]) with
  | Api.JSONEvents events, Api.JSONEvents events' =>
      events ≡ₚ events' /\ Spec.sortKey <$> events = Spec.sortKey <$> events'
  | Api.JSONError status _, Api.JSONError status' _ => status = status'
  | _, _ => False
  end.
Proof.
  apply (GetEvents_any_completion_order Examples.noZones Examples.hourlyRules
           Cases.twoAnswers "2026-01-05" "2026-01-05"
           [Examples.sourceA; Examples.sourceDown] [Examples.sourceDown; Examples.sourceA]).
  apply perm_swap.
Defined.


(** February 2026 with the event of the night of 2026-01-31. *)
Lemma GetEventsMonth_days_witness :
  exists days,
    Api.response (Api.GetEventsMonth Examples.noZones Examples.hourlyRules
                    Examples.nightHandler "2026" "2" [Examples.sourceNight])
    = Api.JSONDays days
    /\ (forall day,
          day ∈ days
          <-> exists e,
                e ∈ Spec.merged
                      (Api.fetchAll Examples.noZones Examples.hourlyRules [Examples.sourceNight]
                         (GoTime.Date 2026 2 1 0 0 0 0 Examples.Rome)
                         (GoTime.AddDate (GoTime.Date 2026 2 1 0 0 0 0 Examples.Rome) 0 1 0))
                /\ MonthView.marks Examples.Rome 2 e day)
    /\ (forall e,
          e ∈ Spec.merged
                (Api.fetchAll Examples.noZones Examples.hourlyRules [Examples.sourceNight]
                   (GoTime.Date 2026 2 1 0 0 0 0 Examples.Rome)
                   (GoTime.AddDate (GoTime.Date 2026 2 1 0 0 0 0 Examples.Rome) 0 1 0)) ->
          Caldav.AllDay e = true ->
          forall day,
            MonthView.marks Examples.Rome 2 e day
            <-> day = GoTime.Day (GoTime.In (Caldav.Start e) Examples.Rome)).
Proof.
  apply (GetEventsMonth_days Examples.noZones Examples.hourlyRules Examples.nightHandler
           "2026" "2" [Examples.sourceNight] 2026 2); [reflexivity | reflexivity | lia].
Defined.

(** An all-day value in Rome. *)
Lemma parseDateTime_bare_date_witness :
  Caldav.parseDateTime Examples.noZones Examples.sourceA
    (Examples.dateProperty "DTSTART" "20261025")
  = Ok (GoTime.Date 2026 10 25 0 0 0 0 Examples.Rome, true).
Proof.
  exact (parseDateTime_bare_date Examples.noZones Examples.sourceA
           (Examples.dateProperty "DTSTART" "20261025") eq_refl).
Defined.

(** 08:00 UTC, shown in Rome. *)
Lemma parseDateTime_resolution_witness :
  Caldav.parseDateTime Examples.noZones Examples.sourceA
    (Examples.property "DTSTART" "20260105T080000Z")
  = Ok (GoTime.In (GoTime.Date 2026 1 5 8 0 0 0 GoTime.UTC) Examples.Rome, false).
Proof.
  apply (proj2 (parseDateTime_resolution Examples.noZones Examples.sourceA
                  (Examples.property "DTSTART" "20260105T080000Z") "20260105T080000"
                  (2026, 1, 5) (8, 0, 0) eq_refl eq_refl)).
  reflexivity.
Defined.

(** The second calendar of the sample has a colour that is no [#RRGGBB]. *)
Lemma Validate_reports_first_invalid_calendar_witness :
  Config.Validate Cases.zones Cases.sample
  = Some "calendar 1 (Home): color must be in hex format (#RRGGBB)".
Proof.
  apply (Validate_reports_first_invalid_calendar Cases.zones Cases.sample 1 Cases.home
           "color must be in hex format (#RRGGBB)").
  - discriminate.
  - reflexivity.
  - reflexivity.
  - repeat constructor.
  - reflexivity.
  - reflexivity.
Defined.

(** Source A answers, source B fails: one line for B. *)
Lemma GetEvents_logs_failures_witness :
  exists fetchLines,
    fetchLines ≡ₚ []
    /\ Api.stderr (Api.GetEvents Examples.noZones Examples.hourlyRules Cases.twoAnswers
                     "2026-01-05" "2026-01-05" [Examples.sourceDown; Examples.sourceA])
       = fetchLines
         ++ ["Error fetching events: calendar B: failed to query calendar B: timeout"].
Proof.
  exact (GetEvents_logs_failures Examples.noZones Examples.hourlyRules Cases.twoAnswers
           "2026-01-05" "2026-01-05" [Examples.sourceDown; Examples.sourceA]
           (GoTime.Date 2026 1 5 0 0 0 0 Examples.Rome)
           (GoTime.Date 2026 1 5 0 0 0 0 Examples.Rome) eq_refl eq_refl).
Defined.

(** One calendar whose password can be read. *)
Lemma NewHandler_clients_witness :
  Api.hTimezone (Api.mkHandler [Cases.sourceFixed] Cases.CET) = Cases.CET
  /\ (fun c => (Caldav.calendarName c, Caldav.calendarColor c, Caldav.timezone c))
       <$> Api.clients (Api.mkHandler [Cases.sourceFixed] Cases.CET)
     = (fun cal => (Api.Name cal, Api.Color cal, Cases.CET)) <$> [Cases.calendarFixed]
  /\ Forall (fun cal => isOk (Api.GetPassword cal) = true) [Cases.calendarFixed].
Proof.
  apply (NewHandler_clients Cases.CET [Cases.calendarFixed]
           (Api.mkHandler [Cases.sourceFixed] Cases.CET)).
  reflexivity.
Defined.
